(** * Discharge-list extraction engine: [server/src/services/pdfParser.ts]

    A shallow embedding of [parseDischargeText], [parseDischargeRow],
    [splitPcpAndInsurance] and [normalizeProviderName], together with
    the fragment of JavaScript strings and regular expressions they use.

    Strings are sequences of UTF-16 code units ([list N]); none of the
    regular expressions of the source carries the [u] flag, so they work
    on code units as well. *)

From Stdlib Require Import Ascii String.
From Stdlib Require Import List NArith ZArith QArith Qround Qminmax Bool Lia
  Permutation Sorted.
Import ListNotations.

Close Scope Q_scope.

(* ================================================================== *)
(** ** Code units and character classes *)
(* ================================================================== *)

Module Chr.

Local Open Scope N_scope.

Definition char := N.

Definition of_ascii (a : ascii) : char := N_of_ascii a.

Definition between (lo hi c : char) : bool := (N.leb lo c && N.leb c hi)%bool.

(** [\d] *)
Definition is_digit (c : char) : bool := between 48 57 c.

(** [[A-Z]] *)
Definition is_upper (c : char) : bool := between 65 90 c.

Definition is_lower (c : char) : bool := between 97 122 c.

(** The word characters of [\b]: [[A-Za-z0-9_]]. *)
Definition is_word (c : char) : bool :=
  (is_upper c || is_lower c || is_digit c || N.eqb c 95)%bool.

(** ECMAScript WhiteSpace and LineTerminator code points: the class [\s],
    and what [String.prototype.trim] strips. *)
Definition is_space (c : char) : bool :=
  (between 9 13 c || N.eqb c 32 || N.eqb c 160 || N.eqb c 5760
   || between 8192 8202 c || N.eqb c 8232 || N.eqb c 8233
   || N.eqb c 8239 || N.eqb c 8287 || N.eqb c 12288 || N.eqb c 65279)%bool.

(** LineTerminator: what [.] refuses. *)
Definition is_newline (c : char) : bool :=
  (N.eqb c 10 || N.eqb c 13 || N.eqb c 8232 || N.eqb c 8233)%bool.

Definition dot (c : char) : bool := negb (is_newline c).

(** Canonicalize of a case-insensitive pattern without the [u] flag.
    A code unit of 128 or more never canonicalizes to a code unit below
    128, and every pattern character of the source is below 128, so on
    the comparisons the source makes the upper-casing of [a-z] is all
    there is. *)
Definition canon (c : char) : char := if is_lower c then c - 32 else c.

(** One pattern character under the [i] flag. *)
Definition ci (x c : char) : bool := N.eqb (canon c) (canon x).

End Chr.

Import Chr.

(* ================================================================== *)
(** ** JavaScript strings *)
(* ================================================================== *)

Module Str.

Definition str := list char.

(** A literal of the source. *)
Definition lit (s : string) : str := map of_ascii (list_ascii_of_string s).

Definition eqb (a b : str) : bool :=
  if list_eq_dec N.eq_dec a b then true else false.

(** Truthiness of a string: non-empty. *)
Definition truthy (s : str) : bool :=
  match s with [] => false | _ :: _ => true end.

Definition len (s : str) : Z := Z.of_nat (length s).

Fixpoint dropWhile (p : char -> bool) (s : str) : str :=
  match s with
  | [] => []
  | c :: s' => if p c then dropWhile p s' else s
  end.

(** [s.trim()] *)
Definition trim (s : str) : str :=
  rev (dropWhile is_space (rev (dropWhile is_space s))).

Fixpoint starts_with (p s : str) : bool :=
  match p, s with
  | [], _ => true
  | _ :: _, [] => false
  | a :: p', b :: s' => (N.eqb a b && starts_with p' s')%bool
  end.

(** [s.endsWith(p)] *)
Definition endsWith (s p : str) : bool := starts_with (rev p) (rev s).

(** First index of [p] in [s], counted from [i]; [None] when [p] does not
    occur. *)
Fixpoint find_from (p s : str) (i : nat) : option nat :=
  if starts_with p s then Some i
  else match s with
       | [] => None
       | _ :: s' => find_from p s' (S i)
       end.

Definition clamp (s : str) (i : Z) : nat :=
  Z.to_nat (Z.max 0 (Z.min i (len s))).

(** [s.indexOf(p, from)]: the position as a number, [-1] when absent. *)
Definition indexOf (s p : str) (from : Z) : Z :=
  let k := clamp s from in
  match find_from p (skipn k s) k with
  | Some i => Z.of_nat i
  | None => (-1)%Z
  end.

(** [s.includes(p)] *)
Definition includes (s p : str) : bool :=
  match find_from p s 0 with Some _ => true | None => false end.

(** Last index of [p] in [s], the candidates being [i], [i+1], ... *)
Fixpoint find_last (p s : str) (i : nat) : option nat :=
  match s with
  | [] => if starts_with p [] then Some i else None
  | _ :: s' =>
      match find_last p s' (S i) with
      | Some j => Some j
      | None => if starts_with p s then Some i else None
      end
  end.

(** [s.lastIndexOf(p)] *)
Definition lastIndexOf (s p : str) : Z :=
  match find_last p s 0 with
  | Some i => Z.of_nat i
  | None => (-1)%Z
  end.

(** [s.substring(a, b)]: both ends clamped to the string, and swapped
    when [a > b]. *)
Definition substring (s : str) (a b : Z) : str :=
  let a' := clamp s a in
  let b' := clamp s b in
  let lo := Nat.min a' b' in
  let hi := Nat.max a' b' in
  firstn (hi - lo) (skipn lo s).

(** [s.substring(a)] *)
Definition substring_from (s : str) (a : Z) : str := skipn (clamp s a) s.

(** [s.slice(a, b)] for non-negative [a] and [b]: clamped, never
    swapped. *)
Definition slice (s : str) (a b : Z) : str :=
  let a' := clamp s a in
  let b' := clamp s b in
  firstn (b' - a') (skipn a' s).

(** [s.slice(a)] for a non-negative [a]. *)
Definition slice_from (s : str) (a : Z) : str := skipn (clamp s a) s.

(** [s.split('\n')] *)
Fixpoint split_lines (s : str) : list str :=
  match s with
  | [] => [[]]
  | c :: s' =>
      if N.eqb c 10 then [] :: split_lines s'
      else match split_lines s' with
           | [] => [[c]]
           | l :: ls => (c :: l) :: ls
           end
  end.

(** [s.toUpperCase()], on the code units below 128. The source applies
    it to the text captured by an alternation of ASCII credential
    tokens only; code units of 128 and more are left as they are. *)
Definition toUpperCase (s : str) : str := map canon s.

(** [s.toLowerCase()]. Two code units of 128 or more have an image with
    a code unit below 128: U+0130 becomes [i] followed by U+0307, and
    U+212A (the Kelvin sign) becomes [k]. Every other code unit of 128
    or more lowercases to code units of 128 or more; the source only
    searches the result for ASCII words, so the model leaves those
    unchanged. *)
Definition lower (c : char) : str :=
  if is_upper c then [(c + 32)%N]
  else if N.eqb c 304 then [105%N; 775%N]
  else if N.eqb c 8490 then [107%N]
  else [c].

Definition toLowerCase (s : str) : str := flat_map lower s.

End Str.

Import Str.

Declare Scope js_scope.
Delimit Scope js_scope with js.
Notation "'$' s" := (lit s) (at level 9, s at level 0, format "'$' s") : js_scope.
Local Open Scope js_scope.

(* ================================================================== *)
(** ** Regular expressions *)
(* ================================================================== *)

(** The fragment of ECMAScript regular expressions the source uses, with
    its backtracking semantics: a matcher lists the states a pattern can
    end in, in priority order, so that the head of the list is the match
    the backtracking engine finds. Every quantifier of the source stands
    on a single character class, which is what [Rep] holds. *)
Module Re.

Inductive regex : Type :=
| Eps : regex
| Cls (p : char -> bool)
| Rep (p : char -> bool) (lo : nat) (hi : option nat) (greedy : bool)
| Seq (r1 r2 : regex)
| Alt (r1 r2 : regex)
| Grp (k : nat) (r : regex)
| Bol : regex
| Eol : regex
| Wb : regex
| Ahead (r : regex).

(** The captures recorded so far, latest first. *)
Definition caps := list (nat * str).

Fixpoint lookup (k : nat) (c : caps) : option str :=
  match c with
  | [] => None
  | (k', v) :: c' => if Nat.eqb k k' then Some v else lookup k c'
  end.

(** A matcher state: the position in the input and the captures. *)
Definition mstate := (nat * caps)%type.

(** Length of the longest prefix of [s] inside the class [p]. *)
Fixpoint run (p : char -> bool) (s : str) : nat :=
  match s with
  | [] => 0
  | c :: s' => if p c then S (run p s') else 0
  end.

(** The repetition counts a quantifier tries, in the order it tries
    them, when [avail] characters of the class are at hand. *)
Definition counts (greedy : bool) (lo : nat) (hi : option nat) (avail : nat)
  : list nat :=
  let top := match hi with Some h => Nat.min h avail | None => avail end in
  if top <? lo then []
  else let up := seq lo (S (top - lo)) in
       if greedy then rev up else up.

Definition word_at (input : str) (i : nat) : bool :=
  match nth_error input i with
  | Some c => is_word c
  | None => false
  end.

Definition word_before (input : str) (i : nat) : bool :=
  match i with
  | 0 => false
  | S j => word_at input j
  end.

Definition span (input : str) (i j : nat) : str :=
  firstn (j - i) (skipn i input).

Fixpoint m (r : regex) (input : str) (st : mstate) : list mstate :=
  match r with
  | Eps => [st]
  | Cls p =>
      match nth_error input (fst st) with
      | Some c => if p c then [(S (fst st), snd st)] else []
      | None => []
      end
  | Rep p lo hi greedy =>
      map (fun n => (fst st + n, snd st))
          (counts greedy lo hi (run p (skipn (fst st) input)))
  | Seq r1 r2 => flat_map (m r2 input) (m r1 input st)
  | Alt r1 r2 => m r1 input st ++ m r2 input st
  | Grp k r =>
      map (fun st' => (fst st', (k, span input (fst st) (fst st')) :: snd st'))
          (m r input st)
  | Bol => if Nat.eqb (fst st) 0 then [st] else []
  | Eol => if Nat.eqb (fst st) (length input) then [st] else []
  | Wb =>
      if xorb (word_before input (fst st)) (word_at input (fst st))
      then [st] else []
  | Ahead r =>
      match m r input st with
      | [] => []
      | st' :: _ => [(fst st, snd st')]
      end
  end.

(** What [String.prototype.match] returns for a pattern without the [g]
    flag: where the match starts and stops, its text (element 0) and the
    captures. *)
Record rmatch : Type := {
  index : nat;
  stop : nat;
  whole : str;
  groups : caps
}.

(** The match starting at position [i], if there is one. *)
Definition exec (r : regex) (input : str) (i : nat) : option rmatch :=
  match m r input (i, []) with
  | [] => None
  | st :: _ =>
      Some {| index := i; stop := fst st;
              whole := span input i (fst st); groups := snd st |}
  end.

(** The leftmost match among the [n] start positions [i], [i+1], ... *)
Fixpoint search_from (r : regex) (input : str) (n i : nat) : option rmatch :=
  match n with
  | 0 => None
  | S n' =>
      match exec r input i with
      | Some mt => Some mt
      | None => search_from r input n' (S i)
      end
  end.

(** [input.match(r)] *)
Definition re_match (r : regex) (input : str) : option rmatch :=
  search_from r input (S (length input)) 0.

(** [r.test(input)] *)
Definition test (r : regex) (input : str) : bool :=
  match re_match r input with Some _ => true | None => false end.

(** Element [k] of the match array, [None] standing for [undefined]. *)
Definition group (k : nat) (mt : rmatch) : option str := lookup k (groups mt).

(** [input.replace(r, rep)] for a pattern with the [g] flag and a
    replacement without [$]: the matches are looked for one after the
    other, each from where the previous one stopped (one further after an
    empty match); [copied] is how much of the input is already written
    out. *)
Fixpoint replace_loop (fuel : nat) (r : regex) (rep input : str)
    (from copied : nat) : str :=
  match fuel with
  | 0 => skipn copied input
  | S fuel' =>
      match search_from r input (S (length input) - from) from with
      | None => skipn copied input
      | Some mt =>
          span input copied (index mt) ++ rep ++
          replace_loop fuel' r rep input
            (if Nat.eqb (stop mt) (index mt) then S (stop mt) else stop mt)
            (stop mt)
      end
  end.

Definition replace_all (r : regex) (rep input : str) : str :=
  replace_loop (S (S (length input))) r rep input 0 0.

(** Pattern builders. *)
Fixpoint chars (s : str) : regex :=
  match s with
  | [] => Eps
  | c :: s' => Seq (Cls (N.eqb c)) (chars s')
  end.

(** A literal under the [i] flag. *)
Fixpoint chars_i (s : str) : regex :=
  match s with
  | [] => Eps
  | c :: s' => Seq (Cls (ci c)) (chars_i s')
  end.

Definition cat (rs : list regex) : regex := fold_right Seq Eps rs.

Fixpoint alts (r : regex) (rs : list regex) : regex :=
  match rs with
  | [] => r
  | r' :: rs' => Alt r (alts r' rs')
  end.

Definition star (p : char -> bool) : regex := Rep p 0 None true.
Definition plus (p : char -> bool) : regex := Rep p 1 None true.
Definition plus_lazy (p : char -> bool) : regex := Rep p 1 None false.
Definition exactly (n : nat) (p : char -> bool) : regex := Rep p n (Some n) true.
Definition at_least (n : nat) (p : char -> bool) : regex := Rep p n None true.

End Re.

Import Re.

(* ================================================================== *)
(** ** Exceptions *)
(* ================================================================== *)

(** A computation either returns or throws a [TypeError] (a method call
    on [undefined]). *)
Inductive exn (A : Type) : Type :=
| OK (a : A)
| TypeError.

Arguments OK {A} a.
Arguments TypeError {A}.

Definition ret {A : Type} (a : A) : exn A := OK a.

Definition bind {A B : Type} (e : exn A) (k : A -> exn B) : exn B :=
  match e with
  | OK a => k a
  | TypeError => TypeError
  end.

Notation "x <- e ;; k" := (bind e (fun x => k))
  (at level 61, e at next level, right associativity).

Fixpoint mapM {A B : Type} (f : A -> exn B) (l : list A) : exn (list B) :=
  match l with
  | [] => ret []
  | a :: l' => b <- f a ;; bs <- mapM f l' ;; ret (b :: bs)
  end.

(** Reading capture [k] of a match as a string. In JavaScript a capture
    that took no part in the match reads as [undefined], which throws
    once a method is called on it ([headerMatch[1].trim()],
    [wrongOrder[2].toUpperCase()], [d.slice]) and is carried on as a
    value otherwise; TypeScript types it as a string all the same. The
    model throws at every such read, so that a run that returns never
    held an [undefined] capture. *)
Definition read (k : nat) (mt : rmatch) : exn str :=
  match group k mt with
  | Some s => OK s
  | None => TypeError
  end.

(* ================================================================== *)
(** ** The parser *)
(* ================================================================== *)

Record ParsedDischarge : Type := {
  patientName : str;
  epicId : str;
  phoneNumber : option str;
  attendingPhysician : str;
  dischargeDate : str;
  primaryCareProvider : option str;
  insurance : str;
  disposition : str;
  confidence : Q;
  rawText : str
}.

(** The [rawText] of a [ParseResult] is [sourceText] here, [rawText]
    being the field of the record above. *)
Record ParseResult : Type := {
  hospitalName : str;
  reportDate : str;
  records : list ParsedDischarge;
  sourceText : str
}.

Definition DISPOSITIONS : list str :=
  [$"Home"; $"SNF"; $"HHS"; $"Rehab"; $"AMA"; $"Hospice"; $"LTAC"; $"Deceased"].

Definition INSURANCE_PATTERNS : list str :=
  [$"BCBS"; $"Blue Cross"; $"Aetna"; $"Aetna Health"; $"Humana";
   $"Humana Health"; $"UnitedHealthcare"; $"United"; $"Cigna"; $"Medicare";
   $"Medicaid"; $"Self Pay"; $"Self-Pay"; $"Tricare"; $"Kaiser"].

(** *** The patterns of the source *)

(** [/\s*\|\s*/g] *)
Definition pipeRe : regex :=
  cat [star is_space; chars $"|"; star is_space].

(** [/\s{2,}/g] *)
Definition spacesRe : regex := at_least 2 is_space.

(** [/^(.+?)\s+Discharges\s+for\s+(.+)$/i] *)
Definition headerRe : regex :=
  cat [Bol; Grp 1 (plus_lazy dot); plus is_space; chars_i $"Discharges";
       plus is_space; chars_i $"for"; plus is_space; Grp 2 (plus dot); Eol].

(** [/EP\d{9}/] *)
Definition epicIdPattern : regex := cat [chars $"EP"; exactly 9 is_digit].

(** [/(EP\d{9})/] *)
Definition epicIdRe : regex := Grp 1 epicIdPattern.

(** [/(\d{2}-\d{2}-\d{4})/] *)
Definition dateRe : regex :=
  Grp 1 (cat [exactly 2 is_digit; chars $"-"; exactly 2 is_digit; chars $"-";
              exactly 4 is_digit]).

(** [/^\s*\(missing\)\s*/i] *)
Definition missingRe : regex :=
  cat [Bol; star is_space; chars_i $"(missing)"; star is_space].

(** [/^\s*(\d{3}-\d{3}-\d{4})/] *)
Definition fmtPhoneRe : regex :=
  cat [Bol; star is_space;
       Grp 1 (cat [exactly 3 is_digit; chars $"-"; exactly 3 is_digit;
                   chars $"-"; exactly 4 is_digit])].

(** [/^\s*(\d{10})(?=\s|[A-Z])/] *)
Definition rawPhoneRe : regex :=
  cat [Bol; star is_space; Grp 1 (exactly 10 is_digit);
       Ahead (Alt (Cls is_space) (Cls is_upper))].

(** [/\b(MD|DO|PA|NP|RN)\b/i] *)
Definition credentialRe : regex :=
  cat [Wb;
       Grp 1 (alts (chars_i $"MD")
                [chars_i $"DO"; chars_i $"PA"; chars_i $"NP"; chars_i $"RN"]);
       Wb].

(** [/^([^,]+),\s+(MD|DO|PA|NP|PA-C|RN|BSN)\s+(.+)$/i] *)
Definition wrongOrderRe : regex :=
  cat [Bol; Grp 1 (plus (fun c => negb (ci 44%N c))); chars_i $","; plus is_space;
       Grp 2 (alts (chars_i $"MD")
                [chars_i $"DO"; chars_i $"PA"; chars_i $"NP"; chars_i $"PA-C";
                 chars_i $"RN"; chars_i $"BSN"]);
       plus is_space; Grp 3 (plus dot); Eol].

(** *** [normalizeProviderName] *)

Definition normalizeProviderName (raw : str) : exn str :=
  if negb (truthy raw) then ret []
  else
    let trimmed := trim raw in
    match re_match wrongOrderRe trimmed with
    | Some wrongOrder =>
        g1 <- read 1 wrongOrder ;;
        g2 <- read 2 wrongOrder ;;
        g3 <- read 3 wrongOrder ;;
        ret (g1 ++ $", " ++ g3 ++ $" " ++ toUpperCase g2)
    | None => ret trimmed
    end.

(** *** [splitPcpAndInsurance] *)

(** [[...l].sort((a, b) => b.length - a.length)]: the sort of an array
    is stable, entries of one length keep their order. *)
Fixpoint insert_by_length (x : str) (l : list str) : list str :=
  match l with
  | [] => [x]
  | y :: l' =>
      if length x <? length y then y :: insert_by_length x l'
      else x :: l
  end.

Definition sort_by_length_desc (l : list str) : list str :=
  fold_right insert_by_length [] l.

(** [s || null] *)
Definition or_null (s : str) : option str :=
  if truthy s then Some s else None.

(** [s || d] *)
Definition or_else (s d : str) : str := if truthy s then s else d.

Definition splitPcpAndInsurance (text : str) : option str * str :=
  if negb (truthy text) then (None, $"Unknown")
  else
    let sorted := sort_by_length_desc INSURANCE_PATTERNS in
    match find (fun pattern => (0 <=? indexOf text pattern 0)%Z) sorted with
    | Some pattern =>
        let idx := indexOf text pattern 0 in
        let pcp := or_null (trim (substring text 0 idx)) in
        let ins := pattern in
        (pcp, ins)
    | None =>
        if test credentialRe text then (Some (trim text), $"Unknown")
        else (None, or_else (trim text) $"Unknown")
    end.

(** *** [parseDischargeRow] *)

(** [Math.round(x * 100) / 100]. The source works on doubles: its score
    is [1.0] less a few of the constants [0.2] and [0.1], which differs
    from the exact decimal by far less than [0.005], so that the rounded
    product is the exact number of hundredths. The model computes on the
    rationals. *)
Definition round2 (x : Q) : Q :=
  (inject_Z (Qfloor (x * inject_Z 100 + (1 # 2))) / inject_Z 100)%Q.

(** [confidence -= p] under a condition. *)
Definition penalty (cond : bool) (p : Q) (confidence : Q) : Q :=
  if cond then (confidence - p)%Q else confidence.

(** [!s] for a [string | null]. *)
Definition falsy (s : option str) : bool :=
  match s with
  | Some s' => negb (truthy s')
  | None => true
  end.

(** Step 3, the body of [if (epicEndIdx > 0)]: the phone number, the
    phone confidence and the match that found it. *)
Definition phoneAfterEpic (afterEpic : str)
  : exn (option str * Q * option rmatch) :=
  let missingPhone := re_match missingRe afterEpic in
  let '(phoneNumber, phoneConfidence, phoneMatch) :=
    match missingPhone with
    | Some _ => (@None str, 0%Q, missingPhone)
    | None => (@None str, 0%Q, @None rmatch)
    end in
  let fmtPhone :=
    match missingPhone with
    | Some _ => None
    | None => re_match fmtPhoneRe afterEpic
    end in
  match fmtPhone with
  | Some mt =>
      p <- read 1 mt ;;
      ret (Some p, 1%Q, fmtPhone)
  | None =>
      let rawPhone := re_match rawPhoneRe afterEpic in
      match rawPhone with
      | Some mt =>
          d <- read 1 mt ;;
          ret (Some (slice d 0 3 ++ $"-" ++ slice d 3 6 ++ $"-" ++ slice_from d 6),
               (9 # 10)%Q, rawPhone)
      | None => ret (phoneNumber, phoneConfidence, phoneMatch)
      end
  end.

(** Step 4: the first known disposition the line ends with, the empty
    string when there is none. *)
Definition dispositionOf (line : str) : str :=
  let lineEnd := trim line in
  match find (fun disp => endsWith lineEnd disp) DISPOSITIONS with
  | Some disp => disp
  | None => []
  end.

(** Step 6, where the attending span starts. *)
Definition attendingStartOf (line : str) (epicEnd : Z)
    (phoneMatch : option rmatch) : Z :=
  match phoneMatch with
  | Some pm =>
      let matchStr :=
        match group 1 pm with
        | Some g => or_else g (whole pm)
        | None => whole pm
        end in
      let phoneIdx := indexOf line matchStr epicEnd in
      if (0 <=? phoneIdx)%Z then (phoneIdx + len matchStr)%Z else epicEnd
  | None => epicEnd
  end.

(** Step 6, the trimmed span between the date and the disposition. *)
Definition pcpAndInsuranceOf (line dischargeDate disposition : str) : str :=
  let dateIdx := indexOf line dischargeDate 0 in
  let afterDate := substring_from line (dateIdx + len dischargeDate) in
  let beforeDisposition :=
    if negb (eqb disposition $"Unknown")
    then substring afterDate 0 (lastIndexOf afterDate disposition)
    else afterDate in
  trim beforeDisposition.

(** Step 6, the body of [if (dateMatch && epicId)]: the attending
    physician, the primary care provider and the insurance. *)
Definition middleSection (line epicId dischargeDate disposition : str)
    (phoneMatch : option rmatch) : str * option str * str :=
  let dateIdx := indexOf line dischargeDate 0 in
  let epicEnd := (indexOf line epicId 0 + len epicId)%Z in
  let attendingStart := attendingStartOf line epicEnd phoneMatch in
  let attendingPhysician := trim (substring line attendingStart dateIdx) in
  let pcpAndInsurance := pcpAndInsuranceOf line dischargeDate disposition in
  let '(pcp, ins) := splitPcpAndInsurance pcpAndInsurance in
  let primaryCareProvider :=
    if (negb (falsy pcp) &&
        match pcp with
        | Some p => includes (toLowerCase p) $"missing"
        | None => false
        end)%bool
    then None else pcp in
  (attendingPhysician, primaryCareProvider, ins).

Definition parseDischargeRow (line : str) : exn ParsedDischarge :=
  let confidence := 1%Q in
  (* 1. Epic ID *)
  let epicMatch := re_match epicIdRe line in
  epicId <- match epicMatch with Some mt => read 1 mt | None => ret [] end ;;
  let confidence := penalty (negb (truthy epicId)) (2 # 10) confidence in
  (* 2. date *)
  let dateMatch := re_match dateRe line in
  dischargeDate <- match dateMatch with Some mt => read 1 mt | None => ret [] end ;;
  let confidence := penalty (negb (truthy dischargeDate)) (2 # 10) confidence in
  (* 3. phone number *)
  let epicEndIdx :=
    if truthy epicId then (indexOf line epicId 0 + len epicId)%Z else (-1)%Z in
  phone <- (if (0 <? epicEndIdx)%Z
            then phoneAfterEpic (substring_from line epicEndIdx)
            else ret (None, 0%Q, None)) ;;
  let '(phoneNumber, phoneConfidence, phoneMatch) := phone in
  (* 4. disposition *)
  let disposition := dispositionOf line in
  let confidence := penalty (negb (truthy disposition)) (1 # 10) confidence in
  let disposition := or_else disposition $"Unknown" in
  (* 5. patient name *)
  let patientName :=
    if truthy epicId
    then trim (substring line 0 (indexOf line epicId 0))
    else [] in
  let confidence := penalty (negb (truthy patientName)) (2 # 10) confidence in
  let patientName := or_else patientName $"Unknown" in
  (* 6. the middle section *)
  let '(attendingPhysician, primaryCareProvider, insurance) :=
    if (match dateMatch with Some _ => true | None => false end
        && truthy epicId)%bool
    then middleSection line epicId dischargeDate disposition phoneMatch
    else ([], None, []) in
  (* 7. provider names *)
  attendingPhysician <- normalizeProviderName attendingPhysician ;;
  primaryCareProvider <-
    match primaryCareProvider with
    | Some p =>
        if truthy p then (p' <- normalizeProviderName p ;; ret (Some p'))
        else ret primaryCareProvider
    | None => ret None
    end ;;
  let confidence := penalty (falsy phoneNumber) (1 # 10) confidence in
  let confidence := penalty (falsy primaryCareProvider) (1 # 10) confidence in
  let confidence := penalty (eqb insurance $"Unknown") (1 # 10) confidence in
  ret {| patientName := patientName;
         epicId := epicId;
         phoneNumber := phoneNumber;
         attendingPhysician := attendingPhysician;
         dischargeDate := dischargeDate;
         primaryCareProvider := primaryCareProvider;
         insurance := or_else insurance $"Unknown";
         disposition := disposition;
         confidence := Qmax 0 (round2 confidence);
         rawText := line |}.

(** *** [parseDischargeText] *)

(** One line of the input, cleaned. *)
Definition cleanLine (l : str) : str :=
  trim (replace_all spacesRe $" " (replace_all pipeRe $" " l)).

Definition linesOf (text : str) : list str :=
  filter truthy (map cleanLine (split_lines text)).

Definition isHeaderLine (l : str) : bool :=
  (includes (toLowerCase l) $"hospital"
   && includes (toLowerCase l) $"discharges")%bool.

Definition headerOf (lines : list str) : exn (str * str) :=
  let hospitalName := $"Unknown Hospital" in
  let reportDate := [] in
  match find isHeaderLine lines with
  | Some headerLine =>
      if truthy headerLine
      then match re_match headerRe headerLine with
           | Some headerMatch =>
               g1 <- read 1 headerMatch ;;
               g2 <- read 2 headerMatch ;;
               ret (trim g1, trim g2)
           | None => ret (hospitalName, reportDate)
           end
      else ret (hospitalName, reportDate)
  | None => ret (hospitalName, reportDate)
  end.

Definition parseDischargeText (text : str) : exn ParseResult :=
  let lines := linesOf text in
  header <- headerOf lines ;;
  let dataLines := filter (test epicIdPattern) lines in
  records <- mapM parseDischargeRow dataLines ;;
  ret {| hospitalName := fst header;
         reportDate := snd header;
         records := records;
         sourceText := text |}.

(* ================================================================== *)
(** ** Definitions used by the statements *)
(* ================================================================== *)

(** Capture [k] is written by every match of [r]. *)
Fixpoint defines (r : regex) (k : nat) : bool :=
  match r with
  | Grp k' r' => (Nat.eqb k k' || defines r' k)%bool
  | Seq r1 r2 => (defines r1 k || defines r2 k)%bool
  | Alt r1 r2 => (defines r1 k && defines r2 k)%bool
  | Ahead r' => defines r' k
  | _ => false
  end.

(** The record identifier of the source: the letters [E] and [P] and
    nine digits. *)
Definition is_epic_id (s : str) : Prop :=
  exists d, s = $"EP" ++ d /\ length d = 9 /\ forallb is_digit d = true.

(** The identifier as the specification words it: two upper-case
    letters and nine digits. *)
Definition is_two_letter_id (s : str) : Prop :=
  exists a b d, s = a :: b :: d /\ is_upper a = true /\ is_upper b = true /\
                length d = 9 /\ forallb is_digit d = true.

(** [l] has a substring of the shape [P]. *)
Definition has_substring (P : str -> Prop) (l : str) : Prop :=
  exists pre id post, l = pre ++ id ++ post /\ P id.

(** An identifier starts right here. *)
Definition epic_here (s : str) : bool :=
  (starts_with $"EP" s && (9 <=? run is_digit (skipn 2 s)))%bool.

(** A record of [l] is among the records [rs]. *)
Definition has_record (rs : list ParsedDischarge) (l : str) : Prop :=
  exists r, In r rs /\ rawText r = l.

(** The records of a text, for statements about one input. *)
Definition rowsOf (text : str) : list ParsedDischarge :=
  match parseDischargeText text with
  | OK res => records res
  | TypeError => []
  end.

(** *** The splitter, as the specification words it *)

(** The payer vocabulary in descending order of length. *)
Definition payersByLength : list str :=
  [$"UnitedHealthcare"; $"Humana Health"; $"Aetna Health"; $"Blue Cross";
   $"Medicare"; $"Medicaid"; $"Self Pay"; $"Self-Pay"; $"Tricare";
   $"Humana"; $"United"; $"Kaiser"; $"Aetna"; $"Cigna"; $"BCBS"].

Definition credentialTokens : list str :=
  [$"MD"; $"DO"; $"PA"; $"NP"; $"RN"].

(** [s] starts with [p], letter case apart. *)
Fixpoint starts_with_i (p s : str) : bool :=
  match p, s with
  | [], _ => true
  | _ :: _, [] => false
  | a :: p', b :: s' => (ci a b && starts_with_i p' s')%bool
  end.

(** The token [tok] stands at position [i] of [text] as a whole word:
    no word character right before it nor right after it. *)
Definition token_at (text : str) (i : nat) (tok : str) : bool :=
  (starts_with_i tok (skipn i text)
   && negb (word_before text i)
   && negb (word_at text (i + length tok)))%bool.

Definition hasCredential (text : str) : bool :=
  existsb (fun i => existsb (token_at text i) credentialTokens)
          (seq 0 (S (length text))).

(** The text in front of the leftmost occurrence of [p]. *)
Definition before (text p : str) : str :=
  match find_from p text 0 with
  | Some i => firstn i text
  | None => text
  end.

Definition splitSpec (span : str) : option str * str :=
  match find (includes span) payersByLength with
  | Some payer => (or_null (trim (before span payer)), payer)
  | None =>
      if hasCredential span then (Some span, $"Unknown")
      else (None, if truthy span then span else $"Unknown")
  end.

(** *** Fixed shapes *)

(** [s] starts with one character of each class of [sh], in order. *)
Fixpoint has_shape (sh : list (char -> bool)) (s : str) : bool :=
  match sh, s with
  | [], _ => true
  | _ :: _, [] => false
  | p :: sh', c :: s' => (p c && has_shape sh' s')%bool
  end.

(** The shape of a pattern that matches one character class after the
    other, a fixed number of them. *)
Fixpoint shape_of (r : regex) : option (list (char -> bool)) :=
  match r with
  | Eps => Some []
  | Cls p => Some [p]
  | Rep p lo (Some hi) _ => if Nat.eqb lo hi then Some (repeat p lo) else None
  | Seq r1 r2 =>
      match shape_of r1, shape_of r2 with
      | Some s1, Some s2 => Some (s1 ++ s2)
      | _, _ => None
      end
  | _ => None
  end.

(** *** The phone number, as the specification words it *)

Definition dash : char -> bool := N.eqb 45.

(** [NNN-NNN-NNNN] *)
Definition phoneShape : list (char -> bool) :=
  repeat is_digit 3 ++ [dash] ++ repeat is_digit 3 ++ [dash] ++ repeat is_digit 4.

(** Ten digits and then a white space or an upper-case letter. *)
Definition rawPhoneShape : list (char -> bool) :=
  repeat is_digit 10 ++ [fun c => (is_space c || is_upper c)%bool].

(** Ten digits and then a white space or a letter. *)
Definition rawPhoneShapeAnyLetter : list (char -> bool) :=
  repeat is_digit 10 ++ [fun c => (is_space c || is_upper c || is_lower c)%bool].

(** Ten digits as [NNN-NNN-NNNN]. *)
Definition reformat (d : str) : str :=
  firstn 3 d ++ $"-" ++ firstn 3 (skipn 3 d) ++ $"-" ++ skipn 6 d.

(** The phone number of the text that follows the identifier, as the
    claim states it: the patterns stand right at the start, and any
    letter may follow a raw number. *)
Definition phoneAsStated (afterEpic : str) : option str :=
  if has_shape phoneShape afterEpic then Some (firstn 12 afterEpic)
  else if has_shape rawPhoneShapeAnyLetter afterEpic
       then Some (reformat (firstn 10 afterEpic))
       else None.

(** The phone number of the text that follows the identifier: leading
    white space is passed over, and a raw number is followed by a white
    space or an upper-case letter. *)
Definition phoneSpec (afterEpic : str) : option str :=
  let t := dropWhile is_space afterEpic in
  if has_shape phoneShape t then Some (firstn 12 t)
  else if has_shape rawPhoneShape t then Some (reformat (firstn 10 t))
       else None.

(** The text that follows the leftmost identifier of a line. *)
Definition afterEpicOf (line : str) : str :=
  match re_match epicIdRe line with
  | Some mt => skipn (stop mt) line
  | None => []
  end.

(** What capture 1 of the formatted phone pattern holds. *)
Definition fmtPhoneBody : regex :=
  cat [exactly 3 is_digit; chars $"-"; exactly 3 is_digit; chars $"-";
       exactly 4 is_digit].

(** The credential tokens of the name normalizer. *)
Definition wrongOrderTokens : list str :=
  [$"MD"; $"DO"; $"PA"; $"NP"; $"PA-C"; $"RN"; $"BSN"].

(** *** The confidence and the date, as the specification words them *)

(** The confidence a record should carry by the penalty schedule, read
    off its fields: 0.2 for a missing identifier, a missing date and an
    unrecoverable name, 0.1 for an unrecognized outcome, an absent
    phone, an absent primary care provider and an unresolved payer. *)
Definition confidenceAsStated (r : ParsedDischarge) : Q :=
  Qmax 0
    (round2
       (penalty (eqb (insurance r) $"Unknown") (1 # 10)
       (penalty (falsy (primaryCareProvider r)) (1 # 10)
       (penalty (falsy (phoneNumber r)) (1 # 10)
       (penalty (eqb (disposition r) $"Unknown") (1 # 10)
       (penalty (eqb (patientName r) $"Unknown") (2 # 10)
       (penalty (negb (truthy (dischargeDate r))) (2 # 10)
       (penalty (negb (truthy (epicId r))) (2 # 10) 1%Q)))))))).

(** [NN-NN-NNNN] *)
Definition dateShape : list (char -> bool) :=
  repeat is_digit 2 ++ [dash] ++ repeat is_digit 2 ++ [dash] ++ repeat is_digit 4.

(** The first substring of [s] of the shape [sh]. *)
Fixpoint first_of_shape (sh : list (char -> bool)) (s : str) : option str :=
  if has_shape sh s then Some (firstn (length sh) s)
  else match s with
       | [] => None
       | _ :: s' => first_of_shape sh s'
       end.

(** The date of a line as the claim states it: the first date after
    the identifier. *)
Definition dateAsStated (line : str) : option str :=
  first_of_shape dateShape (afterEpicOf line).

(** *** The other spans of a row *)

(** The text in front of the leftmost identifier of a line. *)
Definition nameSpanOf (line : str) : str :=
  match re_match epicIdRe line with
  | Some mt => firstn (index mt) line
  | None => []
  end.

(** What capture 1 of the date pattern holds. *)
Definition dateBody : regex :=
  cat [exactly 2 is_digit; chars $"-"; exactly 2 is_digit; chars $"-";
       exactly 4 is_digit].

(** The score of a record that has a date, read off its fields and the
    text in front of its identifier: 1, less 0.1 for an unrecognized
    disposition, 0.2 for a missing name, 0.1 for an absent phone, 0.1
    for an absent primary care provider and 0.1 for an unknown payer. *)
Definition scheduleOf (r : ParsedDischarge) : Q :=
  penalty (eqb (insurance r) $"Unknown") (1 # 10)
  (penalty (falsy (primaryCareProvider r)) (1 # 10)
  (penalty (falsy (phoneNumber r)) (1 # 10)
  (penalty (negb (truthy (trim (nameSpanOf (rawText r))))) (2 # 10)
  (penalty (eqb (disposition r) $"Unknown") (1 # 10) 1%Q)))).

(** *** Cleaned lines *)

(** Neither a line feed nor a table delimiter. *)
Definition plain (c : char) : bool := (negb (N.eqb c 10) && negb (N.eqb c 124))%bool.

(** No two white-space characters next to each other. *)
Fixpoint single_spaced (s : str) : bool :=
  match s with
  | [] => true
  | c :: s' =>
      (negb (is_space c && match s' with d :: _ => is_space d | [] => false end)
       && single_spaced s')%bool
  end.

(** The first character of [s] is a white space. *)
Definition head_ws (s : str) : bool :=
  match s with
  | c :: _ => is_space c
  | [] => false
  end.

(** The word [w] occurs in [s], letter case apart. *)
Definition occurs_i (w s : str) : bool :=
  existsb (fun j => starts_with_i w (skipn j s)) (seq 0 (S (length s))).

(** White space at position [j] of the input. *)
Definition space_at (input : str) (j : nat) : bool := head_ws (skipn j input).

(** The letters [E] and [P] and nine digits. *)
Definition epicShape : list (char -> bool) :=
  [N.eqb 69; N.eqb 80] ++ repeat is_digit 9.

(** What the phone column of a row may hold, and the phone number it
    stands for: a formatted number, ten raw digits, or the placeholder
    of an absent number. *)
Inductive phone_field : str -> option str -> Prop :=
| phone_formatted (p : str) :
    has_shape phoneShape p = true -> length p = 12 -> phone_field p (Some p)
| phone_raw (d : str) :
    length d = 10 -> forallb is_digit d = true -> phone_field d (Some (reformat d))
| phone_missing : phone_field $"(missing)" None.

(** *** Names of the wrong-order shape *)

(** The text [t] reads [L, C G]: a surname [L] that is not empty and
    holds no comma, a comma, white space, a credential [C] in any letter
    case, white space, and a given name [G] that is not empty, does not
    start with a white space and holds no line terminator. *)
Definition wrong_order (t L C G : str) : Prop :=
  exists w1 w2,
    t = L ++ $"," ++ w1 ++ C ++ w2 ++ G /\
    L <> [] /\ forallb (fun c => negb (N.eqb c 44)) L = true /\
    w1 <> [] /\ forallb is_space w1 = true /\
    In (toUpperCase C) wrongOrderTokens /\
    w2 <> [] /\ forallb is_space w2 = true /\
    G <> [] /\ head_ws G = false /\ forallb dot G = true.

(** The credential a text opens with: the first of the credentials,
    letter case apart, that stands at its start with a white space
    behind it. *)
Definition credentialLed (x : str) : option str :=
  find (fun tok => (starts_with_i tok x && head_ws (skipn (length tok) x))%bool)
       wrongOrderTokens.

(* ================================================================== *)
(** ** Facts about strings *)
(* ================================================================== *)

Section StringFacts.

Lemma skipn_nth_error (l : str) (i : nat) (x : char) :
  nth_error l i = Some x -> skipn i l = x :: skipn (S i) l.
Proof.
  revert l; induction i as [|i IH]; intros [|y l] H; simpl in *; try discriminate.
  - now inversion H.
  - rewrite (IH l H); destruct l; reflexivity.
Qed.

Lemma skipn_nth_error_none (l : str) (i : nat) :
  nth_error l i = None -> skipn i l = [].
Proof.
  intros H. apply nth_error_None in H. now apply skipn_all2.
Qed.

Lemma skipn_skipn_add (l : str) (i j : nat) :
  skipn j (skipn i l) = skipn (i + j) l.
Proof.
  rewrite skipn_skipn. f_equal. lia.
Qed.

Lemma starts_with_iff (p s : str) :
  starts_with p s = true <-> exists post, s = p ++ post.
Proof.
  revert s; induction p as [|a p IH]; intros s; simpl.
  - split; [intros _; now exists s | reflexivity].
  - destruct s as [|b s].
    + split; [discriminate | intros [post H]; discriminate].
    + rewrite andb_true_iff, N.eqb_eq, IH. split.
      * intros [-> [post ->]]. now exists post.
      * intros [post H]. inversion H; subst. split; [reflexivity | now exists post].
Qed.

Lemma starts_with_firstn (p s : str) :
  starts_with p s = true -> firstn (length p) s = p.
Proof.
  intros H. apply starts_with_iff in H as [post ->].
  rewrite firstn_app, Nat.sub_diag, firstn_all. simpl. now rewrite app_nil_r.
Qed.

(** [find_from] returns the least offset at which the needle starts. *)
Lemma find_from_some (p s : str) (k j : nat) :
  find_from p s k = Some j ->
  k <= j /\ starts_with p (skipn (j - k) s) = true /\
  forall d, d < j - k -> starts_with p (skipn d s) = false.
Proof.
  revert k; induction s as [|c s IH]; intros k; simpl.
  - destruct (starts_with p []) eqn:E; [|discriminate].
    intros H; inversion H; subst. rewrite Nat.sub_diag. simpl.
    split; [|split]; auto. intros d Hd; lia.
  - destruct (starts_with p (c :: s)) eqn:E.
    + intros H; inversion H; subst. rewrite Nat.sub_diag. simpl.
      split; [|split]; auto. intros d Hd; lia.
    + intros H. apply IH in H as (Hle & Hs & Hmin).
      replace (j - k) with (S (j - S k)) by lia. simpl.
      split; [lia | split; [exact Hs |]].
      intros [|d] Hd; simpl; [exact E | apply Hmin; lia].
Qed.

Lemma find_from_none (p s : str) (k : nat) :
  find_from p s k = None -> forall d, starts_with p (skipn d s) = false.
Proof.
  revert k; induction s as [|c s IH]; intros k; simpl.
  - destruct (starts_with p []) eqn:E; [discriminate|].
    intros _ d. now rewrite skipn_nil.
  - destruct (starts_with p (c :: s)) eqn:E; [discriminate|].
    intros H [|d]; simpl; [exact E | now apply (IH (S k))].
Qed.

Lemma find_from_occurs (p s : str) (k d : nat) :
  starts_with p (skipn d s) = true ->
  exists j, find_from p s k = Some j /\ j - k <= d.
Proof.
  intros H. destruct (find_from p s k) as [j|] eqn:E.
  - exists j. split; [reflexivity|].
    apply find_from_some in E as (Hle & _ & Hmin).
    destruct (Nat.le_gt_cases (j - k) d) as [|Hlt]; [assumption|].
    rewrite (Hmin d Hlt) in H. discriminate.
  - rewrite (find_from_none _ _ _ E d) in H. discriminate.
Qed.

Lemma dropWhile_all (p : char -> bool) (s : str) :
  forallb p s = true -> dropWhile p s = [].
Proof.
  induction s as [|c s IH]; simpl; [reflexivity|].
  destruct (p c); simpl; [exact IH | discriminate].
Qed.

Lemma dropWhile_head (p : char -> bool) (c : char) (s : str) :
  p c = false -> dropWhile p (c :: s) = c :: s.
Proof. intros H; simpl; now rewrite H. Qed.

Lemma trim_all_space (s : str) : forallb is_space s = true -> trim s = [].
Proof.
  intros H. unfold trim. now rewrite (dropWhile_all _ _ H).
Qed.

(** A string that neither starts nor ends with white space is its own
    trimming. *)
Lemma trim_fixed (c d : char) (s : str) :
  is_space c = false -> is_space d = false ->
  hd_error s = Some c -> hd_error (rev s) = Some d -> trim s = s.
Proof.
  intros Hc Hd Hh Hl. unfold trim.
  destruct s as [|c' s]; [discriminate|]. inversion Hh; subst c'.
  rewrite dropWhile_head by assumption.
  destruct (rev (c :: s)) as [|d' t] eqn:E; [discriminate|].
  inversion Hl; subst d'.
  rewrite dropWhile_head by assumption.
  now rewrite <- E, rev_involutive.
Qed.

Lemma dropWhile_cases (p : char -> bool) (s : str) :
  dropWhile p s = [] \/ exists c t, dropWhile p s = c :: t /\ p c = false.
Proof.
  induction s as [|c s IH]; simpl; [now left|].
  destruct (p c) eqn:E; [exact IH|]. right. now exists c, s.
Qed.

Lemma dropWhile_suffix (p : char -> bool) (s : str) :
  exists pre, s = pre ++ dropWhile p s /\ forallb p pre = true.
Proof.
  induction s as [|c s (pre & IH & Hp)]; simpl.
  - now exists [].
  - destruct (p c) eqn:E.
    + exists (c :: pre). simpl. rewrite E, Hp. split; [now f_equal | reflexivity].
    + now exists [].
Qed.

(** What [trim] returns is empty or has no white space at either end. *)
Lemma trim_shape (s : str) :
  trim s = [] \/
  exists c d, is_space c = false /\ is_space d = false /\
              hd_error (trim s) = Some c /\ hd_error (rev (trim s)) = Some d.
Proof.
  unfold trim.
  destruct (dropWhile_cases is_space s) as [E | (c & t & E & Hc)].
  - left. now rewrite E.
  - rewrite E.
    destruct (dropWhile_cases is_space (rev (c :: t))) as [E2 | (d & u & E2 & Hd)].
    + exfalso.
      destruct (dropWhile_suffix is_space (rev (c :: t))) as (pre & Hpre & Hall).
      rewrite E2, app_nil_r in Hpre. rewrite <- Hpre in Hall.
      rewrite forallb_forall in Hall.
      assert (In c (rev (c :: t))) as Hin by (apply -> in_rev; now left).
      rewrite (Hall c Hin) in Hc. discriminate.
    + right. rewrite E2, rev_involutive.
      destruct (dropWhile_suffix is_space (rev (c :: t))) as (pre & Hpre & Hall).
      rewrite E2 in Hpre.
      assert (c :: t = rev u ++ d :: rev pre) as Ht.
      { rewrite <- (rev_involutive (c :: t)), Hpre, rev_app_distr. simpl.
        now rewrite <- app_assoc. }
      exists (match rev u with [] => d | x :: _ => x end), d.
      assert (hd_error (rev (d :: u)) = Some c) as Hhd.
      { simpl. destruct (rev u) as [|x r] eqn:Eu; simpl in Ht |- *.
        - now inversion Ht.
        - now inversion Ht. }
      repeat split; try assumption.
      * simpl in Hhd.
        destruct (rev u) as [|x r]; simpl in Hhd; inversion Hhd; subst; assumption.
      * simpl in Hhd |- *.
        destruct (rev u) as [|x r]; simpl in Hhd |- *; now inversion Hhd.
Qed.

Lemma trim_idem (s : str) : trim (trim s) = trim s.
Proof.
  destruct (trim_shape s) as [E | (c & d & Hc & Hd & Hh & Hl)].
  - now rewrite E.
  - exact (trim_fixed _ _ _ Hc Hd Hh Hl).
Qed.

End StringFacts.

(* ================================================================== *)
(** ** Facts about the matcher *)
(* ================================================================== *)

Section MatcherFacts.

Variable input : str.

Lemma in_counts (g : bool) (lo : nat) (hi : option nat) (a n : nat) :
  In n (counts g lo hi a) <->
  lo <= n <= a /\ match hi with Some h => n <= h | None => True end.
Proof.
  unfold counts.
  set (top := match hi with Some h => Nat.min h a | None => a end).
  assert (forall x, x <= top <-> x <= a /\ match hi with Some h => x <= h | None => True end) as Htop.
  { intros x. unfold top. destruct hi; lia. }
  destruct (top <? lo) eqn:E.
  - apply Nat.ltb_lt in E. split; [intros []|]. intros [[H1 H2] H3].
    assert (n <= top) by (apply Htop; auto). lia.
  - apply Nat.ltb_ge in E.
    assert (In n (seq lo (S (top - lo))) <-> lo <= n <= top) as Hs
      by (rewrite in_seq; lia).
    destruct g; [rewrite <- in_rev|]; rewrite Hs; rewrite (Htop n); tauto.
Qed.

Lemma counts_exactly (g : bool) (n a : nat) :
  counts g n (Some n) a = if n <=? a then [n] else [].
Proof.
  unfold counts. destruct (n <=? a) eqn:E.
  - apply Nat.leb_le in E. rewrite Nat.min_l by assumption.
    rewrite Nat.ltb_irrefl, Nat.sub_diag. now destruct g.
  - apply Nat.leb_gt in E. rewrite Nat.min_r by lia.
    apply Nat.ltb_lt in E. now rewrite E.
Qed.

Lemma m_exactly (n : nat) (p : char -> bool) (st : mstate) :
  m (exactly n p) input st =
  if n <=? run p (skipn (fst st) input) then [(fst st + n, snd st)] else [].
Proof.
  unfold exactly. simpl. rewrite counts_exactly.
  now destruct (n <=? _).
Qed.

Lemma m_chars (s : str) (st : mstate) :
  m (chars s) input st =
  if starts_with s (skipn (fst st) input)
  then [(fst st + length s, snd st)] else [].
Proof.
  revert st; induction s as [|c s IH]; intros [i cp]; simpl.
  - now rewrite Nat.add_0_r.
  - destruct (nth_error input i) as [x|] eqn:E.
    + rewrite (skipn_nth_error _ _ _ E).
      destruct (N.eqb c x); simpl; [|reflexivity].
      rewrite app_nil_r, IH. simpl.
      destruct (starts_with s _); [|reflexivity].
      now rewrite Nat.add_succ_r.
    + now rewrite (skipn_nth_error_none _ _ E).
Qed.

Lemma in_m_seq (r1 r2 : regex) (st st2 : mstate) :
  In st2 (m (Seq r1 r2) input st) <->
  exists st1, In st1 (m r1 input st) /\ In st2 (m r2 input st1).
Proof. simpl. apply in_flat_map. Qed.

(** A capture that was written, or that the pattern always writes, is
    there after the match. *)
Lemma m_defines (k : nat) (r : regex) (st st' : mstate) :
  defines r k = true \/ lookup k (snd st) <> None ->
  In st' (m r input st) -> lookup k (snd st') <> None.
Proof.
  revert st st'; induction r; intros st st'; simpl; intros Hd.
  - intros [<- | []]. destruct Hd; [discriminate | assumption].
  - destruct (nth_error input (fst st)); [|intros []].
    destruct (p c); [|intros []]. intros [<- | []].
    destruct Hd; [discriminate | assumption].
  - rewrite in_map_iff. intros (n & <- & _).
    destruct Hd; [discriminate | assumption].
  - rewrite in_flat_map. intros (st1 & H1 & H2).
    destruct Hd as [Hd | Hd].
    + apply orb_true_iff in Hd as [Hd | Hd].
      * apply (IHr2 st1); [right | assumption].
        apply (IHr1 st); [now left | assumption].
      * apply (IHr2 st1); [now left | assumption].
    + apply (IHr2 st1); [right | assumption].
      apply (IHr1 st); [now right | assumption].
  - rewrite in_app_iff.
    assert (defines r1 k = true /\ defines r2 k = true \/ lookup k (snd st) <> None) as Hd'.
    { destruct Hd as [Hd | Hd]; [left; now apply andb_true_iff | now right]. }
    intros [H | H]; [apply (IHr1 st) | apply (IHr2 st)]; try assumption; tauto.
  - rewrite in_map_iff. intros (st1 & <- & H). simpl.
    destruct (Nat.eqb k k0) eqn:Ek; [discriminate|].
    apply (IHr st); [|assumption].
    destruct Hd as [Hd | Hd]; [left | now right].
    exact Hd.
  - destruct (Nat.eqb _ _); [|intros []]. intros [<- | []].
    destruct Hd; [discriminate | assumption].
  - destruct (Nat.eqb _ _); [|intros []]. intros [<- | []].
    destruct Hd; [discriminate | assumption].
  - destruct (xorb _ _); [|intros []]. intros [<- | []].
    destruct Hd; [discriminate | assumption].
  - destruct (m r input st) as [|st1 l] eqn:E; [intros []|]. intros [<- | []].
    simpl. apply (IHr st); [assumption|]. rewrite E. now left.
Qed.

(** The result of [exec] is the head of the list of end states. *)
Lemma exec_some (r : regex) (i : nat) (mt : rmatch) :
  exec r input i = Some mt ->
  index mt = i /\ whole mt = span input i (stop mt) /\
  In (stop mt, groups mt) (m r input (i, [])).
Proof.
  unfold exec. destruct (m r input (i, [])) as [|[j c] l]; [discriminate|].
  intros H; inversion H; subst; simpl. split; [|split]; auto.
Qed.

Lemma exec_none (r : regex) (i : nat) :
  exec r input i = None <-> m r input (i, []) = [].
Proof.
  unfold exec. destruct (m r input (i, [])); split; intros; congruence.
Qed.

(** [search_from] returns the match at the least start position that
    has one. *)
Lemma search_from_some (r : regex) (n i : nat) (mt : rmatch) :
  search_from r input n i = Some mt ->
  i <= index mt < i + n /\ exec r input (index mt) = Some mt /\
  forall j, i <= j < index mt -> exec r input j = None.
Proof.
  revert i; induction n as [|n IH]; intros i; simpl; [discriminate|].
  destruct (exec r input i) as [mt'|] eqn:E.
  - intros H; inversion H; subst mt'.
    destruct (exec_some _ _ _ E) as (Hi & _). rewrite Hi.
    split; [lia | split; [assumption|]]. intros j Hj; lia.
  - intros H. apply IH in H as (Hr & He & Hmin).
    split; [lia | split; [assumption|]].
    intros j Hj. destruct (Nat.eq_dec j i) as [-> | Hne]; [assumption|].
    apply Hmin. lia.
Qed.

Lemma search_from_none (r : regex) (n i : nat) :
  search_from r input n i = None ->
  forall j, i <= j < i + n -> exec r input j = None.
Proof.
  revert i; induction n as [|n IH]; intros i; simpl; [intros _ j Hj; lia|].
  destruct (exec r input i) eqn:E; [discriminate|].
  intros H j Hj. destruct (Nat.eq_dec j i) as [-> | Hne]; [assumption|].
  apply (IH (S i)); [assumption | lia].
Qed.

Lemma search_from_found (r : regex) (n i j : nat) :
  i <= j < i + n -> exec r input j <> None ->
  exists mt, search_from r input n i = Some mt /\ index mt <= j.
Proof.
  intros Hj He. destruct (search_from r input n i) as [mt|] eqn:E.
  - exists mt. split; [reflexivity|].
    apply search_from_some in E as (_ & _ & Hmin).
    destruct (Nat.le_gt_cases (index mt) j); [assumption|].
    exfalso. apply He, Hmin. lia.
  - exfalso. apply He. now apply (search_from_none _ _ _ E).
Qed.

(** A capture the pattern always writes can be read from any match. *)
Lemma read_defined (r : regex) (k : nat) (mt : rmatch) :
  defines r k = true -> re_match r input = Some mt ->
  exists g, read k mt = OK g.
Proof.
  intros Hd H. unfold re_match in H.
  apply search_from_some in H as (_ & He & _).
  apply exec_some in He as (_ & _ & Hin).
  apply (m_defines k) in Hin; [|now left]. simpl in Hin.
  unfold read, group. destruct (lookup k (groups mt)) as [g|]; [now exists g | congruence].
Qed.

End MatcherFacts.

(* ================================================================== *)
(** ** The parser returns *)
(* ================================================================== *)

Arguments re_match : simpl never.
Arguments test : simpl never.
Arguments replace_all : simpl never.
Arguments trim : simpl never.
Arguments indexOf : simpl never.
Arguments lastIndexOf : simpl never.
Arguments substring : simpl never.
Arguments substring_from : simpl never.
Arguments includes : simpl never.
Arguments toLowerCase : simpl never.
Arguments splitPcpAndInsurance : simpl never.
Arguments normalizeProviderName : simpl never.
Arguments phoneAfterEpic : simpl never.
Arguments middleSection : simpl never.
Arguments dispositionOf : simpl never.
Arguments linesOf : simpl never.
Arguments headerOf : simpl never.

Lemma bind_ok {A B : Type} (e : exn A) (k : A -> exn B) (b : B) :
  bind e k = OK b -> exists a, e = OK a /\ k a = OK b.
Proof.
  destruct e as [a|]; simpl; [|discriminate]. intros H. now exists a.
Qed.

Lemma mapM_total {A B : Type} (f : A -> exn B) (l : list A) :
  (forall a, In a l -> exists b, f a = OK b) -> exists bs, mapM f l = OK bs.
Proof.
  induction l as [|a l IH]; intros H; simpl.
  - now exists [].
  - destruct (H a (or_introl eq_refl)) as [b ->].
    destruct IH as [bs ->]; [intros x Hx; apply H; now right|].
    simpl. now exists (b :: bs).
Qed.

(** Each result of [mapM] comes from one element of the list, in
    order. *)
Lemma mapM_ok {A B : Type} (f : A -> exn B) (l : list A) (bs : list B) :
  mapM f l = OK bs -> Forall2 (fun a b => f a = OK b) l bs.
Proof.
  revert bs; induction l as [|a l IH]; intros bs; simpl.
  - intros H; inversion H. constructor.
  - intros H. apply bind_ok in H as (b & Hb & H).
    apply bind_ok in H as (bs' & Hbs & H). inversion H; subst.
    constructor; [assumption | now apply IH].
Qed.

Lemma Forall2_in_r {A B : Type} (R : A -> B -> Prop) (l : list A) (bs : list B) (b : B) :
  Forall2 R l bs -> In b bs -> exists a, In a l /\ R a b.
Proof.
  induction 1 as [|a' b' l' bs' HR HF IH]; intros Hin; [destruct Hin|].
  destruct Hin as [<- | Hin].
  - exists a'. split; [now left | assumption].
  - destruct (IH Hin) as (a & Ha & HRa). exists a. split; [now right | assumption].
Qed.

Lemma normalizeProviderName_total (raw : str) :
  exists o, normalizeProviderName raw = OK o.
Proof.
  unfold normalizeProviderName.
  destruct (negb (truthy raw)); [now eexists|].
  destruct (re_match wrongOrderRe (trim raw)) as [mt|] eqn:E; [|now eexists].
  destruct (read_defined _ wrongOrderRe 1 mt eq_refl E) as [g1 ->].
  destruct (read_defined _ wrongOrderRe 2 mt eq_refl E) as [g2 ->].
  destruct (read_defined _ wrongOrderRe 3 mt eq_refl E) as [g3 ->].
  simpl. now eexists.
Qed.

Lemma phoneAfterEpic_total (afterEpic : str) :
  exists p, phoneAfterEpic afterEpic = OK p.
Proof.
  unfold phoneAfterEpic.
  destruct (re_match missingRe afterEpic) as [mm|] eqn:Em.
  - destruct (re_match rawPhoneRe afterEpic) as [mr|] eqn:Er; [|now eexists].
    destruct (read_defined _ rawPhoneRe 1 mr eq_refl Er) as [d ->].
    simpl. now eexists.
  - destruct (re_match fmtPhoneRe afterEpic) as [mf|] eqn:Ef.
    + destruct (read_defined _ fmtPhoneRe 1 mf eq_refl Ef) as [p ->].
      simpl. now eexists.
    + destruct (re_match rawPhoneRe afterEpic) as [mr|] eqn:Er; [|now eexists].
      destruct (read_defined _ rawPhoneRe 1 mr eq_refl Er) as [d ->].
      simpl. now eexists.
Qed.

Lemma read_first_total (r : regex) (line : str) :
  defines r 1 = true ->
  exists g, match re_match r line with
            | Some mt => read 1 mt
            | None => ret []
            end = OK g.
Proof.
  intros Hd. destruct (re_match r line) as [mt|] eqn:E.
  - exact (read_defined _ r 1 mt Hd E).
  - now eexists.
Qed.

Lemma parseDischargeRow_total (line : str) :
  exists r, parseDischargeRow line = OK r.
Proof.
  unfold parseDischargeRow.
  destruct (read_first_total epicIdRe line eq_refl) as [eid ->].
  destruct (read_first_total dateRe line eq_refl) as [date ->].
  cbn [bind].
  match goal with
  | |- context [bind (if ?c then phoneAfterEpic ?a else ?e) _] =>
      assert (exists p, (if c then phoneAfterEpic a else e) = OK p) as [[[ph pc] pm] ->]
        by (destruct c; [apply phoneAfterEpic_total | now eexists])
  end.
  cbn [bind].
  match goal with
  | |- context [if ?c then middleSection ?a ?b ?d ?e ?f else ?g] =>
      destruct (if c then middleSection a b d e f else g) as [[att pcp] ins]
  end.
  destruct (normalizeProviderName_total att) as [att' ->]. cbn [bind].
  destruct pcp as [p|]; [destruct (truthy p)|].
  - destruct (normalizeProviderName_total p) as [p' ->]. cbn [bind ret]. now eexists.
  - cbn [bind ret]. now eexists.
  - cbn [bind ret]. now eexists.
Qed.

Lemma headerOf_total (lines : list str) : exists h, headerOf lines = OK h.
Proof.
  unfold headerOf.
  destruct (find isHeaderLine lines) as [h|]; [|now eexists].
  destruct (truthy h); [|now eexists].
  destruct (re_match headerRe h) as [mt|] eqn:E; [|now eexists].
  destruct (read_defined _ headerRe 1 mt eq_refl E) as [g1 ->].
  destruct (read_defined _ headerRe 2 mt eq_refl E) as [g2 ->].
  simpl. now eexists.
Qed.

Lemma parseDischargeText_total (text : str) :
  exists res, parseDischargeText text = OK res.
Proof.
  unfold parseDischargeText.
  destruct (headerOf_total (linesOf text)) as [h ->]. cbn [bind].
  destruct (mapM_total parseDischargeRow (filter (test epicIdPattern) (linesOf text)))
    as [rs ->]; [intros a _; apply parseDischargeRow_total|].
  cbn [bind ret]. now eexists.
Qed.

(* ================================================================== *)
(** ** Lines made of white space only *)
(* ================================================================== *)

Lemma forallb_firstn (p : char -> bool) (n : nat) (s : str) :
  forallb p s = true -> forallb p (firstn n s) = true.
Proof.
  revert n; induction s as [|c s IH]; intros [|n]; simpl; auto.
  rewrite !andb_true_iff. intros [Hc Hs]. split; [assumption | now apply IH].
Qed.

Lemma forallb_skipn (p : char -> bool) (n : nat) (s : str) :
  forallb p s = true -> forallb p (skipn n s) = true.
Proof.
  revert n; induction s as [|c s IH]; intros [|n]; simpl; auto.
  rewrite andb_true_iff. intros [Hc Hs]. now apply IH.
Qed.

Lemma forallb_span (p : char -> bool) (s : str) (i j : nat) :
  forallb p s = true -> forallb p (span s i j) = true.
Proof.
  intros H. unfold span. now apply forallb_firstn, forallb_skipn.
Qed.

(** Replacing by a text of the class [p] in a text of the class [p]
    leaves a text of the class [p]. *)
Lemma replace_loop_forallb (p : char -> bool) (fuel : nat) (r : regex)
    (rep input : str) (from copied : nat) :
  forallb p rep = true -> forallb p input = true ->
  forallb p (replace_loop fuel r rep input from copied) = true.
Proof.
  intros Hrep Hin. revert from copied; induction fuel as [|fuel IH]; intros from copied; simpl.
  - now apply forallb_skipn.
  - destruct (search_from r input _ from) as [mt|]; [|now apply forallb_skipn].
    rewrite !forallb_app, (forallb_span _ _ _ _ Hin), Hrep, IH. reflexivity.
Qed.

Lemma replace_all_forallb (p : char -> bool) (r : regex) (rep input : str) :
  forallb p rep = true -> forallb p input = true ->
  forallb p (replace_all r rep input) = true.
Proof. apply replace_loop_forallb. Qed.

Lemma cleanLine_space (l : str) : forallb is_space l = true -> cleanLine l = [].
Proof.
  intros H. unfold cleanLine. apply trim_all_space.
  apply replace_all_forallb; [reflexivity|].
  apply replace_all_forallb; [reflexivity | assumption].
Qed.

Lemma split_lines_forallb (p : char -> bool) (s : str) :
  forallb p s = true -> Forall (fun l => forallb p l = true) (split_lines s).
Proof.
  induction s as [|c s IH]; simpl.
  - intros _. now repeat constructor.
  - rewrite andb_true_iff. intros [Hc Hs]. specialize (IH Hs).
    destruct (N.eqb c 10).
    + constructor; [reflexivity | assumption].
    + destruct (split_lines s) as [|l ls].
      * repeat constructor. simpl. now rewrite Hc.
      * inversion IH; subst. constructor; [|assumption].
        simpl. now rewrite Hc.
Qed.

Lemma linesOf_space (text : str) : forallb is_space text = true -> linesOf text = [].
Proof.
  intros H. unfold linesOf.
  pose proof (split_lines_forallb _ _ H) as HF.
  induction HF as [|l ls Hl _ IH]; simpl; [reflexivity|].
  now rewrite (cleanLine_space _ Hl).
Qed.

(* ================================================================== *)
(** ** The record identifier *)
(* ================================================================== *)

Arguments chars : simpl never.
Arguments chars_i : simpl never.
Arguments lit : simpl never.

Lemma run_ge (p : char -> bool) (n : nat) (s : str) :
  n <= run p s <->
  exists d post, s = d ++ post /\ length d = n /\ forallb p d = true.
Proof.
  revert s; induction n as [|n IH]; intros s.
  - split; [|lia]. intros _. now exists [], s.
  - destruct s as [|c s]; simpl.
    + split; [lia|]. intros (d & post & H & Hl & _).
      destruct d; simpl in *; discriminate.
    + destruct (p c) eqn:E.
      * rewrite <- Nat.succ_le_mono, IH. split.
        -- intros (d & post & -> & Hl & Hp). exists (c :: d), post.
           simpl. rewrite E, Hp, Hl. auto.
        -- intros (d & post & H & Hl & Hp). destruct d as [|c' d]; [discriminate|].
           simpl in *. inversion H; subst. apply andb_true_iff in Hp as [_ Hp].
           exists d, post. auto.
      * split; [lia|]. intros (d & post & H & Hl & Hp).
        destruct d as [|c' d]; [discriminate|]. simpl in *. inversion H; subst.
        rewrite E in Hp. discriminate.
Qed.

Lemma epic_here_iff (s : str) :
  epic_here s = true <-> exists id post, s = id ++ post /\ is_epic_id id.
Proof.
  unfold epic_here, is_epic_id. rewrite andb_true_iff, starts_with_iff, Nat.leb_le.
  split.
  - intros [[rest ->] Hr]. change (skipn 2 ($"EP" ++ rest)) with rest in Hr.
    apply run_ge in Hr as (d & post & -> & Hl & Hp).
    exists ($"EP" ++ d), post. split; [now rewrite <- app_assoc|]. now exists d.
  - intros (id & post & -> & d & -> & Hl & Hp). split.
    + exists (d ++ post). now rewrite <- app_assoc.
    + change (skipn 2 (($"EP" ++ d) ++ post)) with (d ++ post).
      apply run_ge. now exists d, post.
Qed.

Lemma span_app (pre a post : str) :
  span (pre ++ a ++ post) (length pre) (length pre + length a) = a.
Proof.
  unfold span. rewrite skipn_app, skipn_all, Nat.sub_diag. simpl.
  replace (length pre + length a - length pre) with (length a) by lia.
  rewrite firstn_app, firstn_all, Nat.sub_diag. simpl. apply app_nil_r.
Qed.

Lemma split_at (l : str) (i : nat) (rest : str) :
  skipn i l = rest -> rest <> [] \/ i <= length l ->
  l = firstn i l ++ rest /\ length (firstn i l) = i.
Proof.
  intros H Hne. split; [rewrite <- H; symmetry; apply firstn_skipn|].
  apply firstn_length_le.
  destruct Hne as [Hne | Hle]; [|assumption].
  destruct (Nat.le_gt_cases i (length l)); [assumption|].
  rewrite skipn_all2 in H by lia. congruence.
Qed.

(** The text an identifier match covers is the identifier. *)
Lemma epic_here_span (l : str) (i : nat) :
  epic_here (skipn i l) = true ->
  is_epic_id (span l i (i + 11)) /\ i + 11 <= length l /\
  exists post, skipn i l = span l i (i + 11) ++ post.
Proof.
  intros H. apply epic_here_iff in H as (id & post & Hs & Hid).
  assert (length id = 11) as Hlen.
  { destruct Hid as (d & -> & Hl & _). rewrite length_app, Hl. reflexivity. }
  destruct (split_at l i (id ++ post) Hs) as [Hl Hi].
  { left. destruct Hid as (d & -> & _). discriminate. }
  assert (span l i (i + 11) = id) as Hsp.
  { remember (firstn i l) as pre eqn:Hpre. clear Hpre Hs.
    subst i l. rewrite <- Hlen. apply span_app. }
  rewrite Hsp. split; [assumption | split; [|now exists post]].
  rewrite Hl, !length_app, Hi, Hlen. lia.
Qed.

Section EpicId.

Variable input : str.

Lemma m_epicIdPattern (st : mstate) :
  m epicIdPattern input st =
  if epic_here (skipn (fst st) input) then [(fst st + 11, snd st)] else [].
Proof.
  change (m epicIdPattern input st)
    with (flat_map (fun st1 => flat_map (m Eps input) (m (exactly 9 is_digit) input st1))
            (m (chars $"EP") input st)).
  rewrite m_chars. unfold epic_here.
  destruct (starts_with $"EP" (skipn (fst st) input)); [|reflexivity].
  cbn [flat_map]. rewrite m_exactly, app_nil_r. cbn [fst snd].
  rewrite skipn_skipn_add. cbn [andb].
  change (length $"EP") with 2.
  replace (skipn 2 (skipn (fst st) input)) with (skipn (fst st + 2) input)
    by (now rewrite skipn_skipn_add).
  destruct (9 <=? _); [|reflexivity].
  cbn [flat_map m app]. do 2 f_equal. lia.
Qed.

Lemma exec_epicIdPattern_none (i : nat) :
  exec epicIdPattern input i = None <-> epic_here (skipn i input) = false.
Proof.
  rewrite exec_none, m_epicIdPattern. cbn [fst].
  destruct (epic_here _); split; congruence.
Qed.

Lemma exec_epicIdRe (i : nat) :
  exec epicIdRe input i =
  if epic_here (skipn i input)
  then Some {| index := i; stop := i + 11; whole := span input i (i + 11);
               groups := [(1, span input i (i + 11))] |}
  else None.
Proof.
  unfold exec, epicIdRe. cbn [m]. rewrite m_epicIdPattern. cbn [fst snd].
  now destruct (epic_here _).
Qed.

(** The line has an identifier exactly when the identifier test lets it
    through. *)
Lemma test_epicIdPattern :
  test epicIdPattern input = true <-> has_substring is_epic_id input.
Proof.
  unfold test, re_match, has_substring. split.
  - destruct (search_from _ _ _ _) as [mt|] eqn:E; [intros _|discriminate].
    apply search_from_some in E as (_ & He & _).
    assert (epic_here (skipn (index mt) input) = true) as Hh.
    { destruct (epic_here _) eqn:Eh; [reflexivity|].
      apply exec_epicIdPattern_none in Eh. congruence. }
    apply epic_here_iff in Hh as (id & post & Hs & Hid).
    exists (firstn (index mt) input), id, post. split; [|assumption].
    rewrite <- Hs. symmetry. apply firstn_skipn.
  - intros (pre & id & post & Hl & Hid).
    destruct (search_from_found input epicIdPattern
                (S (length input)) 0 (length pre)) as (mt & -> & _);
      [rewrite Hl, length_app; lia | | reflexivity].
    intros Hn. apply exec_epicIdPattern_none in Hn.
    rewrite Hl, skipn_app, skipn_all, Nat.sub_diag in Hn. simpl in Hn.
    assert (epic_here (id ++ post) = true) as Ht
      by (apply epic_here_iff; now exists id, post).
    congruence.
Qed.

(** What the row extractor finds on a line: the leftmost identifier. *)
Lemma re_match_epicIdRe :
  match re_match epicIdRe input with
  | Some mt =>
      epic_here (skipn (index mt) input) = true /\
      stop mt = index mt + 11 /\
      group 1 mt = Some (span input (index mt) (index mt + 11)) /\
      forall j, j < index mt -> epic_here (skipn j input) = false
  | None => test epicIdPattern input = false
  end.
Proof.
  unfold re_match. destruct (search_from epicIdRe _ _ _) as [mt|] eqn:E.
  - apply search_from_some in E as (_ & He & Hmin).
    rewrite exec_epicIdRe in He.
    destruct (epic_here (skipn (index mt) input)) eqn:Eh; [|discriminate].
    inversion He as [Hmt]. rewrite <- Hmt at 2 3. cbn [stop group groups lookup Nat.eqb].
    split; [reflexivity | split; [reflexivity | split; [reflexivity|]]].
    intros j Hj. specialize (Hmin j (conj (Nat.le_0_l j) Hj)).
    rewrite exec_epicIdRe in Hmin. now destruct (epic_here (skipn j input)).
  - unfold test, re_match.
    destruct (search_from epicIdPattern _ _ _) as [mt|] eqn:E2; [|reflexivity].
    exfalso. apply search_from_some in E2 as (Hr & He & _).
    pose proof (search_from_none _ _ _ _ E (index mt) Hr) as Hn.
    rewrite exec_epicIdRe in Hn.
    destruct (epic_here (skipn (index mt) input)) eqn:Eh; [discriminate|].
    apply exec_epicIdPattern_none in Eh. congruence.
Qed.

End EpicId.

(* ================================================================== *)
(** ** The shape of a row *)
(* ================================================================== *)

(** What [parseDischargeRow] computes, step by step, for a row it
    returns. *)
Lemma parseDischargeRow_inv (line : str) (r : ParsedDischarge) :
  parseDischargeRow line = OK r ->
  exists eid date ph pc pm att pcp ins att' pcp',
    match re_match epicIdRe line with
    | Some mt => read 1 mt
    | None => ret []
    end = OK eid /\
    match re_match dateRe line with
    | Some mt => read 1 mt
    | None => ret []
    end = OK date /\
    (if (0 <? (if truthy eid then indexOf line eid 0 + len eid else -1))%Z
     then phoneAfterEpic
            (substring_from line
               (if truthy eid then (indexOf line eid 0 + len eid)%Z else (-1)%Z))
     else ret (None, 0%Q, None)) = OK (ph, pc, pm) /\
    (if (match re_match dateRe line with Some _ => true | None => false end
         && truthy eid)%bool
     then middleSection line eid date (or_else (dispositionOf line) $"Unknown") pm
     else ([], None, [])) = (att, pcp, ins) /\
    normalizeProviderName att = OK att' /\
    match pcp with
    | Some p => if truthy p then (p' <- normalizeProviderName p ;; ret (Some p'))
                else ret pcp
    | None => ret None
    end = OK pcp' /\
    r = {| patientName :=
             or_else (if truthy eid
                      then trim (substring line 0 (indexOf line eid 0))
                      else []) $"Unknown";
           epicId := eid;
           phoneNumber := ph;
           attendingPhysician := att';
           dischargeDate := date;
           primaryCareProvider := pcp';
           insurance := or_else ins $"Unknown";
           disposition := or_else (dispositionOf line) $"Unknown";
           confidence :=
             Qmax 0
               (round2
                  (penalty (eqb ins $"Unknown") (1 # 10)
                  (penalty (falsy pcp') (1 # 10)
                  (penalty (falsy ph) (1 # 10)
                  (penalty
                     (negb (truthy (if truthy eid
                                    then trim (substring line 0 (indexOf line eid 0))
                                    else []))) (2 # 10)
                  (penalty (negb (truthy (dispositionOf line))) (1 # 10)
                  (penalty (negb (truthy date)) (2 # 10)
                  (penalty (negb (truthy eid)) (2 # 10) 1))))))));
           rawText := line |}.
Proof.
  unfold parseDischargeRow. intros H.
  apply bind_ok in H as (eid & Heid & H).
  apply bind_ok in H as (date & Hdate & H).
  apply bind_ok in H as ([[ph pc] pm] & Hphone & H).
  cbv beta iota zeta in H.
  match type of H with
  | context [if ?c then middleSection ?a ?b ?d ?e ?f else ?g] =>
      destruct (if c then middleSection a b d e f else g) as [[att pcp] ins] eqn:Emid
  end.
  apply bind_ok in H as (att' & Hatt & H).
  apply bind_ok in H as (pcp' & Hpcp & H).
  inversion H as [Hr].
  exists eid, date, ph, pc, pm, att, pcp, ins, att', pcp'.
  repeat (split; [assumption|]). reflexivity.
Qed.

Lemma row_rawText (line : str) (r : ParsedDischarge) :
  parseDischargeRow line = OK r -> rawText r = line.
Proof.
  intros H. apply parseDischargeRow_inv in H
    as (eid & date & ph & pc & pm & att & pcp & ins & att' & pcp' & _ & _ & _ & _ & _ & _ & ->).
  reflexivity.
Qed.

(** The records of a result are the rows of the lines that pass the
    identifier test, in order. *)
Lemma parseDischargeText_records (text : str) (res : ParseResult) :
  parseDischargeText text = OK res ->
  Forall2 (fun line r => parseDischargeRow line = OK r)
          (filter (test epicIdPattern) (linesOf text)) (records res).
Proof.
  unfold parseDischargeText. intros H.
  apply bind_ok in H as (h & _ & H).
  apply bind_ok in H as (rs & Hrs & H).
  inversion H; subst; simpl. now apply mapM_ok.
Qed.

Lemma Forall2_map_eq {A B C : Type} (f : B -> C) (g : A -> C) (l : list A) (bs : list B) :
  Forall2 (fun a b => f b = g a) l bs -> map f bs = map g l.
Proof.
  induction 1 as [|a b l' bs' H _ IH]; simpl; [reflexivity | now rewrite H, IH].
Qed.

Lemma records_rawText (text : str) (res : ParseResult) :
  parseDischargeText text = OK res ->
  map rawText (records res) = filter (test epicIdPattern) (linesOf text).
Proof.
  intros H. apply parseDischargeText_records in H.
  rewrite <- (map_id (filter _ _)).
  apply Forall2_map_eq.
  eapply Forall2_impl; [|exact H]. intros a b Hab. now apply row_rawText.
Qed.

(** Every record comes from a line that passed the identifier test. *)
Lemma record_line (text : str) (res : ParseResult) (r : ParsedDischarge) :
  parseDischargeText text = OK res -> In r (records res) ->
  In (rawText r) (linesOf text) /\ test epicIdPattern (rawText r) = true /\
  parseDischargeRow (rawText r) = OK r.
Proof.
  intros H Hin. apply parseDischargeText_records in H.
  destruct (Forall2_in_r _ _ _ _ H Hin) as (line & Hl & Hrow).
  rewrite (row_rawText _ _ Hrow).
  apply filter_In in Hl as [Hl Ht]. auto.
Qed.

(** The identifier of a row whose line passed the identifier test. *)
Lemma row_epicId (line : str) (r : ParsedDischarge) :
  parseDischargeRow line = OK r -> test epicIdPattern line = true ->
  exists mt, re_match epicIdRe line = Some mt /\
             epicId r = span line (index mt) (index mt + 11) /\
             epic_here (skipn (index mt) line) = true /\
             stop mt = index mt + 11 /\
             forall j, j < index mt -> epic_here (skipn j line) = false.
Proof.
  intros H Ht. apply parseDischargeRow_inv in H
    as (eid & date & ph & pc & pm & att & pcp & ins & att' & pcp' & Heid & _ & _ & _ & _ & _ & ->).
  cbn [epicId].
  pose proof (re_match_epicIdRe line) as Hm.
  destruct (re_match epicIdRe line) as [mt|]; [|congruence].
  destruct Hm as (Hh & Hs & Hg & Hmin).
  exists mt. unfold read in Heid. rewrite Hg in Heid. inversion Heid.
  auto.
Qed.

Lemma is_epic_id_truthy (s : str) : is_epic_id s -> truthy s = true.
Proof. intros (d & -> & _). reflexivity. Qed.

(** Penalties only lower the score. *)
Lemma penalty_le (b : bool) (p c : Q) : (0 <= p)%Q -> (penalty b p c <= c)%Q.
Proof.
  intros Hp. unfold penalty. destruct b; [|apply Qle_refl].
  setoid_replace c with (c - 0)%Q at 2 by ring.
  unfold Qminus. apply Qplus_le_r. apply Qopp_le_compat. assumption.
Qed.

Lemma round2_hundredths (c : Q) :
  (c <= 1)%Q ->
  exists k : Z, (0 <= k <= 100)%Z /\ (Qmax 0 (round2 c) == k # 100)%Q.
Proof.
  intros Hc. unfold round2.
  set (k := Qfloor (c * inject_Z 100 + (1 # 2))).
  assert (k <= 100)%Z as Hk.
  { unfold k. apply Z.lt_succ_r. rewrite Zlt_Qlt.
    eapply Qle_lt_trans; [apply Qfloor_le|].
    apply Qle_lt_trans with (1 * inject_Z 100 + (1 # 2))%Q.
    - apply Qplus_le_l. apply Qmult_le_compat_r; [assumption | discriminate].
    - reflexivity. }
  assert (inject_Z k / inject_Z 100 == k # 100)%Q as Hq.
  { unfold Qeq, Qdiv, Qmult, Qinv, inject_Z. simpl. lia. }
  destruct (Z.le_gt_cases 0 k) as [Hpos | Hneg].
  - exists k. split; [lia|].
    rewrite Q.max_r; [exact Hq|].
    rewrite Hq. unfold Qle. simpl. lia.
  - exists 0%Z. split; [lia|].
    rewrite Q.max_l; [reflexivity|].
    rewrite Hq. unfold Qle. simpl. lia.
Qed.

(* ================================================================== *)
(** ** The splitter *)
(* ================================================================== *)

Lemma insert_by_length_perm (x : str) (l : list str) :
  Permutation (insert_by_length x l) (x :: l).
Proof.
  induction l as [|y l IH]; simpl; [reflexivity|].
  destruct (length x <? length y); [|reflexivity].
  rewrite IH. apply perm_swap.
Qed.

Lemma sort_by_length_desc_perm (l : list str) :
  Permutation (sort_by_length_desc l) l.
Proof.
  induction l as [|x l IH]; simpl; [reflexivity|].
  unfold sort_by_length_desc in *. simpl.
  rewrite insert_by_length_perm. now constructor.
Qed.

Lemma indexOf_find (text p : str) :
  indexOf text p 0 =
  match find_from p text 0 with Some i => Z.of_nat i | None => (-1)%Z end.
Proof.
  unfold indexOf, clamp, len.
  replace (Z.to_nat (Z.max 0 (Z.min 0 (Z.of_nat (length text))))) with 0 by lia.
  reflexivity.
Qed.

Lemma indexOf_includes (text p : str) :
  (0 <=? indexOf text p 0)%Z = includes text p.
Proof.
  rewrite indexOf_find. unfold includes.
  destruct (find_from p text 0); [apply Z.leb_le; lia | reflexivity].
Qed.

(** What the splitter can return as the payer. *)
Lemma splitPcpAndInsurance_ins (text : str) :
  In (snd (splitPcpAndInsurance text)) INSURANCE_PATTERNS \/
  snd (splitPcpAndInsurance text) = $"Unknown" \/
  (snd (splitPcpAndInsurance text) = trim text /\ trim text <> [] /\
   (forall p, In p INSURANCE_PATTERNS -> includes text p = false) /\
   test credentialRe text = false).
Proof.
  unfold splitPcpAndInsurance.
  destruct (negb (truthy text)); [right; now left|].
  destruct (find _ (sort_by_length_desc INSURANCE_PATTERNS)) as [p|] eqn:E.
  - left. apply find_some in E as [Hin _]. cbn [snd].
    eapply Permutation_in; [apply sort_by_length_desc_perm | exact Hin].
  - destruct (test credentialRe text) eqn:Ec; [right; now left|].
    cbn [snd]. unfold or_else.
    destruct (trim text) as [|c t] eqn:Et; cbn [truthy]; [right; now left|].
    right; right. split; [reflexivity | split; [discriminate | split; [|reflexivity]]].
    intros p Hp. rewrite <- indexOf_includes.
    apply (find_none _ _ E).
    eapply Permutation_in; [symmetry; apply sort_by_length_desc_perm | exact Hp].
Qed.

Lemma middleSection_ins (line eid date disp : str) (pm : option rmatch) :
  snd (middleSection line eid date disp pm) =
  snd (splitPcpAndInsurance (pcpAndInsuranceOf line date disp)).
Proof.
  unfold middleSection.
  now destruct (splitPcpAndInsurance (pcpAndInsuranceOf line date disp)).
Qed.

(* ================================================================== *)
(** ** The credential test *)
(* ================================================================== *)

Lemma test_iff (r : regex) (input : str) :
  test r input = true <-> exists i, i <= length input /\ exec r input i <> None.
Proof.
  unfold test, re_match. split.
  - destruct (search_from _ _ _ _) as [mt|] eqn:E; [intros _|discriminate].
    apply search_from_some in E as (Hr & He & _).
    exists (index mt). split; [lia | congruence].
  - intros (i & Hi & He).
    destruct (search_from_found input r (S (length input)) 0 i) as (mt & -> & _);
      [lia | assumption | reflexivity].
Qed.

Lemma m_chars_i (input s : str) (st : mstate) :
  m (chars_i s) input st =
  if starts_with_i s (skipn (fst st) input)
  then [(fst st + length s, snd st)] else [].
Proof.
  revert st; induction s as [|c s IH]; intros [i cp].
  - cbn. now rewrite Nat.add_0_r.
  - change (chars_i (c :: s)) with (Seq (Cls (ci c)) (chars_i s)).
    cbn [m fst snd].
    destruct (nth_error input i) as [x|] eqn:E.
    + rewrite (skipn_nth_error _ _ _ E). cbn [starts_with_i].
      destruct (ci c x); cbn [flat_map andb]; [|reflexivity].
      rewrite app_nil_r, IH. cbn [fst snd].
      destruct (starts_with_i s _); [|reflexivity].
      cbn [length]. now rewrite Nat.add_succ_r.
    + now rewrite (skipn_nth_error_none _ _ E).
Qed.

Lemma in_singleton_if {A : Type} (b : bool) (x y : A) :
  In y (if b then [x] else []) <-> b = true /\ y = x.
Proof.
  destruct b; simpl; split.
  - intros [<- | []]. auto.
  - intros [_ ->]. now left.
  - intros [].
  - intros [H _]. discriminate.
Qed.

Lemma nonempty_in {A : Type} (l : list A) : l <> [] <-> exists x, In x l.
Proof.
  destruct l as [|a l]; split.
  - congruence.
  - intros [x []].
  - intros _. exists a. now left.
  - discriminate.
Qed.

Lemma word_at_skipn (input : str) (i : nat) :
  word_at input i =
  match skipn i input with c :: _ => is_word c | [] => false end.
Proof.
  unfold word_at. destruct (nth_error input i) as [x|] eqn:E.
  - now rewrite (skipn_nth_error _ _ _ E).
  - now rewrite (skipn_nth_error_none _ _ E).
Qed.

(** A character that matches an upper-case pattern letter, letter case
    apart, is a letter. *)
Lemma ci_upper_word (a x : char) :
  is_upper a = true -> ci a x = true -> is_word x = true.
Proof.
  unfold ci, canon, is_word, is_upper, is_lower, is_digit, between.
  intros Ha Hx.
  destruct (N.leb 97 a && N.leb a 122)%bool eqn:Ela.
  { apply andb_true_iff in Ha as [_ Ha]. apply andb_true_iff in Ela as [Ela _].
    apply N.leb_le in Ha, Ela. lia. }
  destruct (N.leb 97 x && N.leb x 122)%bool eqn:Elx; [now rewrite orb_true_r|].
  apply N.eqb_eq in Hx. subst x. now rewrite Ha.
Qed.

Lemma starts_with_i_two (a b : char) (s : str) :
  starts_with_i [a; b] s = true ->
  exists x y rest, s = x :: y :: rest /\ ci a x = true /\ ci b y = true.
Proof.
  destruct s as [|x [|y rest]]; simpl; try discriminate.
  - now rewrite andb_false_r.
  - rewrite !andb_true_iff. intros (Ha & Hb & _). now exists x, y, rest.
Qed.

Lemma credential_token_shape (tok : str) :
  In tok credentialTokens ->
  exists a b, tok = [a; b] /\ is_upper a = true /\ is_upper b = true.
Proof.
  intros H.
  repeat (destruct H as [<- | H]; [eexists _, _; split; [reflexivity | split; reflexivity]|]).
  destruct H.
Qed.

(** Where a credential token starts, the two boundaries of the pattern
    say that no word character stands before it nor after it. *)
Lemma token_boundaries (input : str) (i : nat) (tok : str) :
  In tok credentialTokens ->
  starts_with_i tok (skipn i input) = true ->
  xorb (word_before input i) (word_at input i) = negb (word_before input i) /\
  xorb (word_before input (i + 2)) (word_at input (i + 2))
    = negb (word_at input (i + length tok)) /\
  length tok = 2.
Proof.
  intros Hin Hs.
  destruct (credential_token_shape _ Hin) as (a & b & -> & Ha & Hb).
  apply starts_with_i_two in Hs as (x & y & rest & Hsk & Hx & Hy).
  assert (word_at input i = true) as Hwi.
  { rewrite word_at_skipn, Hsk. exact (ci_upper_word _ _ Ha Hx). }
  assert (word_before input (i + 2) = true) as Hwb.
  { replace (i + 2) with (S (S i)) by lia. cbn [word_before].
    rewrite word_at_skipn.
    replace (skipn (S i) input) with (skipn 1 (skipn i input))
      by (rewrite skipn_skipn_add; f_equal; lia).
    rewrite Hsk. cbn [skipn]. exact (ci_upper_word _ _ Hb Hy). }
  rewrite Hwi, Hwb. cbn [length].
  split; [now destruct (word_before input i) | split; [|reflexivity]].
  now destruct (word_at input (i + 2)).
Qed.

Lemma m_credential_alts (input : str) (st : mstate) :
  m (alts (chars_i $"MD")
       [chars_i $"DO"; chars_i $"PA"; chars_i $"NP"; chars_i $"RN"]) input st =
  flat_map (fun tok => if starts_with_i tok (skipn (fst st) input)
                       then [(fst st + length tok, snd st)] else [])
           credentialTokens.
Proof.
  cbn [alts m flat_map credentialTokens].
  rewrite !m_chars_i, app_nil_r. reflexivity.
Qed.

Lemma in_m_grp (input : str) (k : nat) (r : regex) (st st' : mstate) :
  In st' (m (Grp k r) input st) <->
  exists st1, In st1 (m r input st) /\
              st' = (fst st1, (k, span input (fst st) (fst st1)) :: snd st1).
Proof.
  cbn [m]. rewrite in_map_iff. split; intros (st1 & H1 & H2); exists st1; auto.
Qed.

Lemma in_m_wb (input : str) (st st' : mstate) :
  In st' (m Wb input st) <->
  xorb (word_before input (fst st)) (word_at input (fst st)) = true /\ st' = st.
Proof. cbn [m]. apply in_singleton_if. Qed.

Lemma in_m_bol (input : str) (st st' : mstate) :
  In st' (m Bol input st) <-> fst st = 0 /\ st' = st.
Proof. cbn [m]. rewrite in_singleton_if, Nat.eqb_eq. reflexivity. Qed.

Lemma in_m_eol (input : str) (st st' : mstate) :
  In st' (m Eol input st) <-> fst st = length input /\ st' = st.
Proof. cbn [m]. rewrite in_singleton_if, Nat.eqb_eq. reflexivity. Qed.

Lemma in_m_eps (input : str) (st st' : mstate) :
  In st' (m Eps input st) <-> st' = st.
Proof. cbn [m In]. split; [intros [H | []]; auto | auto]. Qed.

Lemma in_m_rep (input : str) (p : char -> bool) (lo : nat) (hi : option nat)
    (g : bool) (st st' : mstate) :
  In st' (m (Rep p lo hi g) input st) <->
  exists n, st' = (fst st + n, snd st) /\
            lo <= n <= run p (skipn (fst st) input) /\
            match hi with Some h => n <= h | None => True end.
Proof.
  cbn [m]. rewrite in_map_iff. split.
  - intros (n & <- & Hn). exists n. split; [reflexivity|]. now apply in_counts in Hn.
  - intros (n & -> & Hn). exists n. split; [reflexivity|]. now apply in_counts.
Qed.

Lemma exec_credentialRe (input : str) (i : nat) :
  exec credentialRe input i <> None <->
  existsb (token_at input i) credentialTokens = true.
Proof.
  rewrite exec_none, nonempty_in, existsb_exists.
  change credentialRe with
    (Seq Wb (Seq (Grp 1 (alts (chars_i $"MD")
                           [chars_i $"DO"; chars_i $"PA"; chars_i $"NP"; chars_i $"RN"]))
               (Seq Wb Eps))).
  split.
  - intros (st & Hst).
    apply in_m_seq in Hst as (st1 & H1 & Hst).
    apply in_m_seq in Hst as (st2 & H2 & Hst).
    apply in_m_seq in Hst as (st3 & H3 & _).
    apply in_m_wb in H1 as [Hb1 ->]. cbn [fst] in Hb1.
    apply in_m_grp in H2 as (st2' & H2 & ->).
    rewrite m_credential_alts in H2.
    apply in_flat_map in H2 as (tok & Htok & H2).
    apply in_singleton_if in H2 as [Hs ->].
    apply in_m_wb in H3 as [Hb3 _]. cbn [fst snd] in Hb3, Hs.
    destruct (token_boundaries input i tok Htok Hs) as (E1 & E2 & Hlen).
    exists tok. split; [assumption|]. unfold token_at.
    rewrite Hs, <- E1, Hb1, <- E2. rewrite Hlen in Hb3. rewrite Hb3. reflexivity.
  - intros (tok & Htok & Ht). unfold token_at in Ht.
    apply andb_true_iff in Ht as [Ht Hb3]. apply andb_true_iff in Ht as [Hs Hb1].
    destruct (token_boundaries input i tok Htok Hs) as (E1 & E2 & Hlen).
    exists (i + 2, [(1, span input i (i + 2))]).
    apply in_m_seq. exists (i, []). split.
    { apply in_m_wb. cbn [fst]. split; [now rewrite E1, Hb1 | reflexivity]. }
    apply in_m_seq. exists (i + 2, [(1, span input i (i + 2))]). split.
    { apply in_m_grp. exists (i + 2, []). split; [|reflexivity].
      rewrite m_credential_alts. apply in_flat_map. exists tok. split; [assumption|].
      apply in_singleton_if. cbn [fst snd]. split; [assumption | now rewrite Hlen]. }
    apply in_m_seq. exists (i + 2, [(1, span input i (i + 2))]). split.
    { apply in_m_wb. cbn [fst]. split; [now rewrite E2, Hb3 | reflexivity]. }
    now apply in_m_eps.
Qed.

Lemma test_credentialRe (text : str) : test credentialRe text = hasCredential text.
Proof.
  apply eq_true_iff_eq. rewrite test_iff. unfold hasCredential.
  rewrite existsb_exists. split.
  - intros (i & Hi & He). exists i. split; [apply in_seq; lia|].
    now apply exec_credentialRe.
  - intros (i & Hi & He). exists i. apply in_seq in Hi. split; [lia|].
    now apply exec_credentialRe.
Qed.

Lemma find_pointwise {A : Type} (f g : A -> bool) (l : list A) :
  (forall x, f x = g x) -> find f l = find g l.
Proof.
  intros H. induction l as [|a l IH]; simpl; [reflexivity|].
  now rewrite H, IH.
Qed.

Lemma clamp_of_nat (s : str) (i : nat) : clamp s (Z.of_nat i) = Nat.min i (length s).
Proof. unfold clamp, len. lia. Qed.

Lemma substring_prefix (s : str) (i : nat) :
  substring s 0 (Z.of_nat i) = firstn i s.
Proof.
  unfold substring. rewrite clamp_of_nat.
  change (clamp s 0) with (clamp s (Z.of_nat 0)). rewrite clamp_of_nat.
  cbn [Nat.min]. rewrite Nat.max_0_l, Nat.sub_0_r. cbn [skipn].
  destruct (Nat.le_gt_cases i (length s)) as [Hle | Hgt].
  - now rewrite Nat.min_l.
  - rewrite Nat.min_r by lia. rewrite firstn_all, firstn_all2 by lia. reflexivity.
Qed.

Lemma sorted_payers : sort_by_length_desc INSURANCE_PATTERNS = payersByLength.
Proof. reflexivity. Qed.

(* ================================================================== *)
(** ** Patterns of a fixed shape *)
(* ================================================================== *)

Lemma has_shape_app (s1 s2 : list (char -> bool)) (s : str) :
  has_shape (s1 ++ s2) s =
  (has_shape s1 s && has_shape s2 (skipn (length s1) s))%bool.
Proof.
  revert s; induction s1 as [|p s1 IH]; intros s; simpl.
  - reflexivity.
  - destruct s as [|c s]; [reflexivity|]. rewrite IH. now rewrite andb_assoc.
Qed.

Lemma has_shape_repeat (p : char -> bool) (n : nat) (s : str) :
  has_shape (repeat p n) s = (n <=? run p s).
Proof.
  revert s; induction n as [|n IH]; intros s; simpl; [reflexivity|].
  destruct s as [|c s]; simpl; [reflexivity|].
  destruct (p c); simpl; [apply IH | reflexivity].
Qed.

Lemma has_shape_firstn (sh : list (char -> bool)) (s : str) :
  has_shape sh s = true -> length (firstn (length sh) s) = length sh.
Proof.
  revert s; induction sh as [|p sh IH]; intros s; simpl; [reflexivity|].
  destruct s as [|c s]; [discriminate|].
  rewrite andb_true_iff. intros [_ H]. simpl. f_equal. now apply IH.
Qed.

(** A pattern of a fixed shape has one way to match, or none. *)
Lemma m_shape (input : str) (r : regex) (sh : list (char -> bool)) (st : mstate) :
  shape_of r = Some sh ->
  m r input st =
  if has_shape sh (skipn (fst st) input)
  then [(fst st + length sh, snd st)] else [].
Proof.
  revert sh st; induction r; intros sh st Hsh; simpl in Hsh; try discriminate.
  - inversion Hsh; subst. destruct st. cbn. now rewrite Nat.add_0_r.
  - inversion Hsh; subst. destruct st as [i c]. cbn [m fst snd has_shape length].
    destruct (nth_error input i) as [x|] eqn:E.
    + rewrite (skipn_nth_error _ _ _ E). rewrite andb_true_r.
      destruct (p x); [|reflexivity]. now rewrite Nat.add_1_r.
    + now rewrite (skipn_nth_error_none _ _ E).
  - destruct hi as [hi|]; [|discriminate].
    destruct (Nat.eqb lo hi) eqn:E; [|discriminate].
    apply Nat.eqb_eq in E. subst hi. inversion Hsh; subst.
    cbn [m]. rewrite counts_exactly, has_shape_repeat, repeat_length.
    now destruct (lo <=? _).
  - destruct (shape_of r1) as [s1|]; [|discriminate].
    destruct (shape_of r2) as [s2|]; [|discriminate].
    inversion Hsh; subst. cbn [m].
    rewrite (IHr1 s1 st eq_refl), has_shape_app.
    destruct (has_shape s1 (skipn (fst st) input)); [|reflexivity].
    cbn [flat_map andb]. rewrite app_nil_r, (IHr2 s2 _ eq_refl). cbn [fst snd].
    rewrite skipn_skipn_add.
    destruct (has_shape s2 _); [|reflexivity].
    rewrite length_app. do 2 f_equal. lia.
Qed.

(* ================================================================== *)
(** ** Patterns anchored at the start *)
(* ================================================================== *)

Lemma search_from_nowhere (r : regex) (input : str) (n i : nat) :
  (forall j, i <= j -> exec r input j = None) -> search_from r input n i = None.
Proof.
  revert i; induction n as [|n IH]; intros i H; simpl; [reflexivity|].
  rewrite (H i (Nat.le_refl i)). apply IH. intros j Hj. apply H. lia.
Qed.

(** A pattern that starts with [^] matches at the start or not at
    all. *)
Lemma re_match_anchored (r : regex) (input : str) :
  re_match (Seq Bol r) input = exec (Seq Bol r) input 0.
Proof.
  unfold re_match. cbn [search_from].
  destruct (exec (Seq Bol r) input 0); [reflexivity|].
  apply search_from_nowhere. intros j Hj. apply exec_none.
  destruct j as [|j]; [lia|]. reflexivity.
Qed.

Lemma run_dropWhile (p : char -> bool) (s : str) :
  skipn (run p s) s = dropWhile p s.
Proof.
  induction s as [|c s IH]; simpl; [reflexivity|].
  destruct (p c); [exact IH | reflexivity].
Qed.

Lemma run_inside (p : char -> bool) (s : str) (n : nat) :
  n < run p s -> exists c rest, skipn n s = c :: rest /\ p c = true.
Proof.
  revert n; induction s as [|c s IH]; intros n; simpl; [lia|].
  destruct (p c) eqn:E; [|lia].
  destruct n as [|n]; [intros _; now exists c, s|].
  intros H. apply IH. lia.
Qed.

Lemma flat_map_nil {A B : Type} (f : A -> list B) (l : list A) :
  (forall x, In x l -> f x = []) -> flat_map f l = [].
Proof.
  induction l as [|a l IH]; intros H; simpl; [reflexivity|].
  rewrite (H a (or_introl eq_refl)), IH; [reflexivity|].
  intros x Hx. apply H. now right.
Qed.

(** After [^\s*], what cannot start on a white space starts where the
    white space ends. *)
Lemma m_leading_space (input : str) (r : regex) :
  (forall n, n < run is_space input -> m r input (n, []) = []) ->
  m (Seq Bol (Seq (star is_space) r)) input (0, []) =
  m r input (run is_space input, []).
Proof.
  intros H. cbn [m fst snd Nat.eqb flat_map star]. rewrite app_nil_r.
  cbn [skipn]. unfold counts. cbn [Nat.ltb Nat.leb].
  rewrite Nat.sub_0_r, seq_S, rev_app_distr. cbn [rev app map flat_map Nat.add].
  rewrite flat_map_nil; [apply app_nil_r|].
  intros st Hst. apply in_map_iff in Hst as (n & <- & Hn).
  apply in_rev, in_seq in Hn. apply H. lia.
Qed.

(* ================================================================== *)
(** ** The phone number *)
(* ================================================================== *)

Lemma space_not_digit (c : char) : is_space c = true -> is_digit c = false.
Proof.
  unfold is_space, is_digit, between. intros H.
  destruct (N.leb 48 c && N.leb c 57)%bool eqn:E; [|reflexivity].
  apply andb_true_iff in E as [E1 E2]. apply N.leb_le in E1, E2.
  repeat (apply orb_true_iff in H as [H | H]);
    try (apply andb_true_iff in H as [H1 H2]; apply N.leb_le in H1, H2; lia);
    apply N.eqb_eq in H; lia.
Qed.

Lemma space_not_paren (c : char) : is_space c = true -> ci 40%N c = false.
Proof.
  unfold is_space, ci, canon, is_lower, between. intros H.
  destruct (N.leb 97 c && N.leb c 122)%bool eqn:E.
  - apply andb_true_iff in E as [E1 E2]. apply N.leb_le in E1, E2.
    cbn. apply N.eqb_neq. lia.
  - cbn. apply N.eqb_neq. intros ->. discriminate H.
Qed.

Lemma ci_paren (c : char) : ci 40%N c = true -> c = 40%N.
Proof.
  unfold ci, canon, is_lower, between.
  destruct (N.leb 97 c && N.leb c 122)%bool eqn:E; cbn; intros H; apply N.eqb_eq in H.
  - apply andb_true_iff in E as [E1 E2]. apply N.leb_le in E1, E2. lia.
  - assumption.
Qed.

Lemma re_match_fmtPhoneRe (input : str) :
  re_match fmtPhoneRe input =
  let k := run is_space input in
  if has_shape phoneShape (dropWhile is_space input)
  then Some {| index := 0; stop := k + 12; whole := span input 0 (k + 12);
               groups := [(1, firstn 12 (dropWhile is_space input))] |}
  else None.
Proof.
  change fmtPhoneRe with
    (Seq Bol (Seq (star is_space) (Seq (Grp 1 fmtPhoneBody) Eps))).
  rewrite re_match_anchored. unfold exec.
  assert (forall n, m (Seq (Grp 1 fmtPhoneBody) Eps) input (n, []) =
                    if has_shape phoneShape (skipn n input)
                    then [(n + 12, [(1, span input n (n + 12))])] else []) as Hm.
  { intros n. cbn [m]. rewrite (m_shape input fmtPhoneBody phoneShape (n, []) eq_refl).
    cbn [fst snd]. now destruct (has_shape phoneShape (skipn n input)). }
  rewrite m_leading_space.
  - rewrite Hm, run_dropWhile. cbn zeta.
    destruct (has_shape phoneShape (dropWhile is_space input)); [|reflexivity].
    cbn [fst snd]. do 2 f_equal. unfold span.
    rewrite run_dropWhile. do 3 f_equal. lia.
  - intros n Hn. rewrite Hm.
    destruct (run_inside _ _ _ Hn) as (c & rest & -> & Hc).
    cbn [has_shape phoneShape repeat app]. now rewrite (space_not_digit _ Hc).
Qed.

Lemma m_seq_eq (input : str) (r1 r2 : regex) (st : mstate) :
  m (Seq r1 r2) input st = flat_map (m r2 input) (m r1 input st).
Proof. reflexivity. Qed.

Lemma m_grp_eq (input : str) (k : nat) (r : regex) (st : mstate) :
  m (Grp k r) input st =
  map (fun st' => (fst st', (k, span input (fst st) (fst st')) :: snd st'))
      (m r input st).
Proof. reflexivity. Qed.

Lemma m_ahead_space_upper (input : str) (st : mstate) :
  m (Ahead (Alt (Cls is_space) (Cls is_upper))) input st =
  if has_shape [fun c => (is_space c || is_upper c)%bool] (skipn (fst st) input)
  then [st] else [].
Proof.
  destruct st as [i c]. cbn [m fst snd has_shape].
  destruct (nth_error input i) as [x|] eqn:E.
  - rewrite (skipn_nth_error _ _ _ E), andb_true_r.
    destruct (is_space x); [reflexivity|]. cbn [app orb].
    now destruct (is_upper x).
  - now rewrite (skipn_nth_error_none _ _ E).
Qed.

Lemma re_match_rawPhoneRe (input : str) :
  re_match rawPhoneRe input =
  let k := run is_space input in
  if has_shape rawPhoneShape (dropWhile is_space input)
  then Some {| index := 0; stop := k + 10; whole := span input 0 (k + 10);
               groups := [(1, firstn 10 (dropWhile is_space input))] |}
  else None.
Proof.
  change rawPhoneRe with
    (Seq Bol (Seq (star is_space)
       (Seq (Grp 1 (exactly 10 is_digit))
          (Seq (Ahead (Alt (Cls is_space) (Cls is_upper))) Eps)))).
  rewrite re_match_anchored. unfold exec.
  assert (forall n,
            m (Seq (Grp 1 (exactly 10 is_digit))
                 (Seq (Ahead (Alt (Cls is_space) (Cls is_upper))) Eps)) input (n, []) =
            if has_shape rawPhoneShape (skipn n input)
            then [(n + 10, [(1, span input n (n + 10))])] else []) as Hm.
  { intros n. unfold rawPhoneShape. rewrite has_shape_app, repeat_length.
    rewrite m_seq_eq, m_grp_eq.
    rewrite (m_shape input (exactly 10 is_digit) (repeat is_digit 10) (n, []) eq_refl).
    cbn [fst snd]. rewrite repeat_length.
    destruct (has_shape (repeat is_digit 10) (skipn n input)); [|reflexivity].
    cbn [map flat_map andb fst snd]. rewrite app_nil_r, m_seq_eq, m_ahead_space_upper.
    cbn [fst]. rewrite skipn_skipn_add.
    destruct (has_shape _ (skipn (n + 10) input)); reflexivity. }
  rewrite m_leading_space.
  - rewrite Hm, run_dropWhile. cbn zeta.
    destruct (has_shape rawPhoneShape (dropWhile is_space input)); [|reflexivity].
    cbn [fst snd]. do 2 f_equal. unfold span.
    rewrite run_dropWhile. do 3 f_equal. lia.
  - intros n Hn. rewrite Hm.
    destruct (run_inside _ _ _ Hn) as (c & rest & -> & Hc).
    cbn [has_shape rawPhoneShape repeat app]. now rewrite (space_not_digit _ Hc).
Qed.

(** Where the absence marker matches, the text starts, white space
    apart, with a parenthesis. *)
Lemma re_match_missingRe (input : str) :
  re_match missingRe input <> None ->
  exists rest, dropWhile is_space input = 40%N :: rest.
Proof.
  change missingRe with
    (Seq Bol (Seq (star is_space) (Seq (chars_i $"(missing)") (Seq (star is_space) Eps)))).
  rewrite re_match_anchored. intros H.
  assert (m (Seq Bol (Seq (star is_space)
               (Seq (chars_i $"(missing)") (Seq (star is_space) Eps)))) input (0, []) <> [])
    as Hne by (intros E; apply H; now apply exec_none).
  clear H. rewrite m_leading_space in Hne.
  - apply nonempty_in in Hne as (st & Hst).
    apply in_m_seq in Hst as (st1 & H1 & _).
    rewrite m_chars_i in H1. cbn [fst] in H1. rewrite run_dropWhile in H1.
    destruct (dropWhile is_space input) as [|c rest]; [destruct H1|].
    destruct (starts_with_i $"(missing)" (c :: rest)) eqn:E; [|destruct H1].
    change ($"(missing)") with (40%N :: $"missing)") in E. cbn [starts_with_i] in E.
    apply andb_true_iff in E as [E _]. apply ci_paren in E. subst c. now exists rest.
  - intros n Hn. cbn [m]. rewrite m_chars_i. cbn [fst].
    destruct (run_inside _ _ _ Hn) as (c & rest & -> & Hc).
    change ($"(missing)") with (40%N :: $"missing)"). cbn [starts_with_i].
    now rewrite (space_not_paren _ Hc).
Qed.

Lemma slices_reformat (d : str) :
  length d = 10 ->
  slice d 0 3 ++ $"-" ++ slice d 3 6 ++ $"-" ++ slice_from d 6 = reformat d.
Proof.
  intros H. unfold slice, slice_from, reformat, clamp, len. rewrite H. reflexivity.
Qed.

(** The phone number found after the identifier is the one of
    [phoneSpec]. *)
Lemma phoneAfterEpic_spec (afterEpic : str) :
  exists pc pm, phoneAfterEpic afterEpic = OK (phoneSpec afterEpic, pc, pm).
Proof.
  unfold phoneAfterEpic, phoneSpec.
  rewrite re_match_fmtPhoneRe, re_match_rawPhoneRe. cbn zeta.
  destruct (re_match missingRe afterEpic) as [mm|] eqn:Em.
  - destruct (re_match_missingRe afterEpic) as [rest ->]; [congruence|].
    cbn. now eexists _, _.
  - destruct (has_shape phoneShape (dropWhile is_space afterEpic)) eqn:Ef.
    + cbn. now eexists _, _.
    + destruct (has_shape rawPhoneShape (dropWhile is_space afterEpic)) eqn:Er.
      * unfold read, group. cbn [groups lookup Nat.eqb bind ret].
        rewrite slices_reformat; [now eexists _, _|].
        unfold rawPhoneShape in Er. rewrite has_shape_app in Er.
        apply andb_true_iff in Er as [Er _].
        apply has_shape_firstn in Er. now rewrite repeat_length in Er.
      * now eexists _, _.
Qed.

(** The identifier the row extractor read stands first at the place
    where it was matched. *)
Lemma indexOf_epic (line : str) (i : nat) :
  epic_here (skipn i line) = true ->
  (forall j, j < i -> epic_here (skipn j line) = false) ->
  indexOf line (span line i (i + 11)) 0 = Z.of_nat i.
Proof.
  intros Hh Hmin.
  destruct (epic_here_span line i Hh) as (Hid & Hlen & post & Hs).
  set (eid := span line i (i + 11)) in *.
  assert (starts_with eid (skipn i line) = true) as Hst
    by (apply starts_with_iff; now exists post).
  destruct (find_from_occurs eid line 0 i Hst) as (j & Hj & Hle).
  rewrite indexOf_find, Hj. f_equal.
  apply find_from_some in Hj as (_ & Hsj & _).
  rewrite Nat.sub_0_r in Hsj, Hle.
  destruct (Nat.eq_dec j i) as [-> | Hne]; [reflexivity|].
  exfalso. assert (j < i) as Hlt by lia.
  apply starts_with_iff in Hsj as [post' Hsj].
  assert (epic_here (skipn j line) = true) as Ht
    by (apply epic_here_iff; now exists eid, post').
  rewrite (Hmin j Hlt) in Ht. discriminate.
Qed.

Lemma is_epic_id_length (s : str) : is_epic_id s -> length s = 11.
Proof. intros (d & -> & Hl & _). rewrite length_app, Hl. reflexivity. Qed.

Lemma phoneSpec_not_empty (t : str) : phoneSpec t <> Some [].
Proof.
  unfold phoneSpec.
  destruct (has_shape phoneShape (dropWhile is_space t)) eqn:Ef.
  - apply has_shape_firstn in Ef.
    intros H.
    apply (f_equal (fun o => match o with Some p => length p | None => 0 end)) in H.
    change (length (firstn (length phoneShape) (dropWhile is_space t)) = 0) in H.
    rewrite Ef in H. discriminate.
  - destruct (has_shape rawPhoneShape _); [|discriminate].
    intros H.
    apply (f_equal (fun o => match o with Some p => length p | None => 0 end)) in H.
    change (length (reformat (firstn 10 (dropWhile is_space t))) = 0) in H.
    unfold reformat in H. rewrite !length_app in H.
    change (length $"-") with 1 in H. lia.
Qed.

(** The phone number of a row is read in the text that follows its
    identifier. *)
Lemma row_phone (line : str) (r : ParsedDischarge) :
  parseDischargeRow line = OK r -> test epicIdPattern line = true ->
  (exists pre, line = pre ++ epicId r ++ afterEpicOf line) /\
  phoneNumber r = phoneSpec (afterEpicOf line).
Proof.
  intros H Ht. apply parseDischargeRow_inv in H
    as (eid & date & ph & pc & pm & att & pcp & ins & att' & pcp' & Heid & _ & Hph & _ & _ & _ & ->).
  cbn [epicId phoneNumber]. unfold afterEpicOf.
  pose proof (re_match_epicIdRe line) as Hm.
  destruct (re_match epicIdRe line) as [mt|]; [|congruence].
  destruct Hm as (Hh & Hs & Hg & Hmin).
  unfold read in Heid. rewrite Hg in Heid. inversion Heid as [Heq]. clear Heid.
  destruct (epic_here_span line (index mt) Hh) as (Hid & Hlen & post & Hsk).
  rewrite Heq in Hid, Hsk.
  pose proof (is_epic_id_length _ Hid) as Hl11.
  assert (skipn (stop mt) line = post) as Hpost.
  { rewrite Hs, <- skipn_skipn_add, Hsk, <- Hl11.
    rewrite skipn_app, skipn_all, Nat.sub_diag. reflexivity. }
  split.
  - exists (firstn (index mt) line). rewrite Heq, Hpost, <- Hsk.
    symmetry. apply firstn_skipn.
  - pose proof (indexOf_epic line (index mt) Hh Hmin) as Hidx. rewrite Heq in Hidx.
    rewrite (is_epic_id_truthy _ Hid), Hidx in Hph.
    assert (Z.of_nat (index mt) + len eid = Z.of_nat (stop mt))%Z as Hend
      by (unfold len; rewrite Hl11, Hs; lia).
    rewrite Hend in Hph.
    assert ((0 <? Z.of_nat (stop mt))%Z = true) as Hpos by (apply Z.ltb_lt; lia).
    rewrite Hpos in Hph. unfold substring_from in Hph.
    rewrite clamp_of_nat, Nat.min_l in Hph by lia.
    destruct (phoneAfterEpic_spec (skipn (stop mt) line)) as (pc' & pm' & Hspec).
    rewrite Hspec in Hph. now inversion Hph.
Qed.

Lemma reformat_digits (d : str) :
  length d = 10 -> forallb is_digit d = true ->
  has_shape phoneShape (reformat d) = true /\ filter is_digit (reformat d) = d.
Proof.
  intros Hl Hd.
  do 10 (destruct d as [|? d]; [discriminate Hl|]).
  destruct d; [|discriminate Hl]. clear Hl.
  cbn [forallb] in Hd. repeat (apply andb_true_iff in Hd as [? Hd]).
  unfold reformat. cbn [firstn skipn app].
  change ($"-") with [45%N]. cbn [app has_shape phoneShape repeat filter].
  repeat match goal with H : is_digit _ = true |- _ => rewrite H; clear H end.
  split; reflexivity.
Qed.

(* ================================================================== *)
(** ** The name normalizer *)
(* ================================================================== *)

Lemma starts_with_i_canon (tok s : str) :
  starts_with_i tok s = true ->
  map canon (firstn (length tok) s) = map canon tok.
Proof.
  revert s; induction tok as [|a tok IH]; intros s; simpl; [reflexivity|].
  destruct s as [|b s]; [discriminate|].
  rewrite andb_true_iff. intros [Hab Hs]. simpl.
  unfold ci in Hab. apply N.eqb_eq in Hab. rewrite Hab. f_equal. now apply IH.
Qed.

Lemma m_wrongOrder_alts (input : str) (st : mstate) :
  m (alts (chars_i $"MD")
       [chars_i $"DO"; chars_i $"PA"; chars_i $"NP"; chars_i $"PA-C";
        chars_i $"RN"; chars_i $"BSN"]) input st =
  flat_map (fun tok => if starts_with_i tok (skipn (fst st) input)
                       then [(fst st + length tok, snd st)] else [])
           wrongOrderTokens.
Proof.
  cbn [alts m flat_map wrongOrderTokens].
  rewrite !m_chars_i, app_nil_r. reflexivity.
Qed.

(** The last character of an upper-cased credential token is no white
    space. *)
Lemma wrongOrderToken_last (tok : str) :
  In tok wrongOrderTokens ->
  map canon tok = tok /\
  exists d, hd_error (rev tok) = Some d /\ is_space d = false.
Proof.
  intros H.
  repeat (destruct H as [<- | H];
          [split; [reflexivity | eexists; split; reflexivity]|]).
  destruct H.
Qed.

(** The captures of a match of the wrong-order pattern: a non-empty
    start of the text, a credential token in some letter case, and the
    rest. *)
Lemma wrongOrder_groups (t : str) (mt : rmatch) :
  re_match wrongOrderRe t = Some mt ->
  exists n g2 g3 tok,
    1 <= n <= length t /\
    group 1 mt = Some (firstn n t) /\
    group 2 mt = Some g2 /\ group 3 mt = Some g3 /\
    In tok wrongOrderTokens /\ toUpperCase g2 = tok.
Proof.
  change wrongOrderRe with
    (Seq Bol
       (Seq (Grp 1 (plus (fun c => negb (ci 44%N c))))
          (Seq (chars_i $",")
             (Seq (plus is_space)
                (Seq (Grp 2 (alts (chars_i $"MD")
                               [chars_i $"DO"; chars_i $"PA"; chars_i $"NP";
                                chars_i $"PA-C"; chars_i $"RN"; chars_i $"BSN"]))
                   (Seq (plus is_space)
                      (Seq (Grp 3 (plus dot)) (Seq Eol Eps)))))))).
  rewrite re_match_anchored. intros H.
  apply exec_some in H as (_ & _ & H).
  unfold group. destruct mt as [ix sp wh gs]. cbn [stop groups] in *.
  apply in_m_seq in H as (st0 & H0 & H).
  apply in_m_bol in H0 as [_ ->].
  apply in_m_seq in H as (st1 & H1 & H).
  apply in_m_grp in H1 as (st1' & H1 & ->).
  apply in_m_rep in H1 as (n & -> & [Hn1 Hn2] & _). cbn [fst snd Nat.add] in *.
  apply in_m_seq in H as (st2 & H2 & H).
  rewrite m_chars_i in H2. apply in_singleton_if in H2 as [_ ->]. cbn [fst snd] in H.
  apply in_m_seq in H as (st3 & H3 & H).
  apply in_m_rep in H3 as (n3 & -> & _ & _). cbn [fst snd] in H.
  apply in_m_seq in H as (st4 & H4 & H).
  apply in_m_grp in H4 as (st4' & H4 & ->).
  rewrite m_wrongOrder_alts in H4.
  apply in_flat_map in H4 as (tok & Htok & H4).
  apply in_singleton_if in H4 as [Hs ->]. cbn [fst snd] in *.
  apply in_m_seq in H as (st5 & H5 & H).
  apply in_m_rep in H5 as (n5 & -> & _ & _). cbn [fst snd] in H.
  apply in_m_seq in H as (st6 & H6 & H).
  apply in_m_grp in H6 as (st6' & H6 & ->).
  apply in_m_rep in H6 as (n6 & -> & _ & _). cbn [fst snd] in H.
  apply in_m_seq in H as (st7 & H7 & H).
  apply in_m_eol in H7 as [_ ->].
  apply in_m_eps in H. inversion H as [[Hsp Hgs]].
  cbn [lookup Nat.eqb].
  set (j3 := n + length $"," + n3) in *.
  exists n, (span t j3 (j3 + length tok)), (span t (j3 + length tok + n5) (j3 + length tok + n5 + n6)), tok.
  split.
  { split; [assumption|].
    assert (run (fun c => negb (ci 44%N c)) t <= length t) as Hr.
    { clear. induction t as [|c t IH]; simpl; [lia|].
      destruct (negb (ci 44%N c)); lia. }
    cbn [skipn] in Hn2. lia. }
  split; [unfold span; now rewrite Nat.sub_0_r|].
  split; [reflexivity | split; [reflexivity | split; [assumption|]]].
  unfold toUpperCase, span.
  replace (j3 + length tok - j3) with (length tok) by lia.
  rewrite (starts_with_i_canon _ _ Hs).
  now destruct (wrongOrderToken_last _ Htok) as [-> _].
Qed.

Lemma OK_inj {A : Type} (a b : A) : OK a = OK b -> a = b.
Proof. intros H. now inversion H. Qed.

Lemma hd_error_app {A : Type} (l1 l2 : list A) (x : A) :
  hd_error l1 = Some x -> hd_error (l1 ++ l2) = Some x.
Proof. destruct l1; simpl; [discriminate | auto]. Qed.

(** What the normalizer returns is its own trimming. *)
Lemma normalizeProviderName_trimmed (s o : str) :
  normalizeProviderName s = OK o -> trim o = o.
Proof.
  unfold normalizeProviderName.
  destruct (negb (truthy s)); [intros H; inversion H; reflexivity|].
  destruct (re_match wrongOrderRe (trim s)) as [mt|] eqn:E.
  - destruct (wrongOrder_groups _ _ E)
      as (n & g2 & g3 & tok & Hn & Hg1 & Hg2 & Hg3 & Htok & Hup).
    unfold read. rewrite Hg1, Hg2, Hg3. cbn [bind ret]. intros H.
    apply OK_inj in H. subst o. rewrite Hup.
    destruct (wrongOrderToken_last _ Htok) as (_ & d & Hd & Hdsp).
    destruct (trim_shape s) as [Et | (c & _ & Hc & _ & Hh & _)];
      [rewrite Et in Hn; simpl in Hn; lia|].
    apply (trim_fixed c d); try assumption.
    + apply hd_error_app.
      destruct (trim s) as [|c' t']; [discriminate|].
      destruct n as [|n]; [lia|]. exact Hh.
    + rewrite !app_assoc, rev_app_distr. now apply hd_error_app.
  - intros H. inversion H. apply trim_idem.
Qed.

Lemma test_false (r : regex) (input : str) :
  test r input = false -> re_match r input = None.
Proof. unfold test. now destruct (re_match r input). Qed.

(** A name that is trimmed and not of the wrong-order shape is left as
    it is. *)
Lemma normalizeProviderName_fixed (o : str) :
  trim o = o -> test wrongOrderRe o = false -> normalizeProviderName o = OK o.
Proof.
  intros Ht Hn. unfold normalizeProviderName.
  destruct o as [|c o']; [reflexivity|]. cbn [truthy negb].
  now rewrite Ht, (test_false _ _ Hn).
Qed.

(* ================================================================== *)
(** ** The claims *)
(* ================================================================== *)

(** C1, as the specification states it, fails: the line ["AB123456789"]
    has two upper-case letters followed by nine digits, and
    [parseDischargeText] makes no record of it. *)
Lemma C1_counterexample :
  linesOf $"AB123456789" = [$"AB123456789"] /\
  has_substring is_two_letter_id $"AB123456789" /\
  parseDischargeText $"AB123456789" =
  OK {| hospitalName := $"Unknown Hospital"; reportDate := [];
        records := []; sourceText := $"AB123456789" |}.
Proof.
  split; [reflexivity | split; [|reflexivity]].
  exists (@nil char), ($"AB123456789"), (@nil char). split; [reflexivity|].
  exists 65%N, 66%N, ($"123456789"). repeat split.
Qed.

(** C1, amended. Anchor gate: the records of [parseDischargeText] are,
    in order, those of the cleaned lines that pass the identifier test,
    and a cleaned line has a record if and only if it has a substring
    made of the letters [EP] followed by nine digits; every other line
    gives no record. *)
Theorem C1_anchor_gate (text : str) (res : ParseResult) :
  parseDischargeText text = OK res ->
  map rawText (records res) = filter (test epicIdPattern) (linesOf text) /\
  forall l, In l (linesOf text) ->
            (has_record (records res) l <-> has_substring is_epic_id l).
Proof.
  intros H. pose proof (records_rawText _ _ H) as Hmap.
  split; [assumption|]. intros l Hl.
  rewrite <- test_epicIdPattern. unfold has_record. split.
  - intros (r & Hr & <-). now destruct (record_line _ _ _ H Hr) as (_ & Ht & _).
  - intros Ht.
    assert (In l (map rawText (records res))) as Hin
      by (rewrite Hmap; apply filter_In; auto).
    apply in_map_iff in Hin as (r & Hr & Hin). now exists r.
Qed.

Lemma C1_anchor_gate_witness :
  exists res,
    parseDischargeText $"Doe, JohnEP12345678901-01-2024Home" = OK res /\
    map rawText (records res) = [$"Doe, JohnEP12345678901-01-2024Home"].
Proof.
  destruct (parseDischargeText $"Doe, JohnEP12345678901-01-2024Home") as [res|] eqn:E;
    [|vm_compute in E; discriminate].
  exists res. split; [reflexivity|].
  exact (proj1 (C1_anchor_gate _ res E)).
Defined.

(** C2, at the line ["Doe, JohnEP123456789Home"]: the date is missing,
    the span of the primary care provider and the payer is never split,
    and the record says the payer is ["Unknown"]; its confidence is 0.6,
    that is 1 less 0.2 for the date, 0.1 for the phone and 0.1 for the
    primary care provider, with nothing taken off for the payer, where
    the schedule gives 0.5. *)
Lemma C2_unknown_payer_without_penalty :
  let rows := rowsOf $"Doe, JohnEP123456789Home" in
  map epicId rows = [$"EP123456789"] /\
  map patientName rows = [$"Doe, John"] /\
  map disposition rows = [$"Home"] /\
  map dischargeDate rows = [[]] /\
  map phoneNumber rows = [None] /\
  map primaryCareProvider rows = [None] /\
  map insurance rows = [$"Unknown"] /\
  Forall2 Qeq (map confidence rows) [(6 # 10)%Q] /\
  Forall2 Qeq (map confidenceAsStated rows) [(5 # 10)%Q].
Proof.
  vm_compute. repeat split; repeat constructor.
Qed.

(** C3. Totality: [parseDischargeText] returns a [ParseResult] for every
    string and never throws; on a text of white space only the result
    has no record, the hospital name ["Unknown Hospital"] and an empty
    report date. *)
Theorem C3_parse_total :
  (forall text, exists res, parseDischargeText text = OK res) /\
  (forall text, forallb is_space text = true ->
     parseDischargeText text =
     OK {| hospitalName := $"Unknown Hospital"; reportDate := [];
           records := []; sourceText := text |}).
Proof.
  split; [exact parseDischargeText_total|].
  intros text H. unfold parseDischargeText.
  now rewrite (linesOf_space _ H).
Qed.

Lemma C3_parse_total_witness :
  forallb is_space $"   " = true /\
  parseDischargeText $"   " =
  OK {| hospitalName := $"Unknown Hospital"; reportDate := [];
        records := []; sourceText := $"   " |}.
Proof.
  split; [reflexivity|].
  apply (proj2 C3_parse_total $"   "). reflexivity.
Defined.

(** C4. Confidence bounds: the confidence of every record of
    [parseDischargeText] is a whole number of hundredths between 0 and
    1. *)
Theorem C4_confidence_bounds (text : str) (res : ParseResult) (r : ParsedDischarge) :
  parseDischargeText text = OK res -> In r (records res) ->
  exists k : Z, (0 <= k <= 100)%Z /\ (confidence r == k # 100)%Q.
Proof.
  intros H Hin. destruct (record_line _ _ _ H Hin) as (_ & _ & Hrow).
  apply parseDischargeRow_inv in Hrow
    as (eid & date & ph & pc & pm & att & pcp & ins & att' & pcp' & _ & _ & _ & _ & _ & _ & ->).
  cbn [confidence]. apply round2_hundredths.
  repeat (eapply Qle_trans; [apply penalty_le; discriminate|]).
  apply Qle_refl.
Qed.

Lemma C4_confidence_bounds_witness :
  exists res r,
    parseDischargeText $"Test, PatientEP00000000101-01-2024SomePlace" = OK res /\
    In r (records res) /\
    exists k : Z, (0 <= k <= 100)%Z /\ (confidence r == k # 100)%Q.
Proof.
  destruct (parseDischargeText $"Test, PatientEP00000000101-01-2024SomePlace")
    as [res|] eqn:E; [|vm_compute in E; discriminate].
  destruct (records res) as [|r rs] eqn:Er;
    [vm_compute in E; inversion E; subst res; discriminate Er|].
  exists res, r.
  assert (In r (records res)) as Hin by (rewrite Er; now left).
  split; [reflexivity | split; [assumption|]].
  exact (C4_confidence_bounds _ res r E Hin).
Defined.

(** C5, at the line
    ["Doe, JohnEP1234567892025551234jones, MD Bob01-15-2024BCBSHome"]:
    ten digits and then a letter follow the identifier, which by the
    claim, and by the comment of the source on its pattern for raw
    digits, is the phone number ["202-555-1234"]. The record has no
    phone number, because the letter is a lower-case one, and the ten
    digits are taken into the name of the attending physician. With the
    upper-case letter in its place the record has the phone number. *)
Lemma C5_raw_phone_before_lower_case :
  let line := $"Doe, JohnEP1234567892025551234jones, MD Bob01-15-2024BCBSHome" in
  let upper := $"Doe, JohnEP1234567892025551234Jones, MD Bob01-15-2024BCBSHome" in
  afterEpicOf line = $"2025551234jones, MD Bob01-15-2024BCBSHome" /\
  phoneAsStated (afterEpicOf line) = Some $"202-555-1234" /\
  map phoneNumber (rowsOf line) = [None] /\
  map attendingPhysician (rowsOf line) = [$"2025551234jones, Bob MD"] /\
  phoneAsStated (afterEpicOf upper) = Some $"202-555-1234" /\
  map phoneNumber (rowsOf upper) = [Some $"202-555-1234"] /\
  map attendingPhysician (rowsOf upper) = [$"Jones, Bob MD"].
Proof. vm_compute. repeat split. Qed.

(** C6, at the line
    ["01-01-2020 Doe, John EP123456789 Sloan, Mark MD 02-02-2024 BCBS Home"]:
    the date of the record is the one in front of the identifier, not
    the first one after it, and the attending span is cut from the start
    of the line. *)
Lemma C6_date_before_identifier :
  let line :=
    $"01-01-2020 Doe, John EP123456789 Sloan, Mark MD 02-02-2024 BCBS Home" in
  map epicId (rowsOf line) = [$"EP123456789"] /\
  dateAsStated line = Some $"02-02-2024" /\
  map dischargeDate (rowsOf line) = [$"01-01-2020"] /\
  map attendingPhysician (rowsOf line) = [$"01-01-2020 Doe, John EP123456789"] /\
  map primaryCareProvider (rowsOf line) =
    [Some $"Doe, John EP123456789 Sloan, Mark MD 02-02-2024"].
Proof.
  vm_compute. repeat split.
Qed.

(** C7. Middle-segment splitter: the vocabulary is scanned in
    descending order of length; on a trimmed span, the first entry that
    occurs is the payer and the trimmed text in front of its leftmost
    occurrence, if any, the primary care provider; with no entry and a
    whole-word credential token the span is the provider and the payer
    ["Unknown"]; otherwise the span is the payer, ["Unknown"] when
    empty. *)
Theorem C7_splitter :
  (Permutation payersByLength INSURANCE_PATTERNS /\
   StronglySorted (fun a b => length b <= length a) payersByLength) /\
  forall span, trim span = span -> splitPcpAndInsurance span = splitSpec span.
Proof.
  split.
  - split.
    + rewrite <- sorted_payers. apply sort_by_length_desc_perm.
    + unfold payersByLength.
      repeat (apply SSorted_cons;
              [|repeat (apply Forall_cons; [apply Nat.leb_le; reflexivity|]);
                apply Forall_nil]).
      apply SSorted_nil.
  - intros span Htrim. unfold splitPcpAndInsurance, splitSpec.
    destruct span as [|c t]; [reflexivity|].
    cbn [truthy negb]. rewrite sorted_payers.
    rewrite (find_pointwise _ (includes (c :: t)) _ (indexOf_includes (c :: t))).
    destruct (find (includes (c :: t)) payersByLength) as [p|] eqn:E.
    + apply find_some in E as [_ Hinc].
      rewrite indexOf_find. unfold before. unfold includes in Hinc.
      destruct (find_from p (c :: t) 0) as [i|]; [|discriminate].
      now rewrite substring_prefix.
    + rewrite test_credentialRe, Htrim. reflexivity.
Qed.

Lemma C7_splitter_witness :
  trim $"Wilson, Amy MDBCBS" = $"Wilson, Amy MDBCBS" /\
  splitPcpAndInsurance $"Wilson, Amy MDBCBS" = (Some $"Wilson, Amy MD", $"BCBS").
Proof.
  split; [reflexivity|].
  rewrite (proj2 C7_splitter $"Wilson, Amy MDBCBS" eq_refl). reflexivity.
Defined.

(** C8, as the specification states it, fails at ["A, MD PA B"]: the
    first pass gives ["A, PA B MD"], which the second pass rewrites to
    ["A, B MD PA"]. *)
Lemma C8_counterexample :
  normalizeProviderName $"A, MD PA B" = OK $"A, PA B MD" /\
  normalizeProviderName $"A, PA B MD" = OK $"A, B MD PA" /\
  $"A, PA B MD" <> $"A, B MD PA".
Proof.
  split; [vm_compute; reflexivity | split; [vm_compute; reflexivity | discriminate]].
Qed.

(** C9, as the specification states it, fails: the payer of the record
    of ["Test, PatientEP00000000101-01-2024SomePlace"] is ["SomePlace"],
    which is neither in the vocabulary nor ["Unknown"]. *)
Lemma C9_counterexample :
  map insurance (rowsOf $"Test, PatientEP00000000101-01-2024SomePlace")
    = [$"SomePlace"] /\
  ~ In $"SomePlace" INSURANCE_PATTERNS /\ $"SomePlace" <> $"Unknown".
Proof.
  split; [vm_compute; reflexivity | split].
  - intros H. repeat (destruct H as [H | H]; [discriminate H|]). exact H.
  - discriminate.
Qed.

(** C9, amended. The payer of every record of [parseDischargeText] is a
    member of the payer vocabulary, or ["Unknown"], or the whole trimmed
    span between the date and the disposition, word for word, when that
    span is not empty and has neither a vocabulary entry nor a
    credential token in it. *)
Theorem C9_payer_values (text : str) (res : ParseResult) (r : ParsedDischarge) :
  parseDischargeText text = OK res -> In r (records res) ->
  In (insurance r) INSURANCE_PATTERNS \/
  insurance r = $"Unknown" \/
  (insurance r = pcpAndInsuranceOf (rawText r) (dischargeDate r) (disposition r) /\
   insurance r <> [] /\
   (forall p, In p INSURANCE_PATTERNS -> includes (insurance r) p = false) /\
   test credentialRe (insurance r) = false).
Proof.
  intros H Hin. destruct (record_line _ _ _ H Hin) as (_ & _ & Hrow).
  apply parseDischargeRow_inv in Hrow
    as (eid & date & ph & pc & pm & att & pcp & ins & att' & pcp' & _ & _ & _ & Hmid & _ & _ & Hr).
  rewrite Hr. cbn [insurance rawText dischargeDate disposition]. clear Hr.
  set (line := rawText r) in *.
  set (disp := or_else (dispositionOf line) $"Unknown") in *.
  destruct (_ && _)%bool in Hmid.
  - assert (ins = snd (splitPcpAndInsurance (pcpAndInsuranceOf line date disp))) as ->
      by (rewrite <- (middleSection_ins line eid date disp pm), Hmid; reflexivity).
    assert (trim (pcpAndInsuranceOf line date disp) = pcpAndInsuranceOf line date disp)
      as Htrim by (unfold pcpAndInsuranceOf; apply trim_idem).
    destruct (splitPcpAndInsurance_ins (pcpAndInsuranceOf line date disp))
      as [Hv | [Hu | (Hs & Hne & Hno & Hc)]].
    + left. destruct (snd _) as [|c t] eqn:E; [|exact Hv].
      exfalso. revert Hv. clear.
      intros H. repeat (destruct H as [H | H]; [discriminate H|]). exact H.
    + right; left. now rewrite Hu.
    + rewrite Htrim in Hs, Hne. rewrite Hs.
      destruct (pcpAndInsuranceOf line date disp) as [|c t] eqn:E; [congruence|].
      right; right. cbn [or_else truthy].
      split; [reflexivity | split; [discriminate | split; assumption]].
  - inversion Hmid; subst. right; left. reflexivity.
Qed.

Lemma C9_payer_values_witness :
  exists res r,
    parseDischargeText $"Test, PatientEP00000000101-01-2024SomePlace" = OK res /\
    In r (records res) /\
    (In (insurance r) INSURANCE_PATTERNS \/ insurance r = $"Unknown" \/
     insurance r = pcpAndInsuranceOf (rawText r) (dischargeDate r) (disposition r)).
Proof.
  destruct (parseDischargeText $"Test, PatientEP00000000101-01-2024SomePlace")
    as [res|] eqn:E; [|vm_compute in E; discriminate].
  destruct (records res) as [|r rs] eqn:Er;
    [vm_compute in E; inversion E; subst res; discriminate Er|].
  exists res, r.
  assert (In r (records res)) as Hin by (rewrite Er; now left).
  split; [reflexivity | split; [assumption|]].
  destruct (C9_payer_values _ res r E Hin) as [Hv | [Hu | (Hs & _)]]; auto.
Defined.

(** C10. Every record of [parseDischargeText] has an identifier made of
    the letters [EP] and nine digits, hence not empty, and its score
    never takes the penalty of a missing identifier. *)
Theorem C10_record_id (text : str) (res : ParseResult) (r : ParsedDischarge) :
  parseDischargeText text = OK res -> In r (records res) ->
  is_epic_id (epicId r) /\ epicId r <> [] /\
  penalty (negb (truthy (epicId r))) (2 # 10) 1%Q = 1%Q.
Proof.
  intros H Hin. destruct (record_line _ _ _ H Hin) as (_ & Ht & Hrow).
  destruct (row_epicId _ _ Hrow Ht) as (mt & _ & Hid & Hh & _).
  assert (is_epic_id (epicId r)) as Hepic
    by (rewrite Hid; now apply epic_here_span).
  split; [assumption|].
  pose proof (is_epic_id_truthy _ Hepic) as Htr.
  split; [intros E; rewrite E in Htr; discriminate|].
  now rewrite Htr.
Qed.

Lemma C10_record_id_witness :
  exists res r,
    parseDischargeText $"Doe, JohnEP12345678901-01-2024Home" = OK res /\
    In r (records res) /\ is_epic_id (epicId r).
Proof.
  destruct (parseDischargeText $"Doe, JohnEP12345678901-01-2024Home")
    as [res|] eqn:E; [|vm_compute in E; discriminate].
  destruct (records res) as [|r rs] eqn:Er;
    [vm_compute in E; inversion E; subst res; discriminate Er|].
  exists res, r.
  assert (In r (records res)) as Hin by (rewrite Er; now left).
  split; [reflexivity | split; [assumption|]].
  exact (proj1 (C10_record_id _ res r E Hin)).
Defined.

(** X1. Outcome closure: the disposition of every record of
    [parseDischargeText] is one of the known dispositions or
    ["Unknown"]. *)
Theorem X1_disposition_closed (text : str) (res : ParseResult) (r : ParsedDischarge) :
  parseDischargeText text = OK res -> In r (records res) ->
  In (disposition r) DISPOSITIONS \/ disposition r = $"Unknown".
Proof.
  intros H Hin. destruct (record_line _ _ _ H Hin) as (_ & _ & Hrow).
  apply parseDischargeRow_inv in Hrow
    as (eid & date & ph & pc & pm & att & pcp & ins & att' & pcp' & _ & _ & _ & _ & _ & _ & ->).
  cbn [disposition]. unfold dispositionOf.
  destruct (find _ DISPOSITIONS) as [d|] eqn:E; [|now right].
  apply find_some in E as [Hd _]. left.
  assert (truthy d = true) as Htr.
  { revert Hd. clear. intros H.
    repeat (destruct H as [<- | H]; [reflexivity|]). destruct H. }
  unfold or_else. now rewrite Htr.
Qed.

Lemma X1_disposition_closed_witness :
  exists res r,
    parseDischargeText $"Doe, JohnEP12345678901-01-2024Home" = OK res /\
    In r (records res) /\
    (In (disposition r) DISPOSITIONS \/ disposition r = $"Unknown").
Proof.
  destruct (parseDischargeText $"Doe, JohnEP12345678901-01-2024Home")
    as [res|] eqn:E; [|vm_compute in E; discriminate].
  destruct (records res) as [|r rs] eqn:Er;
    [vm_compute in E; inversion E; subst res; discriminate Er|].
  exists res, r.
  assert (In r (records res)) as Hin by (rewrite Er; now left).
  split; [reflexivity | split; [assumption|]].
  exact (X1_disposition_closed _ res r E Hin).
Defined.

(* ================================================================== *)
(** ** Further properties of the row extractor *)
(* ================================================================== *)

Lemma has_shape_forallb (p : char -> bool) (n : nat) (s : str) :
  has_shape (repeat p n) s = true -> forallb p (firstn n s) = true.
Proof.
  revert s; induction n as [|n IH]; intros s; simpl; [reflexivity|].
  destruct s as [|c s]; [discriminate|].
  rewrite andb_true_iff. intros [Hc H]. simpl. rewrite Hc. now apply IH.
Qed.

Lemma has_shape_prefix (sh : list (char -> bool)) (s : str) :
  has_shape sh s = true -> has_shape sh (firstn (length sh) s) = true.
Proof.
  revert s; induction sh as [|p sh IH]; intros s; simpl; [reflexivity|].
  destruct s as [|c s]; [discriminate|].
  rewrite !andb_true_iff. intros [Hc H]. split; [assumption | now apply IH].
Qed.

(** A phone number of [phoneSpec] is written [NNN-NNN-NNNN]. *)
Lemma phoneSpec_shape (t p : str) :
  phoneSpec t = Some p -> has_shape phoneShape p = true /\ length p = 12.
Proof.
  unfold phoneSpec.
  destruct (has_shape phoneShape (dropWhile is_space t)) eqn:Ef.
  - intros H. apply (f_equal (fun o => match o with Some x => x | None => [] end)) in H.
    change (firstn (length phoneShape) (dropWhile is_space t) = p) in H. subst p.
    split; [now apply has_shape_prefix | now apply has_shape_firstn].
  - destruct (has_shape rawPhoneShape (dropWhile is_space t)) eqn:Er; [|discriminate].
    intros H. apply (f_equal (fun o => match o with Some x => x | None => [] end)) in H.
    change (reformat (firstn 10 (dropWhile is_space t)) = p) in H. subst p.
    unfold rawPhoneShape in Er. rewrite has_shape_app in Er.
    apply andb_true_iff in Er as [Er _].
    pose proof (has_shape_firstn _ _ Er) as Hl. rewrite repeat_length in Hl.
    pose proof (has_shape_forallb _ _ _ Er) as Hd.
    split; [exact (proj1 (reformat_digits _ Hl Hd))|].
    remember (firstn 10 (dropWhile is_space t)) as d eqn:Ed. clear - Hl.
    do 10 (destruct d as [|? d]; [discriminate Hl|]).
    destruct d; [reflexivity | discriminate Hl].
Qed.

(** The leftmost identifier of a line that has one, and the three parts
    it cuts the line in. *)
Lemma line_parts (line : str) :
  test epicIdPattern line = true ->
  exists mt,
    re_match epicIdRe line = Some mt /\
    is_epic_id (span line (index mt) (index mt + 11)) /\
    line = nameSpanOf line ++ span line (index mt) (index mt + 11) ++ afterEpicOf line /\
    indexOf line (span line (index mt) (index mt + 11)) 0 = Z.of_nat (index mt) /\
    length (nameSpanOf line) = index mt /\
    forall j, j < index mt -> epic_here (skipn j line) = false.
Proof.
  intros Ht. unfold nameSpanOf, afterEpicOf.
  pose proof (re_match_epicIdRe line) as Hm.
  destruct (re_match epicIdRe line) as [mt|]; [|congruence].
  destruct Hm as (Hh & Hs & Hg & Hmin).
  destruct (epic_here_span line (index mt) Hh) as (Hid & Hlen & post & Hsk).
  pose proof (indexOf_epic line (index mt) Hh Hmin) as Hidx.
  set (eid := span line (index mt) (index mt + 11)) in *.
  exists mt. cbn beta iota. fold eid. split; [reflexivity | split; [assumption|]].
  pose proof (is_epic_id_length _ Hid) as Hl11.
  assert (skipn (stop mt) line = post) as Hpost.
  { rewrite Hs, <- skipn_skipn_add, Hsk, <- Hl11.
    rewrite skipn_app, skipn_all, Nat.sub_diag. reflexivity. }
  split; [rewrite Hpost, <- Hsk; symmetry; apply firstn_skipn|].
  split; [assumption|].
  split; [apply firstn_length_le; lia | assumption].
Qed.

Lemma row_fields (line : str) (r : ParsedDischarge) :
  parseDischargeRow line = OK r -> test epicIdPattern line = true ->
  exists mt,
    re_match epicIdRe line = Some mt /\
    epicId r = span line (index mt) (index mt + 11) /\
    patientName r = or_else (trim (nameSpanOf line)) $"Unknown" /\
    disposition r = or_else (dispositionOf line) $"Unknown" /\
    dischargeDate r = match re_match dateRe line with
                      | Some dm => match group 1 dm with Some d => d | None => [] end
                      | None => []
                      end.
Proof.
  intros H Ht.
  destruct (line_parts line Ht) as (mt & Hm & Hid & Hline & Hidx & Hlen & Hmin).
  apply parseDischargeRow_inv in H
    as (eid & date & ph & pc & pm & att & pcp & ins & att' & pcp' & Heid & Hdate & _ & _ & _ & _ & ->).
  cbn [epicId patientName disposition dischargeDate].
  rewrite Hm in Heid. unfold read in Heid.
  pose proof (re_match_epicIdRe line) as Hg. rewrite Hm in Hg.
  destruct Hg as (_ & _ & Hg & _). rewrite Hg in Heid. apply OK_inj in Heid.
  exists mt. split; [exact Hm | split; [now symmetry|]].
  split; [|split; [reflexivity|]].
  - rewrite <- Heid, (is_epic_id_truthy _ Hid), Hidx, substring_prefix.
    unfold nameSpanOf. now rewrite Hm.
  - destruct (re_match dateRe line) as [dm|]; [|now apply OK_inj in Hdate].
    unfold read in Hdate. destruct (group 1 dm); [now apply OK_inj in Hdate | discriminate].
Qed.

(** *** The date *)

Lemma exec_dateRe (input : str) (i : nat) :
  exec dateRe input i =
  if has_shape dateShape (skipn i input)
  then Some {| index := i; stop := i + 10; whole := span input i (i + 10);
               groups := [(1, span input i (i + 10))] |}
  else None.
Proof.
  change dateRe with (Grp 1 dateBody). unfold exec.
  rewrite m_grp_eq, (m_shape input dateBody dateShape (i, []) eq_refl).
  cbn [fst snd].
  now destruct (has_shape dateShape (skipn i input)).
Qed.

(** The search of the date pattern finds the first text of the shape
    of a date. *)
Lemma search_dateRe (input suffix : str) (i : nat) :
  skipn i input = suffix ->
  match search_from dateRe input (S (length suffix)) i with
  | Some dm => group 1 dm
  | None => None
  end = first_of_shape dateShape suffix.
Proof.
  revert i; induction suffix as [|c s IH]; intros i Hs.
  - cbn [length search_from]. rewrite exec_dateRe, Hs. reflexivity.
  - cbn [length]. change (search_from dateRe input (S (S (length s))) i)
      with (match exec dateRe input i with
            | Some mt => Some mt
            | None => search_from dateRe input (S (length s)) (S i)
            end).
    rewrite exec_dateRe, Hs.
    change (first_of_shape dateShape (c :: s))
      with (if has_shape dateShape (c :: s)
            then Some (firstn (length dateShape) (c :: s))
            else first_of_shape dateShape s).
    destruct (has_shape dateShape (c :: s)).
    + unfold group. cbn [groups lookup Nat.eqb]. unfold span.
      replace (i + 10 - i) with 10 by lia. now rewrite Hs.
    + apply IH. replace (S i) with (i + 1) by lia.
      rewrite <- skipn_skipn_add, Hs. reflexivity.
Qed.

Lemma re_match_dateRe (line : str) :
  match re_match dateRe line with
  | Some dm => group 1 dm
  | None => None
  end = first_of_shape dateShape line.
Proof. unfold re_match. now apply search_dateRe. Qed.

Lemma first_of_shape_some (sh : list (char -> bool)) (s d : str) :
  first_of_shape sh s = Some d ->
  has_shape sh d = true /\ length d = length sh /\
  exists pre post, s = pre ++ d ++ post.
Proof.
  induction s as [|c s IH].
  - cbn [first_of_shape]. destruct (has_shape sh []) eqn:E; [|discriminate].
    intros H. apply (f_equal (fun o => match o with Some x => x | None => [] end)) in H.
    cbv beta iota in H. subst d.
    split; [now apply has_shape_prefix | split; [now apply has_shape_firstn|]].
    exists [], (skipn (length sh) []). cbn [app]. symmetry. apply firstn_skipn.
  - change (first_of_shape sh (c :: s))
      with (if has_shape sh (c :: s)
            then Some (firstn (length sh) (c :: s))
            else first_of_shape sh s).
    destruct (has_shape sh (c :: s)) eqn:E.
    + intros H. apply (f_equal (fun o => match o with Some x => x | None => [] end)) in H.
      cbv beta iota in H. subst d.
      split; [now apply has_shape_prefix | split; [now apply has_shape_firstn|]].
      exists [], (skipn (length sh) (c :: s)). cbn [app]. symmetry. apply firstn_skipn.
    + intros H. destruct (IH H) as (H1 & H2 & pre & post & ->).
      split; [assumption | split; [assumption|]]. now exists (c :: pre), post.
Qed.

(** *** The disposition *)

Lemma starts_with_both (a b s : str) :
  starts_with a s = true -> starts_with b s = true ->
  length a <= length b -> starts_with a b = true.
Proof.
  revert b s; induction a as [|x a IH]; intros b s Ha Hb Hl; [reflexivity|].
  destruct b as [|y b]; [simpl in Hl; lia|].
  destruct s as [|z s]; [discriminate|].
  simpl in Ha, Hb, Hl |- *.
  apply andb_true_iff in Ha as [Hx Ha]. apply andb_true_iff in Hb as [Hy Hb].
  apply N.eqb_eq in Hx, Hy. subst. rewrite N.eqb_refl. simpl.
  apply (IH b s); [assumption | assumption | lia].
Qed.

(** No disposition is the end of another one. *)
Lemma dispositions_apart (d d' : str) :
  In d DISPOSITIONS -> In d' DISPOSITIONS ->
  endsWith d' d = true -> d = d'.
Proof.
  intros H H'.
  repeat (destruct H as [<- | H];
          [repeat (destruct H' as [<- | H'];
                   [first [reflexivity | (intros E; vm_compute in E; discriminate E)]|]);
           destruct H'|]).
  destruct H.
Qed.

(** The text of a record is a cleaned line: not empty, and its own
    trimming. *)
Lemma linesOf_trimmed (text l : str) :
  In l (linesOf text) -> l <> [] /\ trim l = l.
Proof.
  unfold linesOf. intros H. apply filter_In in H as [H Ht].
  apply in_map_iff in H as (raw & <- & _).
  split; [intros E; rewrite E in Ht; discriminate|].
  unfold cleanLine. apply trim_idem.
Qed.

(** A line that ends with a known disposition has that disposition,
    wherever it stands in the list. *)
Lemma dispositionOf_ends (line d : str) :
  In d DISPOSITIONS -> endsWith (trim line) d = true -> dispositionOf line = d.
Proof.
  intros Hd He. unfold dispositionOf.
  destruct (find (fun disp => endsWith (trim line) disp) DISPOSITIONS) as [d'|] eqn:E.
  - apply find_some in E as [Hd' He'].
    unfold endsWith in He, He'.
    destruct (Nat.le_gt_cases (length d) (length d')) as [Hl | Hl].
    + symmetry. apply (dispositions_apart d d' Hd Hd'). unfold endsWith.
      apply (starts_with_both _ _ _ He He'). now rewrite !length_rev.
    + apply (dispositions_apart d' d Hd' Hd). unfold endsWith.
      apply (starts_with_both _ _ _ He' He). rewrite !length_rev. lia.
  - rewrite (find_none _ _ E d Hd) in He. discriminate.
Qed.

(** *** The payer and the primary care provider *)

Lemma payers_sorted :
  StronglySorted (fun a b => length b <= length a) payersByLength.
Proof.
  unfold payersByLength.
  repeat (apply SSorted_cons;
          [|repeat (apply Forall_cons; [apply Nat.leb_le; reflexivity|]);
            apply Forall_nil]).
  apply SSorted_nil.
Qed.

(** In a sorted list, the first element with a property stands before
    every other one that has it. *)
Lemma find_sorted_first {A : Type} (R : A -> A -> Prop) (f : A -> bool)
    (l : list A) (p : A) :
  StronglySorted R l -> find f l = Some p ->
  forall q, In q l -> f q = true -> q = p \/ R p q.
Proof.
  induction 1 as [|a l Hs IH Hall]; intros Hf q Hq Hfq; [destruct Hq|].
  simpl in Hf. destruct (f a) eqn:Ea.
  - inversion Hf; subst p. destruct Hq as [<- | Hq]; [now left|].
    right. rewrite Forall_forall in Hall. now apply Hall.
  - destruct Hq as [<- | Hq]; [congruence|]. now apply IH.
Qed.

Lemma splitPcpAndInsurance_ins_truthy (text : str) :
  truthy (snd (splitPcpAndInsurance text)) = true.
Proof.
  destruct (splitPcpAndInsurance_ins text) as [Hv | [-> | (-> & Hne & _)]].
  - revert Hv. generalize (snd (splitPcpAndInsurance text)). intros s Hv.
    repeat (destruct Hv as [<- | Hv]; [reflexivity|]). destruct Hv.
  - reflexivity.
  - destruct (trim text); [congruence | reflexivity].
Qed.

(** On a trimmed span the provider of the splitter is absent or a
    trimmed text that is not empty. *)
Lemma splitPcpAndInsurance_pcp (text p : str) :
  trim text = text -> fst (splitPcpAndInsurance text) = Some p ->
  p <> [] /\ trim p = p.
Proof.
  intros Ht. unfold splitPcpAndInsurance.
  destruct text as [|c t]; [discriminate|]. cbn [truthy negb].
  destruct (find _ (sort_by_length_desc INSURANCE_PATTERNS)) as [pat|].
  - cbn [fst]. unfold or_null.
    destruct (trim (substring (c :: t) 0 (indexOf (c :: t) pat 0))) as [|x s] eqn:E;
      cbn [truthy]; [discriminate|].
    intros H. inversion H; subst p. split; [discriminate|].
    rewrite <- E. apply trim_idem.
  - destruct (test credentialRe (c :: t)); cbn [fst]; [|discriminate].
    rewrite Ht. intros H. inversion H; subst p. split; [discriminate | assumption].
Qed.

Lemma middleSection_pcp (line eid date disp : str) (pm : option rmatch) (p : str) :
  snd (fst (middleSection line eid date disp pm)) = Some p ->
  fst (splitPcpAndInsurance (pcpAndInsuranceOf line date disp)) = Some p.
Proof.
  unfold middleSection.
  destruct (splitPcpAndInsurance (pcpAndInsuranceOf line date disp)) as [pcp ins].
  cbn [fst snd]. destruct (_ && _)%bool; [discriminate | auto].
Qed.

(** The normalizer keeps a trimmed name that is not empty from becoming
    empty. *)
Lemma normalizeProviderName_nonempty (p o : str) :
  p <> [] -> trim p = p -> normalizeProviderName p = OK o -> o <> [].
Proof.
  intros Hne Ht. unfold normalizeProviderName.
  destruct p as [|c p']; [congruence|]. cbn [truthy negb]. rewrite Ht.
  destruct (re_match wrongOrderRe (c :: p')) as [mt|] eqn:E.
  - destruct (wrongOrder_groups _ _ E)
      as (n & g2 & g3 & tok & Hn & Hg1 & Hg2 & Hg3 & _).
    unfold read. rewrite Hg1, Hg2, Hg3. cbn [bind ret]. intros H.
    apply OK_inj in H. subst o.
    destruct n as [|n]; [lia|]. discriminate.
  - intros H. apply OK_inj in H. now subst o.
Qed.

(** *** The confidence *)

Lemma dispositionOf_flag (line : str) :
  negb (truthy (dispositionOf line)) = eqb (or_else (dispositionOf line) $"Unknown") $"Unknown".
Proof.
  unfold dispositionOf.
  destruct (find _ DISPOSITIONS) as [d|] eqn:E; [|reflexivity].
  apply find_some in E as [Hd _].
  repeat (destruct Hd as [<- | Hd]; [reflexivity|]). destruct Hd.
Qed.

(** A score made of the penalties is a whole number of hundredths that
    is not negative: rounding and clamping leave it as it is. *)
Lemma round2_schedule (b1 b2 b3 b4 b5 b6 b7 : bool) :
  let c := penalty b1 (1 # 10) (penalty b2 (1 # 10) (penalty b3 (1 # 10)
           (penalty b4 (2 # 10) (penalty b5 (1 # 10) (penalty b6 (2 # 10)
           (penalty b7 (2 # 10) 1%Q)))))) in
  (Qmax 0 (round2 c) == c)%Q.
Proof.
  destruct b1, b2, b3, b4, b5, b6, b7; vm_compute; reflexivity.
Qed.

(** The date of a row is empty exactly when the date pattern found
    nothing. *)
Lemma row_date_flag (line date : str) :
  match re_match dateRe line with
  | Some mt => read 1 mt
  | None => ret []
  end = OK date ->
  truthy date = match re_match dateRe line with Some _ => true | None => false end.
Proof.
  intros H. pose proof (re_match_dateRe line) as Hf.
  destruct (re_match dateRe line) as [dm|]; [|apply OK_inj in H; now subst date].
  unfold read in H. destruct (group 1 dm) as [d|]; [|discriminate].
  apply OK_inj in H. subst d. symmetry in Hf.
  destruct (first_of_shape_some _ _ _ Hf) as (_ & Hl & _).
  destruct date; [discriminate Hl | reflexivity].
Qed.

(** The payer and the score of a row that has a date. *)
Lemma row_dated (line : str) (r : ParsedDischarge) :
  parseDischargeRow line = OK r -> test epicIdPattern line = true ->
  dischargeDate r <> [] ->
  insurance r =
    snd (splitPcpAndInsurance
           (pcpAndInsuranceOf line (dischargeDate r) (disposition r))) /\
  (confidence r == scheduleOf r)%Q.
Proof.
  intros H Ht Hd.
  destruct (line_parts line Ht) as (mt & Hm & Hid & Hline & Hidx & Hlen & Hmin).
  pose proof (row_rawText _ _ H) as Hraw.
  apply parseDischargeRow_inv in H
    as (eid & date & ph & pc & pm & att & pcp & ins & att' & pcp' & Heid & Hdate & _ & Hmid & _ & _ & Hr).
  assert (eid = span line (index mt) (index mt + 11)) as Heq.
  { rewrite Hm in Heid. unfold read in Heid.
    pose proof (re_match_epicIdRe line) as Hg. rewrite Hm in Hg.
    destruct Hg as (_ & _ & Hg & _). rewrite Hg in Heid. now apply OK_inj in Heid. }
  pose proof (is_epic_id_truthy _ Hid) as Htr. rewrite <- Heq in Htr, Hidx.
  pose proof (row_date_flag _ _ Hdate) as Hflag.
  assert (truthy date = true) as Hdt.
  { rewrite Hr in Hd. cbn [dischargeDate] in Hd. destruct date; [congruence | reflexivity]. }
  rewrite <- Hflag, Hdt, Htr in Hmid. cbn [andb] in Hmid.
  assert (ins = snd (splitPcpAndInsurance
                       (pcpAndInsuranceOf line date (or_else (dispositionOf line) $"Unknown"))))
    as Hins.
  { rewrite <- (middleSection_ins line eid date _ pm), Hmid. reflexivity. }
  assert (truthy ins = true) as Hit
    by (rewrite Hins; apply splitPcpAndInsurance_ins_truthy).
  assert (or_else ins $"Unknown" = ins) as Hor by (unfold or_else; now rewrite Hit).
  unfold scheduleOf. rewrite Hr.
  cbn [insurance dischargeDate disposition confidence primaryCareProvider phoneNumber rawText].
  rewrite Hor. split; [exact Hins|].
  rewrite Htr, Hdt, Hidx, substring_prefix. cbn [negb].
  rewrite <- dispositionOf_flag.
  assert (firstn (index mt) line = nameSpanOf line) as ->
    by (unfold nameSpanOf; now rewrite Hm).
  exact (round2_schedule (eqb ins $"Unknown") (falsy pcp') (falsy ph)
           (negb (truthy (trim (nameSpanOf line))))
           (negb (truthy (dispositionOf line))) false false).
Qed.

(** The providers of a row: the attending physician is its own
    trimming, and the primary care provider, when there is one, is a
    trimmed text that is not empty. *)
Lemma row_providers (line : str) (r : ParsedDischarge) :
  parseDischargeRow line = OK r ->
  trim (attendingPhysician r) = attendingPhysician r /\
  forall p, primaryCareProvider r = Some p -> p <> [] /\ trim p = p.
Proof.
  intros H. apply parseDischargeRow_inv in H
    as (eid & date & ph & pc & pm & att & pcp & ins & att' & pcp' & _ & _ & _ & Hmid & Hatt & Hpcp & ->).
  cbn [attendingPhysician primaryCareProvider].
  split; [exact (normalizeProviderName_trimmed _ _ Hatt)|].
  intros p Hp. subst pcp'.
  destruct pcp as [p0|]; [|discriminate].
  assert (p0 <> [] /\ trim p0 = p0) as [Hne Htr].
  { destruct (_ && _)%bool in Hmid; [|discriminate].
    apply (splitPcpAndInsurance_pcp
             (pcpAndInsuranceOf line date (or_else (dispositionOf line) $"Unknown"))).
    - unfold pcpAndInsuranceOf. apply trim_idem.
    - apply (middleSection_pcp line eid date _ pm). now rewrite Hmid. }
  destruct p0 as [|c p0']; [congruence|]. cbn [truthy] in Hpcp.
  apply bind_ok in Hpcp as (p' & Hn & Hp'). apply OK_inj in Hp'.
  inversion Hp'; subst p'.
  split; [exact (normalizeProviderName_nonempty _ _ Hne Htr Hn)
         | exact (normalizeProviderName_trimmed _ _ Hn)].
Qed.

(* ================================================================== *)
(** ** The cleaning of lines *)
(* ================================================================== *)

Lemma run_le_length (p : char -> bool) (s : str) : run p s <= length s.
Proof.
  induction s as [|c s IH]; simpl; [lia|]. destruct (p c); lia.
Qed.

(** A match stays inside the input and never moves backwards. *)
Lemma m_bound (input : str) (r : regex) (st st' : mstate) :
  In st' (m r input st) -> fst st <= length input ->
  fst st <= fst st' <= length input.
Proof.
  revert st st'; induction r; intros st st'; simpl.
  - intros [<- | []]. lia.
  - destruct (nth_error input (fst st)) as [c|] eqn:E; [|intros []].
    destruct (p c); [|intros []]. intros [<- | []] _. simpl.
    assert (fst st < length input) by (apply nth_error_Some; congruence). lia.
  - rewrite in_map_iff. intros (n & <- & Hn) Hle. apply in_counts in Hn as [[_ Hn] _].
    pose proof (run_le_length p (skipn (fst st) input)) as Hr.
    rewrite length_skipn in Hr. simpl. lia.
  - rewrite in_flat_map. intros (st1 & H1 & H2) Hle.
    specialize (IHr1 _ _ H1 Hle). specialize (IHr2 _ _ H2 (proj2 IHr1)). lia.
  - rewrite in_app_iff. intros [H | H]; [now apply IHr1 | now apply IHr2].
  - rewrite in_map_iff. intros (st1 & <- & H). simpl. now apply IHr.
  - destruct (Nat.eqb _ _); [|intros []]. intros [<- | []]. lia.
  - destruct (Nat.eqb _ _); [|intros []]. intros [<- | []]. lia.
  - destruct (xorb _ _); [|intros []]. intros [<- | []]. lia.
  - destruct (m r input st); [intros []|]. intros [<- | []]. simpl. lia.
Qed.

Lemma exec_bound (input : str) (r : regex) (i : nat) (mt : rmatch) :
  exec r input i = Some mt -> i <= length input ->
  index mt = i /\ i <= stop mt <= length input.
Proof.
  intros H Hi. apply exec_some in H as (Hx & _ & Hin).
  split; [assumption|]. exact (m_bound _ _ _ _ Hin Hi).
Qed.

Lemma forallb_skipn_nth (p : char -> bool) (s : str) (i : nat) :
  (forall j c, i <= j -> nth_error s j = Some c -> p c = true) ->
  forallb p (skipn i s) = true.
Proof.
  intros H. apply forallb_forall. intros c Hc.
  apply In_nth_error in Hc as [k Hk].
  rewrite nth_error_skipn in Hk. apply (H (i + k)); [lia | assumption].
Qed.

Lemma forallb_span_nth (p : char -> bool) (s : str) (i k : nat) :
  (forall j c, i <= j < k -> nth_error s j = Some c -> p c = true) ->
  forallb p (span s i k) = true.
Proof.
  intros H. apply forallb_forall. intros c Hc. unfold span in Hc.
  apply In_nth_error in Hc as [n Hn].
  assert (n < k - i) as Hlt.
  { destruct (Nat.lt_ge_cases n (k - i)); [assumption|].
    rewrite nth_error_firstn in Hn.
    destruct (n <? k - i) eqn:E; [apply Nat.ltb_lt in E; lia | discriminate]. }
  rewrite nth_error_firstn in Hn.
  destruct (n <? k - i); [|discriminate].
  rewrite nth_error_skipn in Hn. apply (H (i + n)); [lia | assumption].
Qed.

Lemma forallb_dropWhile (p q : char -> bool) (s : str) :
  forallb p s = true -> forallb p (dropWhile q s) = true.
Proof.
  induction s as [|c s IH]; simpl; [reflexivity|].
  rewrite andb_true_iff. intros [Hc Hs].
  destruct (q c); [now apply IH|]. simpl. now rewrite Hc, Hs.
Qed.

Lemma forallb_rev (p : char -> bool) (s : str) :
  forallb p s = true -> forallb p (rev s) = true.
Proof.
  rewrite !forallb_forall. intros H c Hc. apply H. now apply in_rev.
Qed.

Lemma forallb_trim (p : char -> bool) (s : str) :
  forallb p s = true -> forallb p (trim s) = true.
Proof.
  intros H. unfold trim.
  now apply forallb_rev, forallb_dropWhile, forallb_rev, forallb_dropWhile.
Qed.

(** Where a delimiter stands, the delimiter pattern matches. *)
Lemma exec_pipeRe_at (input : str) (j : nat) :
  nth_error input j = Some 124%N -> exec pipeRe input j <> None.
Proof.
  intros Hj. rewrite exec_none. apply nonempty_in.
  change pipeRe with
    (Seq (star is_space) (Seq (chars $"|") (Seq (star is_space) Eps))).
  exists (j + 0 + length $"|" + 0, []).
  apply in_m_seq. exists (j + 0, []). split.
  { apply in_m_rep. exists 0. cbn [fst snd]. split; [reflexivity|]. split; [lia | exact I]. }
  apply in_m_seq. exists (j + 0 + length $"|", []). split.
  { rewrite m_chars. cbn [fst snd]. rewrite Nat.add_0_r, (skipn_nth_error _ _ _ Hj).
    now left. }
  apply in_m_seq. exists (j + 0 + length $"|" + 0, []). split.
  { apply in_m_rep. exists 0. cbn [fst snd]. split; [reflexivity|]. split; [lia | exact I]. }
  now apply in_m_eps.
Qed.

(** A match of the delimiter pattern is not empty. *)
Lemma exec_pipeRe_progress (input : str) (i : nat) (mt : rmatch) :
  exec pipeRe input i = Some mt -> i < stop mt.
Proof.
  intros H. apply exec_some in H as (_ & _ & H).
  change pipeRe with
    (Seq (star is_space) (Seq (chars $"|") (Seq (star is_space) Eps))) in H.
  apply in_m_seq in H as (st1 & H1 & H).
  apply in_m_rep in H1 as (n & -> & _ & _).
  apply in_m_seq in H as (st2 & H2 & H).
  rewrite m_chars in H2. apply in_singleton_if in H2 as [_ ->].
  apply in_m_seq in H as (st3 & H3 & H).
  apply in_m_rep in H3 as (n3 & -> & _ & _).
  apply in_m_eps in H. cbn [fst snd] in H. inversion H as [[Hs Hg]].
  change (length $"|") with 1. lia.
Qed.

(** Once every delimiter is replaced, none is left. *)
Lemma replace_pipe_loop (p : char -> bool) (rep input : str) (fuel from : nat) :
  (forall c, p c = false -> c = 124%N) ->
  forallb p rep = true ->
  from <= length input -> length input - from < fuel ->
  forallb p (replace_loop fuel pipeRe rep input from from) = true.
Proof.
  intros Hp Hrep. revert from; induction fuel as [|fuel IH]; intros from Hle Hf; [lia|].
  cbn [replace_loop].
  assert (forall j c, exec pipeRe input j = None ->
                      nth_error input j = Some c -> p c = true) as Hnot.
  { intros j c He Hc. destruct (p c) eqn:E; [reflexivity|].
    apply Hp in E. subst c. now destruct (exec_pipeRe_at _ _ Hc). }
  destruct (search_from pipeRe input (S (length input) - from) from) as [mt|] eqn:E.
  - apply search_from_some in E as (Hr & He & Hmin).
    pose proof (exec_pipeRe_progress _ _ _ He) as Hpr.
    destruct (exec_bound _ _ _ _ He) as [_ Hb]; [lia|].
    rewrite !forallb_app, Hrep.
    rewrite (forallb_span_nth p input from (index mt)).
    + assert (Nat.eqb (stop mt) (index mt) = false) as -> by (apply Nat.eqb_neq; lia).
      rewrite IH; [reflexivity | lia | lia].
    + intros j c Hj Hc. apply (Hnot j c); [|assumption]. apply Hmin. lia.
  - apply forallb_skipn_nth. intros j c Hj Hc.
    apply (Hnot j c); [|assumption].
    apply (search_from_none _ _ _ _ E).
    assert (j < length input) by (apply nth_error_Some; congruence). lia.
Qed.

Lemma split_lines_plain (s : str) :
  Forall (fun l => forallb (fun c => negb (N.eqb c 10)) l = true) (split_lines s).
Proof.
  induction s as [|c s IH]; simpl; [now repeat constructor|].
  destruct (N.eqb c 10) eqn:E.
  - constructor; [reflexivity | assumption].
  - destruct (split_lines s) as [|l ls]; [repeat constructor; simpl; now rewrite E|].
    inversion IH; subst. constructor; [|assumption]. simpl. now rewrite E.
Qed.

Lemma forallb_and (p q : char -> bool) (s : str) :
  forallb p s = true -> forallb q s = true ->
  forallb (fun c => (p c && q c)%bool) s = true.
Proof.
  rewrite !forallb_forall. intros Hp Hq c Hc. now rewrite (Hp c Hc), (Hq c Hc).
Qed.

(** A cleaned line holds neither a line feed nor a delimiter. *)
Lemma cleanLine_plain (l : str) :
  forallb (fun c => negb (N.eqb c 10)) l = true ->
  forallb plain (cleanLine l) = true.
Proof.
  intros Hl. unfold cleanLine, plain. apply forallb_trim, forallb_and.
  - apply replace_all_forallb; [reflexivity|].
    apply replace_all_forallb; [reflexivity | assumption].
  - apply replace_all_forallb; [reflexivity|].
    unfold replace_all. apply replace_pipe_loop; [|reflexivity|lia|lia].
    intros c Hc. apply negb_false_iff, N.eqb_eq in Hc. exact Hc.
Qed.

(** *** Runs of white space *)

Lemma single_spaced_cons (c : char) (s : str) :
  single_spaced (c :: s) = (negb (is_space c && head_ws s) && single_spaced s)%bool.
Proof. destruct s; reflexivity. Qed.

Lemma single_spaced_one (c : char) : single_spaced [c] = true.
Proof. rewrite single_spaced_cons. cbn [head_ws single_spaced]. now rewrite andb_false_r. Qed.

Lemma single_spaced_app (a b : str) :
  single_spaced a = true -> single_spaced b = true ->
  (head_ws (rev a) && head_ws b)%bool = false ->
  single_spaced (a ++ b) = true.
Proof.
  induction a as [|c a IH]; intros Ha Hb Hab; [exact Hb|].
  rewrite single_spaced_cons in Ha. apply andb_true_iff in Ha as [Hc Ha].
  cbn [app]. rewrite single_spaced_cons. apply andb_true_iff. split.
  - destruct a as [|d a']; [|exact Hc].
    cbn [app rev head_ws] in Hab |- *. now rewrite Hab.
  - apply IH; [assumption | assumption|].
    destruct a as [|d a']; [reflexivity|].
    cbn [rev] in Hab |- *.
    destruct (rev a' ++ [d]) as [|x t] eqn:E; [now destruct (rev a')|].
    exact Hab.
Qed.

Lemma single_spaced_suffix (a b : str) :
  single_spaced (a ++ b) = true -> single_spaced b = true.
Proof.
  induction a as [|c a IH]; [auto|]. cbn [app]. rewrite single_spaced_cons.
  intros H. apply andb_true_iff in H as [_ H]. now apply IH.
Qed.

Lemma single_spaced_rev (s : str) :
  single_spaced s = true -> single_spaced (rev s) = true.
Proof.
  induction s as [|c s IH]; [auto|]. rewrite single_spaced_cons.
  intros H. apply andb_true_iff in H as [Hc Hs]. cbn [rev].
  apply single_spaced_app; [now apply IH | apply single_spaced_one|].
  rewrite rev_involutive. cbn [head_ws].
  apply negb_true_iff in Hc. now rewrite andb_comm.
Qed.

Lemma single_spaced_dropWhile (p : char -> bool) (s : str) :
  single_spaced s = true -> single_spaced (dropWhile p s) = true.
Proof.
  intros H. destruct (dropWhile_suffix p s) as (pre & Hpre & _).
  rewrite Hpre in H. exact (single_spaced_suffix _ _ H).
Qed.

Lemma single_spaced_trim (s : str) :
  single_spaced s = true -> single_spaced (trim s) = true.
Proof.
  intros H. unfold trim.
  now apply single_spaced_rev, single_spaced_dropWhile, single_spaced_rev,
            single_spaced_dropWhile.
Qed.

Lemma run_two (s : str) :
  (2 <=? run is_space s) = (head_ws s && head_ws (skipn 1 s))%bool.
Proof.
  destruct s as [|c [|d s]]; simpl; try reflexivity.
  - destruct (is_space c); reflexivity.
  - destruct (is_space c); [|reflexivity]. destruct (is_space d); reflexivity.
Qed.

Lemma run_stop (p : char -> bool) (s : str) :
  match skipn (run p s) s with c :: _ => p c = false | [] => True end.
Proof.
  induction s as [|c s IH]; simpl; [exact I|].
  destruct (p c) eqn:E; [exact IH | exact E].
Qed.

Lemma exec_spacesRe (input : str) (i : nat) :
  exec spacesRe input i =
  let n := run is_space (skipn i input) in
  if 2 <=? n
  then Some {| index := i; stop := i + n; whole := span input i (i + n); groups := [] |}
  else None.
Proof.
  unfold exec, spacesRe, at_least. cbn [m fst snd]. unfold counts.
  set (n := run is_space (skipn i input)). cbn zeta.
  destruct (n <? 2) eqn:E.
  - apply Nat.ltb_lt in E. assert ((2 <=? n) = false) as -> by (apply Nat.leb_gt; lia).
    reflexivity.
  - apply Nat.ltb_ge in E. assert ((2 <=? n) = true) as -> by (apply Nat.leb_le; lia).
    rewrite seq_S, rev_app_distr. cbn [rev app map fst snd].
    replace (2 + (n - 2)) with n by lia. reflexivity.
Qed.

Lemma span_empty (input : str) (i : nat) : span input i i = [].
Proof. unfold span. now rewrite Nat.sub_diag. Qed.

Lemma span_step (input : str) (i k : nat) (c : char) :
  i <= k -> nth_error input k = Some c ->
  span input i (S k) = span input i k ++ [c].
Proof.
  intros Hik Hc. unfold span.
  replace (S k - i) with (S (k - i)) by lia.
  assert (nth_error (skipn i input) (k - i) = Some c) as Hn
    by (rewrite nth_error_skipn; replace (i + (k - i)) with k by lia; exact Hc).
  revert Hn. generalize (skipn i input) (k - i). clear.
  intros l n; revert l; induction n as [|n IH]; intros [|x l] H; simpl in *; try discriminate.
  - now inversion H.
  - now rewrite (IH l H).
Qed.

Lemma span_head (input : str) (i k : nat) :
  i < k -> head_ws (span input i k) = space_at input i.
Proof.
  intros Hik. unfold span, space_at.
  destruct (k - i) as [|n] eqn:E; [lia|].
  now destruct (skipn i input).
Qed.

(** A stretch of the input in which no two white spaces stand side by
    side. *)
Lemma span_single_spaced (input : str) (i k : nat) :
  (forall j, i <= j -> S j < k -> (space_at input j && space_at input (S j))%bool = false) ->
  k <= length input ->
  single_spaced (span input i k) = true /\
  (i < k -> head_ws (rev (span input i k)) = space_at input (k - 1)).
Proof.
  intros H Hk. induction k as [|k IH].
  - split; [|lia]. unfold span. reflexivity.
  - destruct (Nat.le_gt_cases i k) as [Hik | Hik].
    + destruct (nth_error input k) as [c|] eqn:Ec;
        [|apply nth_error_None in Ec; lia].
      rewrite (span_step _ _ _ _ Hik Ec).
      destruct IH as [IH1 IH2]; [intros j Hj Hjk; apply H; lia | lia|].
      assert (space_at input k = is_space c) as Hsk
        by (unfold space_at; now rewrite (skipn_nth_error _ _ _ Ec)).
      split.
      * apply single_spaced_app; [assumption | apply single_spaced_one|].
        cbn [head_ws].
        destruct (Nat.eq_dec i k) as [-> | Hne]; [now rewrite span_empty|].
        rewrite IH2 by lia. rewrite <- Hsk.
        replace k with (S (k - 1)) at 2 by lia. apply H; lia.
      * intros _. rewrite rev_app_distr. cbn [rev app head_ws].
        replace (S k - 1) with k by lia. now symmetry.
    + split; [|lia]. unfold span. replace (S k - i) with 0 by lia. reflexivity.
Qed.

(** Once every run of white space is replaced by one space, no two
    white spaces stand side by side. *)
Lemma replace_spaces_loop (input : str) (fuel from : nat) :
  from <= length input -> length input - from < fuel ->
  from = 0 \/ space_at input from = false ->
  let out := replace_loop fuel spacesRe $" " input from from in
  single_spaced out = true /\ (from <> 0 -> head_ws out = false).
Proof.
  revert from; induction fuel as [|fuel IH]; intros from Hle Hf Hfrom; [lia|].
  cbn [replace_loop]. cbn zeta.
  assert (forall j, exec spacesRe input j = None ->
                    (space_at input j && space_at input (S j))%bool = false) as Hnone.
  { intros j He. rewrite exec_spacesRe in He. cbn zeta in He.
    destruct (2 <=? run is_space (skipn j input)) eqn:E; [discriminate|].
    rewrite run_two in E. unfold space_at.
    replace (S j) with (j + 1) by lia. now rewrite <- skipn_skipn_add. }
  destruct (search_from spacesRe input (S (length input) - from) from) as [mt|] eqn:E.
  - apply search_from_some in E as (Hr & He & Hmin).
    destruct (exec_bound _ _ _ _ He) as [_ Hb]; [lia|].
    rewrite exec_spacesRe in He. cbn zeta in He.
    destruct (2 <=? run is_space (skipn (index mt) input)) eqn:E2; [|discriminate].
    apply Nat.leb_le in E2.
    assert (stop mt = index mt + run is_space (skipn (index mt) input)) as Hstop
      by (inversion He as [Hmt]; rewrite <- Hmt at 1; reflexivity).
    assert (space_at input (index mt) = true) as Hsi.
    { unfold space_at. destruct (skipn (index mt) input) as [|c s]; [simpl in E2; lia|].
      simpl in E2 |- *. destruct (is_space c); [reflexivity | lia]. }
    assert (space_at input (stop mt) = false) as Hss.
    { unfold space_at. rewrite Hstop, <- skipn_skipn_add.
      pose proof (run_stop is_space (skipn (index mt) input)) as Hrs.
      destruct (skipn (run is_space (skipn (index mt) input)) (skipn (index mt) input));
        [reflexivity | exact Hrs]. }
    assert (Nat.eqb (stop mt) (index mt) = false) as -> by (apply Nat.eqb_neq; lia).
    destruct (IH (stop mt)) as [IH1 IH2]; [lia | lia | now right|].
    destruct (span_single_spaced input from (index mt)) as [Hs1 Hs2];
      [intros j Hj Hjk; apply Hnone, Hmin; lia | lia|].
    assert (single_spaced ($" " ++ replace_loop fuel spacesRe $" " input (stop mt) (stop mt)) = true)
      as Htail.
    { change ($" " ++ ?x) with (32%N :: x). rewrite single_spaced_cons.
      rewrite IH1, IH2 by lia. reflexivity. }
    split.
    + apply single_spaced_app; [assumption | assumption|].
      destruct (Nat.eq_dec from (index mt)) as [Heq | Hne].
      * rewrite Heq, span_empty. reflexivity.
      * rewrite Hs2 by lia.
        assert (space_at input (index mt - 1) = false) as Hprev.
        { pose proof (Hnone (index mt - 1) (Hmin (index mt - 1) ltac:(lia))) as Hp.
          replace (S (index mt - 1)) with (index mt) in Hp by lia.
          rewrite Hsi, andb_true_r in Hp. exact Hp. }
        now rewrite Hprev.
    + intros Hne0. destruct Hfrom as [-> | Hfrom]; [congruence|].
      destruct (Nat.eq_dec from (index mt)) as [Heq | Hne]; [congruence|].
      assert (head_ws (span input from (index mt)) = false) as Hh
        by (rewrite span_head by lia; exact Hfrom).
      assert (length (span input from (index mt)) = index mt - from) as Hlen
        by (unfold span; rewrite length_firstn, length_skipn; lia).
      destruct (span input from (index mt)); [simpl in Hlen; lia | exact Hh].
  - assert (forall j, from <= j -> S j < length input ->
                      (space_at input j && space_at input (S j))%bool = false) as Hall.
    { intros j Hj Hjl. apply Hnone, (search_from_none _ _ _ _ E). lia. }
    destruct (span_single_spaced input from (length input) Hall (Nat.le_refl _)) as [Hs _].
    assert (span input from (length input) = skipn from input) as Hsp.
    { unfold span. apply firstn_all2. rewrite length_skipn. lia. }
    rewrite Hsp in Hs. split; [assumption|].
    intros Hne0. destruct Hfrom as [-> | Hfrom]; [congruence | exact Hfrom].
Qed.

Lemma cleanLine_single_spaced (l : str) : single_spaced (cleanLine l) = true.
Proof.
  unfold cleanLine. apply single_spaced_trim. unfold replace_all.
  apply replace_spaces_loop; [lia | lia | now left].
Qed.

(** *** Lines that cleaning leaves alone *)

(** The delimiter pattern matches only where a delimiter follows. *)
Lemma exec_pipeRe_needs (input : str) (j : nat) (mt : rmatch) :
  exec pipeRe input j = Some mt -> exists k, nth_error input k = Some 124%N.
Proof.
  intros H. apply exec_some in H as (_ & _ & H).
  change pipeRe with
    (Seq (star is_space) (Seq (chars $"|") (Seq (star is_space) Eps))) in H.
  apply in_m_seq in H as (st1 & H1 & H).
  apply in_m_seq in H as (st2 & H2 & _).
  rewrite m_chars in H2. apply in_singleton_if in H2 as [H2 _].
  apply starts_with_iff in H2 as [post Hpost].
  exists (fst st1).
  destruct (nth_error input (fst st1)) as [c|] eqn:E.
  - rewrite (skipn_nth_error _ _ _ E) in Hpost. now inversion Hpost.
  - apply nth_error_None in E. rewrite skipn_all2 in Hpost by assumption. discriminate.
Qed.

Lemma replace_all_nowhere (r : regex) (rep input : str) :
  (forall j, exec r input j = None) -> replace_all r rep input = input.
Proof.
  intros H. unfold replace_all. cbn [replace_loop].
  rewrite search_from_nowhere; [reflexivity | intros j _; apply H].
Qed.

Lemma single_spaced_at (s : str) (j : nat) :
  single_spaced s = true -> (space_at s j && space_at s (S j))%bool = false.
Proof.
  revert j; induction s as [|c s IH]; intros j H.
  - unfold space_at. now rewrite !skipn_nil.
  - rewrite single_spaced_cons in H. apply andb_true_iff in H as [Hc Hs].
    destruct j as [|j]; [|exact (IH j Hs)].
    apply negb_true_iff in Hc. exact Hc.
Qed.

Lemma not_delimited_nth (s : str) (k : nat) :
  forallb plain s = true -> nth_error s k <> Some 124%N.
Proof.
  intros H Hk. apply nth_error_In in Hk.
  rewrite forallb_forall in H. specialize (H _ Hk). discriminate.
Qed.

(** A line with no delimiter and no run of white space, and trimmed,
    is its own cleaning. *)
Lemma cleanLine_fixed (l : str) :
  forallb plain l = true -> single_spaced l = true -> trim l = l ->
  cleanLine l = l.
Proof.
  intros Hp Hs Ht. unfold cleanLine.
  rewrite (replace_all_nowhere pipeRe).
  - rewrite (replace_all_nowhere spacesRe); [exact Ht|].
    intros j. rewrite exec_spacesRe. cbn zeta. rewrite run_two.
    pose proof (single_spaced_at l j Hs) as H. unfold space_at in H.
    replace (S j) with (j + 1) in H by lia. rewrite <- skipn_skipn_add in H.
    now rewrite H.
  - intros j. destruct (exec pipeRe l j) as [mt|] eqn:E; [|reflexivity].
    destruct (exec_pipeRe_needs _ _ _ E) as [k Hk].
    now destruct (not_delimited_nth l k Hp).
Qed.

Lemma split_lines_one (l : str) :
  forallb plain l = true -> split_lines l = [l].
Proof.
  induction l as [|c l IH]; [reflexivity|]. cbn [forallb]. intros H.
  apply andb_true_iff in H as [Hc Hl]. unfold plain in Hc.
  apply andb_true_iff in Hc as [Hc _]. apply negb_true_iff in Hc.
  cbn [split_lines]. rewrite Hc, (IH Hl). reflexivity.
Qed.

(** Every line of the cleaned input: not empty, trimmed, free of line
    feeds and delimiters, single-spaced. *)
Lemma linesOf_clean (text l : str) :
  In l (linesOf text) ->
  l <> [] /\ trim l = l /\ forallb plain l = true /\ single_spaced l = true.
Proof.
  intros H. destruct (linesOf_trimmed _ _ H) as [Hne Ht].
  split; [assumption|]. split; [assumption|].
  unfold linesOf in H. apply filter_In in H as [H _].
  apply in_map_iff in H as (raw & <- & Hraw).
  split; [|apply cleanLine_single_spaced].
  apply cleanLine_plain.
  pose proof (split_lines_plain text) as Hall. rewrite Forall_forall in Hall.
  exact (Hall _ Hraw).
Qed.

Lemma linesOf_fixed (l : str) :
  l <> [] -> trim l = l -> forallb plain l = true -> single_spaced l = true ->
  linesOf l = [l].
Proof.
  intros Hne Ht Hp Hs. unfold linesOf.
  rewrite (split_lines_one _ Hp). cbn [map].
  rewrite (cleanLine_fixed _ Hp Hs Ht). cbn [filter].
  destruct l; [congruence | reflexivity].
Qed.

(** *** The header line *)

Lemma trimmed_ends (s : str) :
  trim s = s -> head_ws s = false /\ head_ws (rev s) = false.
Proof.
  intros H. destruct (trim_shape s) as [E | (c & d & Hc & Hd & Hh & Hl)].
  - rewrite H in E. subst s. now split.
  - rewrite H in Hh, Hl. split.
    + destruct s as [|x s]; [discriminate|]. cbn [hd_error] in Hh.
      apply (f_equal (fun o => match o with Some y => is_space y | None => false end)) in Hh.
      cbn [head_ws]. now rewrite Hh.
    + destruct (rev s) as [|x t]; [discriminate|]. cbn [hd_error] in Hl.
      apply (f_equal (fun o => match o with Some y => is_space y | None => false end)) in Hl.
      cbn [head_ws]. now rewrite Hl.
Qed.

Lemma trim_ends (s : str) :
  head_ws s = false -> head_ws (rev s) = false -> trim s = s.
Proof.
  intros Hh Hl. destruct s as [|c s]; [reflexivity|].
  destruct (rev (c :: s)) as [|d t] eqn:E.
  - apply (f_equal (@length _)) in E. rewrite length_rev in E. discriminate.
  - apply (trim_fixed c d); [exact Hh | exact Hl | reflexivity | now rewrite E].
Qed.

Lemma single_spaced_around (a b : str) (c : char) :
  single_spaced (a ++ c :: b) = true -> is_space c = true ->
  head_ws (rev a) = false /\ head_ws b = false.
Proof.
  intros H Hc. split.
  - apply single_spaced_rev in H. rewrite rev_app_distr in H. cbn [rev] in H.
    rewrite <- app_assoc in H. apply single_spaced_suffix in H.
    cbn [app] in H. rewrite single_spaced_cons, Hc in H.
    apply andb_true_iff in H as [H _]. now apply negb_true_iff in H.
  - apply single_spaced_suffix in H. rewrite single_spaced_cons, Hc in H.
    apply andb_true_iff in H as [H _]. now apply negb_true_iff in H.
Qed.

Lemma skipn_app_add (a b : str) (k : nat) :
  skipn (length a + k) (a ++ b) = skipn k b.
Proof.
  rewrite skipn_app, skipn_all2 by lia.
  replace (length a + k - length a) with k by lia. reflexivity.
Qed.

Lemma run_all (p : char -> bool) (s : str) :
  forallb p s = true -> run p s = length s.
Proof.
  induction s as [|c s IH]; [reflexivity|]. cbn [forallb run length].
  intros H. apply andb_true_iff in H as [-> H]. now rewrite IH.
Qed.

Lemma run_head_ws (s : str) : head_ws s = false -> run is_space s = 0.
Proof. destruct s as [|c s]; [reflexivity|]. cbn [head_ws run]. now intros ->. Qed.

Lemma occurs_i_false (w s : str) (j : nat) :
  occurs_i w s = false -> j <= length s -> starts_with_i w (skipn j s) = false.
Proof.
  unfold occurs_i. intros H Hj.
  destruct (starts_with_i w (skipn j s)) eqn:E; [|reflexivity].
  rewrite <- H. symmetry. apply existsb_exists. exists j.
  split; [apply in_seq; lia | exact E].
Qed.

Lemma starts_with_i_app (w a b : str) :
  starts_with_i w (a ++ b) = true ->
  (length w <= length a /\ starts_with_i w a = true) \/
  (length a < length w /\ starts_with_i (skipn (length a) w) b = true).
Proof.
  revert a; induction w as [|x w IH]; intros a H.
  - left. split; [cbn; lia | now destruct a].
  - destruct a as [|y a]; [right; split; [cbn; lia | exact H]|].
    cbn [app starts_with_i] in H. apply andb_true_iff in H as [Hxy H].
    destruct (IH a H) as [[Hl Hs] | [Hl Hs]].
    + left. split; [cbn [length]; lia|]. cbn [starts_with_i]. now rewrite Hxy, Hs.
    + right. split; [cbn [length]; lia | exact Hs].
Qed.

(** No letter of [w] is the character [c], so that an occurrence of
    [w] cannot run over [c]. *)
Lemma starts_with_i_over (w a b : str) (c : char) :
  forallb (fun x => negb (ci x c)) w = true ->
  length a < length w -> starts_with_i w (a ++ c :: b) = false.
Proof.
  intros Hw Hl. destruct (starts_with_i w (a ++ c :: b)) eqn:E; [|reflexivity].
  destruct (starts_with_i_app _ _ _ E) as [[Hle _] | [_ Hs]]; [lia|].
  assert (forallb (fun x => negb (ci x c)) (skipn (length a) w) = true) as Hsk
    by now apply forallb_skipn.
  destruct (skipn (length a) w) as [|x w'] eqn:Ew.
  - apply (f_equal (@length _)) in Ew. rewrite length_skipn in Ew. cbn in Ew. lia.
  - cbn [starts_with_i] in Hs. cbn [forallb] in Hsk.
    apply andb_true_iff in Hs as [Hs _]. apply andb_true_iff in Hsk as [Hsk _].
    rewrite Hs in Hsk. discriminate.
Qed.

Lemma m_plus_one (input : str) (p : char -> bool) (st : mstate) :
  run p (skipn (fst st) input) = 1 ->
  m (plus p) input st = [(fst st + 1, snd st)].
Proof. intros H. unfold plus. cbn [m]. now rewrite H. Qed.

(** [(.+)$] takes what is left of a line. *)
Lemma m_rest_of_line (input : str) (k : nat) (st : mstate) :
  skipn (fst st) input <> [] -> forallb dot (skipn (fst st) input) = true ->
  hd_error (m (Seq (Grp k (plus dot)) (Seq Eol Eps)) input st) =
  Some (length input, (k, skipn (fst st) input) :: snd st).
Proof.
  intros Hne Hd. rewrite m_seq_eq, m_grp_eq. unfold plus. cbn [m].
  rewrite (run_all _ _ Hd). unfold counts.
  assert (fst st < length input) as Hlt.
  { destruct (Nat.lt_ge_cases (fst st) (length input)) as [|Hge]; [assumption|].
    now rewrite skipn_all2 in Hne by assumption. }
  rewrite length_skipn.
  assert ((length input - fst st <? 1) = false) as -> by (apply Nat.ltb_ge; lia).
  rewrite seq_S, rev_app_distr. cbn [rev app map flat_map fst snd].
  replace (fst st + (1 + (length input - fst st - 1))) with (length input) by lia.
  rewrite Nat.eqb_refl. cbn [flat_map app hd_error].
  unfold span. rewrite firstn_all2 by (rewrite length_skipn; lia). reflexivity.
Qed.

(** In front of the end of the facility name the rest of the header
    pattern finds nothing. *)
Lemma header_tail_early (F rest : str) (r : regex) (n : nat) (c : caps) :
  occurs_i $"Discharges" F = false -> head_ws (rev F) = false ->
  n < length F ->
  m (Seq (plus is_space) (Seq (chars_i $"Discharges") r)) (F ++ 32%N :: rest) (n, c) = [].
Proof.
  intros Ho Hl Hn.
  destruct (m (Seq (plus is_space) (Seq (chars_i $"Discharges") r))
              (F ++ 32%N :: rest) (n, c)) as [|st l] eqn:E; [reflexivity|].
  exfalso.
  assert (In st (m (Seq (plus is_space) (Seq (chars_i $"Discharges") r))
                   (F ++ 32%N :: rest) (n, c))) as Hin by (rewrite E; now left).
  clear E. apply in_m_seq in Hin as (st1 & H1 & H).
  apply in_m_rep in H1 as (k & -> & [Hk1 Hk2] & _). cbn [fst snd] in *.
  apply in_m_seq in H as (st2 & H2 & _).
  rewrite m_chars_i in H2. apply in_singleton_if in H2 as [H2 _]. cbn [fst] in H2.
  destruct (Nat.lt_ge_cases (n + k) (length F)) as [Hq | Hq].
  - assert (skipn (n + k) (F ++ 32%N :: rest) = skipn (n + k) F ++ 32%N :: rest) as Hsk.
    { rewrite skipn_app. replace (n + k - length F) with 0 by lia. reflexivity. }
    rewrite Hsk in H2.
    destruct (starts_with_i_app _ _ _ H2) as [[_ Hs] | [Hlen _]].
    + rewrite (occurs_i_false _ _ (n + k) Ho) in Hs by lia. discriminate.
    + exact (eq_true_false_abs _ H2
               (starts_with_i_over $"Discharges" _ rest 32%N eq_refl Hlen)).
  - assert (length F - 1 - n < run is_space (skipn n (F ++ 32%N :: rest))) as Hr by lia.
    destruct (run_inside _ _ _ Hr) as (x & t & Hx & Hsp).
    rewrite skipn_skipn_add in Hx. replace (n + (length F - 1 - n)) with (length F - 1) in Hx by lia.
    destruct (rev F) as [|y F'] eqn:EF.
    { apply (f_equal (@length _)) in EF. rewrite length_rev in EF. cbn in EF. lia. }
    apply (f_equal (@rev _)) in EF. rewrite rev_involutive in EF. cbn [rev] in EF.
    subst F. rewrite length_app, length_rev in Hx. cbn [length] in Hx.
    replace (length F' + 1 - 1) with (length (rev F') + 0) in Hx
      by (rewrite length_rev; lia).
    rewrite <- app_assoc, skipn_app_add in Hx. cbn [skipn app] in Hx.
    cbn [head_ws] in Hl. assert (x = y) by congruence. subst x. congruence.
Qed.

(** From the end of the facility name on, the rest of the header
    pattern takes the words and captures the date. *)
Lemma header_tail_at (F D : str) (c : caps) :
  D <> [] -> forallb dot D = true -> head_ws D = false ->
  hd_error
    (m (Seq (plus is_space)
          (Seq (chars_i $"Discharges")
             (Seq (plus is_space)
                (Seq (chars_i $"for")
                   (Seq (plus is_space) (Seq (Grp 2 (plus dot)) (Seq Eol Eps)))))))
       (F ++ $" Discharges for " ++ D) (length F, c)) =
  Some (length (F ++ $" Discharges for " ++ D), (2, D) :: c).
Proof.
  intros HD Hd Hh.
  set (line := F ++ $" Discharges for " ++ D).
  assert (forall k, skipn (length F + k) line = skipn k ($" Discharges for " ++ D)) as Hsk
    by (intros k; apply skipn_app_add).
  rewrite m_seq_eq, m_plus_one;
    [|cbn [fst]; rewrite <- (Nat.add_0_r (length F)), Hsk; reflexivity].
  cbn [flat_map fst snd]. rewrite app_nil_r.
  rewrite m_seq_eq, m_chars_i. cbn [fst snd]. rewrite Hsk.
  change (starts_with_i $"Discharges" (skipn 1 ($" Discharges for " ++ D))) with true.
  cbn [flat_map]. rewrite app_nil_r.
  change (length $"Discharges") with 10. rewrite <- Nat.add_assoc.
  rewrite m_seq_eq, m_plus_one; [|cbn [fst]; rewrite Hsk; reflexivity].
  cbn [flat_map fst snd]. rewrite app_nil_r. rewrite <- Nat.add_assoc.
  rewrite m_seq_eq, m_chars_i. cbn [fst snd]. rewrite Hsk.
  change (starts_with_i $"for" (skipn (1 + 10 + 1) ($" Discharges for " ++ D))) with true.
  cbn [flat_map]. rewrite app_nil_r.
  change (length $"for") with 3. rewrite <- Nat.add_assoc.
  assert (run is_space (32%N :: D) = 1) as Hrun
    by (change (run is_space (32%N :: D)) with (S (run is_space D)); now rewrite run_head_ws).
  rewrite m_seq_eq, m_plus_one; [|cbn [fst]; rewrite Hsk; exact Hrun].
  cbn [flat_map fst snd]. rewrite app_nil_r. rewrite <- Nat.add_assoc.
  assert (skipn (length F + (1 + 10 + 1 + 3 + 1)) line = D) as HskD
    by (rewrite Hsk; reflexivity).
  rewrite m_rest_of_line; cbn [fst snd]; rewrite HskD; [reflexivity | assumption | assumption].
Qed.

(** The header pattern on a header line: the facility name in front of
    the words, the date behind them. *)
Lemma re_match_headerRe (F D : str) :
  F <> [] -> forallb dot F = true -> occurs_i $"Discharges" F = false ->
  head_ws (rev F) = false ->
  D <> [] -> forallb dot D = true -> head_ws D = false ->
  exists mt, re_match headerRe (F ++ $" Discharges for " ++ D) = Some mt /\
             group 1 mt = Some F /\ group 2 mt = Some D.
Proof.
  intros HF HdF Ho HlF HD HdD HhD.
  set (line := F ++ $" Discharges for " ++ D).
  set (tailRe :=
         Seq (plus is_space)
           (Seq (chars_i $"Discharges")
              (Seq (plus is_space)
                 (Seq (chars_i $"for")
                    (Seq (plus is_space) (Seq (Grp 2 (plus dot)) (Seq Eol Eps))))))).
  change headerRe with (Seq Bol (Seq (Grp 1 (plus_lazy dot)) tailRe)).
  rewrite re_match_anchored.
  assert (hd_error (m (Seq Bol (Seq (Grp 1 (plus_lazy dot)) tailRe)) line (0, [])) =
          Some (length line, [(2, D); (1, F)])) as Hhd.
  { rewrite m_seq_eq.
    change (m Bol line (0, [])) with [(0, @nil (nat * str))].
    cbn [flat_map]. rewrite app_nil_r.
    rewrite m_seq_eq, m_grp_eq. unfold plus_lazy.
    change (m (Rep dot 1 None false) line (0, []))
      with (map (fun n => (0 + n, @nil (nat * str))) (counts false 1 None (run dot line))).
    assert (length F <= run dot line) as Hrun
      by (apply run_ge; exists F, ($" Discharges for " ++ D); auto).
    assert (0 < length F) as HlenF by (destruct F; [congruence | cbn; lia]).
    unfold counts.
    assert ((run dot line <? 1) = false) as -> by (apply Nat.ltb_ge; lia).
    replace (S (run dot line - 1))
      with ((length F - 1) + S (run dot line - length F)) by lia.
    rewrite seq_app, !map_app, flat_map_app.
    replace (1 + (length F - 1)) with (length F) by lia.
    rewrite flat_map_nil.
    - cbn [seq map flat_map fst snd app Nat.add].
      apply hd_error_app.
      assert (span line 0 (length F) = F) as ->.
      { unfold span, line. rewrite Nat.sub_0_r. cbn [skipn].
        rewrite firstn_app, Nat.sub_diag, firstn_all. cbn [firstn]. apply app_nil_r. }
      exact (header_tail_at F D [(1, F)] HD HdD HhD).
    - intros x Hx. apply in_map_iff in Hx as (y & <- & Hy).
      apply in_map_iff in Hy as (n & <- & Hn). apply in_seq in Hn.
      cbn [fst snd Nat.add].
      exact (header_tail_early F ($"Discharges for " ++ D) _ n _ Ho HlF ltac:(lia)). }
  unfold exec.
  destruct (m (Seq Bol (Seq (Grp 1 (plus_lazy dot)) tailRe)) line (0, [])) as [|st l];
    [discriminate|].
  cbn [hd_error] in Hhd.
  apply (f_equal (fun o => match o with Some y => y | None => st end)) in Hhd.
  cbn beta iota in Hhd. subst st.
  eexists. split; [reflexivity|]. split; reflexivity.
Qed.

Lemma find_header (lines : list str) (h : str) :
  find isHeaderLine lines = Some h -> In h lines.
Proof. intros H. now apply find_some in H. Qed.

(** The facility name and the date of a header line written
    [F Discharges for D]. *)
Lemma headerOf_found (text F D : str) :
  find isHeaderLine (linesOf text) = Some (F ++ $" Discharges for " ++ D) ->
  occurs_i $"Discharges" F = false ->
  forallb dot F = true -> forallb dot D = true ->
  headerOf (linesOf text) = OK (F, D).
Proof.
  intros Hfind Ho HdF HdD.
  destruct (linesOf_clean _ _ (find_header _ _ Hfind)) as (Hne & Htr & _ & Hs).
  destruct (trimmed_ends _ Htr) as [Hh Hl].
  assert (F <> []) as HF by (intros ->; discriminate Hh).
  assert (D <> []) as HD.
  { intros ->. rewrite app_nil_r, rev_app_distr in Hl. discriminate Hl. }
  assert (head_ws F = false) as HhF by (destruct F; [congruence | exact Hh]).
  assert (head_ws (rev D) = false) as HlD.
  { rewrite app_assoc, rev_app_distr in Hl.
    destruct (rev D) as [|x t] eqn:E; [|exact Hl].
    apply (f_equal (@length _)) in E. rewrite length_rev in E.
    destruct D; [congruence | discriminate E]. }
  assert (head_ws (rev F) = false) as HlF.
  { change (F ++ $" Discharges for " ++ D)
      with (F ++ 32%N :: ($"Discharges for " ++ D)) in Hs.
    exact (proj1 (single_spaced_around _ _ _ Hs eq_refl)). }
  assert (head_ws D = false) as HhD.
  { change (F ++ $" Discharges for " ++ D)
      with (F ++ $" Discharges for" ++ 32%N :: D) in Hs.
    rewrite app_assoc in Hs.
    exact (proj2 (single_spaced_around _ _ _ Hs eq_refl)). }
  destruct (re_match_headerRe F D HF HdF Ho HlF HD HdD HhD) as (mt & Hm & H1 & H2).
  unfold headerOf. rewrite Hfind.
  assert (truthy (F ++ $" Discharges for " ++ D) = true) as ->
    by (destruct F; [congruence | reflexivity]).
  rewrite Hm. unfold read. rewrite H1, H2. cbn [bind ret].
  now rewrite (trim_ends F HhF HlF), (trim_ends D HhD HlD).
Qed.

(** *** The credential in front of the given name *)

Lemma space_not_lower (c : char) : is_space c = true -> is_lower c = false.
Proof.
  unfold is_space, is_lower, between. intros H.
  destruct (N.leb 97 c && N.leb c 122)%bool eqn:E; [|reflexivity].
  apply andb_true_iff in E as [E1 E2]. apply N.leb_le in E1, E2.
  repeat (apply orb_true_iff in H as [H | H]);
    try (apply andb_true_iff in H as [H1 H2]; apply N.leb_le in H1, H2; lia);
    apply N.eqb_eq in H; lia.
Qed.

Lemma canon_space (c : char) : is_space c = true -> canon c = c.
Proof. intros H. unfold canon. now rewrite (space_not_lower _ H). Qed.

Lemma canon_idem (c : char) : canon (canon c) = canon c.
Proof.
  unfold canon, is_lower, between.
  destruct (N.leb 97 c && N.leb c 122)%bool eqn:E; [|now rewrite E].
  apply andb_true_iff in E as [E1 E2]. apply N.leb_le in E1, E2.
  assert ((N.leb 97 (c - 32) && N.leb (c - 32) 122)%bool = false) as ->; [|reflexivity].
  apply andb_false_iff. left. apply N.leb_gt. lia.
Qed.

Lemma ci_comma (c : char) : ci 44%N c = N.eqb c 44.
Proof.
  unfold ci. change (canon 44%N) with 44%N. unfold canon, is_lower, between.
  destruct (N.leb 97 c && N.leb c 122)%bool eqn:E; [|reflexivity].
  apply andb_true_iff in E as [E1 E2]. apply N.leb_le in E1, E2.
  transitivity false; [apply N.eqb_neq; lia | symmetry; apply N.eqb_neq; lia].
Qed.

Lemma starts_with_i_upper (C rest : str) :
  starts_with_i (toUpperCase C) (C ++ rest) = true.
Proof.
  induction C as [|c C IH]; [reflexivity|].
  cbn [toUpperCase map app starts_with_i]. unfold ci at 1.
  rewrite canon_idem, N.eqb_refl. exact IH.
Qed.

Lemma wrongOrderToken_chars (tok : str) :
  In tok wrongOrderTokens ->
  tok <> [] /\ forallb (fun x => negb (is_space x)) tok = true /\
  forallb (fun x => negb (ci x 32%N)) tok = true.
Proof.
  intros H.
  repeat (destruct H as [<- | H]; [split; [discriminate | split; reflexivity]|]).
  destruct H.
Qed.

(** A credential token in some letter case holds no white space. *)
Lemma credential_chars (C : str) :
  In (toUpperCase C) wrongOrderTokens ->
  C <> [] /\ forallb (fun x => negb (is_space x)) C = true.
Proof.
  intros H. destruct (wrongOrderToken_chars _ H) as (Hne & Hsp & _).
  split; [intros ->; now apply Hne|].
  apply forallb_forall. intros x Hx.
  destruct (is_space x) eqn:E; [|reflexivity].
  pose proof (proj1 (forallb_forall _ _) Hsp (canon x) (in_map canon _ _ Hx)) as Hc.
  cbn beta in Hc. rewrite (canon_space _ E), E in Hc. discriminate.
Qed.

Lemma run_prefix_stop (p : char -> bool) (a b : str) (c : char) :
  forallb p a = true -> p c = false -> run p (a ++ c :: b) = length a.
Proof.
  intros Ha Hc. induction a as [|x a IH]; cbn [app run length].
  - now rewrite Hc.
  - cbn [forallb] in Ha. apply andb_true_iff in Ha as [-> Ha]. now rewrite IH.
Qed.

Lemma run_not_head (p : char -> bool) (a b : str) :
  a <> [] -> forallb (fun x => negb (p x)) a = true -> run p (a ++ b) = 0.
Proof.
  intros Hne Ha. destruct a as [|x a]; [congruence|].
  cbn [forallb] in Ha. apply andb_true_iff in Ha as [Hx _].
  apply negb_true_iff in Hx. cbn [app run]. now rewrite Hx.
Qed.

Lemma skipn_inside (a b : str) (n : nat) :
  n < length a ->
  exists x t, In x a /\ skipn n (a ++ b) = x :: t ++ b /\ skipn n a = x :: t.
Proof.
  intros Hn. rewrite skipn_app. replace (n - length a) with 0 by lia. cbn [skipn].
  destruct (skipn n a) as [|x t] eqn:E.
  - apply (f_equal (@length _)) in E. rewrite length_skipn in E. cbn in E. lia.
  - exists x, t. split; [|split; reflexivity].
    rewrite <- (firstn_skipn n a), E. apply in_or_app. right. now left.
Qed.

(** The wrong-order pattern on [L, C G]: the surname, the credential
    and the given name are what it captures. *)
Lemma re_match_wrongOrder (L C G : str) :
  L <> [] -> forallb (fun c => negb (N.eqb c 44)) L = true ->
  In (toUpperCase C) wrongOrderTokens ->
  G <> [] -> head_ws G = false -> forallb dot G = true ->
  exists mt, re_match wrongOrderRe (L ++ $", " ++ C ++ $" " ++ G) = Some mt /\
             group 1 mt = Some L /\ group 2 mt = Some C /\ group 3 mt = Some G.
Proof.
  intros HS Hcomma HC HG HhG HdG.
  destruct (credential_chars _ HC) as [HCne HCsp].
  set (tl3 := (32%N : char) :: G).
  set (tl2 := C ++ tl3).
  set (tl1 := (44%N : char) :: (32%N : char) :: tl2).
  change (L ++ $", " ++ C ++ $" " ++ G) with (L ++ tl1).
  set (line := L ++ tl1).
  assert (forall k, skipn (length L + k) line = skipn k tl1) as Hsk1
    by (intros k; apply skipn_app_add).
  assert (forall k, skipn (length L + 2 + k) line = skipn k tl2) as Hsk2
    by (intros k; rewrite <- Nat.add_assoc, Hsk1; reflexivity).
  assert (forall k, skipn (length L + 2 + length C + k) line = skipn k tl3) as Hsk3.
  { intros k. rewrite <- Nat.add_assoc, Hsk2. apply skipn_app_add. }
  assert (length line = length L + 2 + length C + 1 + length G) as Hlen
    by (unfold line, tl1, tl2, tl3; rewrite !length_app; cbn [length];
        rewrite length_app; cbn [length]; lia).
  assert (run is_space tl2 = 0) as Hr2 by (apply run_not_head; assumption).
  assert (run is_space tl3 = 1) as Hr3
    by (unfold tl3; change (run is_space (32%N :: G)) with (S (run is_space G));
        now rewrite run_head_ws).
  assert (forallb (fun c => negb (ci 44%N c)) L = true) as Hnc.
  { apply forallb_forall. intros x Hx. rewrite ci_comma.
    exact (proj1 (forallb_forall _ _) Hcomma x Hx). }
  change wrongOrderRe with
    (Seq Bol
       (Seq (Grp 1 (plus (fun c => negb (ci 44%N c))))
          (Seq (chars_i $",")
             (Seq (plus is_space)
                (Seq (Grp 2 (alts (chars_i $"MD")
                               [chars_i $"DO"; chars_i $"PA"; chars_i $"NP";
                                chars_i $"PA-C"; chars_i $"RN"; chars_i $"BSN"]))
                   (Seq (plus is_space)
                      (Seq (Grp 3 (plus dot)) (Seq Eol Eps)))))))).
  rewrite re_match_anchored.
  set (re := Seq Bol _).
  assert (forall st, In st (m re line (0, [])) -> snd st = [(3, G); (2, C); (1, L)]) as Hall.
  { intros st H. unfold re in H.
    apply in_m_seq in H as (st0 & H0 & H). apply in_m_bol in H0 as [_ ->].
    apply in_m_seq in H as (st1 & H1 & H).
    apply in_m_grp in H1 as (st1' & H1 & ->).
    apply in_m_rep in H1 as (n & -> & [Hn1 Hn2] & _). cbn [fst snd Nat.add skipn] in *.
    apply in_m_seq in H as (st2 & H2 & H).
    rewrite m_chars_i in H2. apply in_singleton_if in H2 as [Hc ->]. cbn [fst snd] in *.
    assert (n = length L) as ->.
    { unfold line, tl1 in Hn2. rewrite run_prefix_stop in Hn2; [|exact Hnc | reflexivity].
      destruct (Nat.eq_dec n (length L)) as [|Hne]; [assumption|]. exfalso.
      destruct (skipn_inside L tl1 n ltac:(lia)) as (x & t & Hx & Hskx & _).
      fold line in Hskx. rewrite Hskx in Hc.
      change ($",") with [44%N] in Hc. cbn [starts_with_i] in Hc.
      rewrite andb_true_r, ci_comma in Hc.
      pose proof (proj1 (forallb_forall _ _) Hcomma x Hx) as Hx'. cbn beta in Hx'.
      rewrite Hc in Hx'. discriminate. }
    clear Hc Hn1 Hn2. change (length $",") with 1 in H.
    apply in_m_seq in H as (st3 & H3 & H).
    apply in_m_rep in H3 as (n3 & -> & [Hn31 Hn32] & _). cbn [fst snd] in *.
    rewrite Hsk1 in Hn32.
    change (skipn 1 tl1) with ((32%N : char) :: tl2) in Hn32.
    change (run is_space ((32%N : char) :: tl2)) with (S (run is_space tl2)) in Hn32.
    rewrite Hr2 in Hn32. assert (n3 = 1) as -> by lia. clear Hn31 Hn32.
    apply in_m_seq in H as (st4 & H4 & H).
    apply in_m_grp in H4 as (st4' & H4 & ->).
    rewrite m_wrongOrder_alts in H4.
    apply in_flat_map in H4 as (tok & Htok & H4).
    apply in_singleton_if in H4 as [Hs ->]. cbn [fst snd] in *.
    replace (length L + 1 + 1) with (length L + 2 + 0) in Hs by lia.
    rewrite Hsk2 in Hs. cbn [skipn] in Hs. unfold tl2, tl3 in Hs.
    destruct (wrongOrderToken_chars _ Htok) as (_ & _ & Htsp).
    destruct (starts_with_i_app _ _ _ Hs) as [[Hle HsC] | [Hlt _]];
      [|destruct (eq_true_false_abs _ Hs (starts_with_i_over tok C G 32%N Htsp Hlt))].
    apply in_m_seq in H as (st5 & H5 & H).
    apply in_m_rep in H5 as (n5 & -> & [Hn51 Hn52] & _). cbn [fst snd] in *.
    replace (length L + 1 + 1 + length tok) with (length L + 2 + length tok) in * by lia.
    assert (length tok = length C) as Hlt.
    { destruct (Nat.eq_dec (length tok) (length C)) as [|Hne]; [assumption|]. exfalso.
      destruct (skipn_inside C tl3 (length tok) ltac:(lia)) as (x & t & Hx & Hskx & _).
      rewrite Hsk2 in Hn52. fold tl2 in Hskx. rewrite Hskx in Hn52.
      pose proof (proj1 (forallb_forall _ _) HCsp x Hx) as Hx'. cbn beta in Hx'.
      apply negb_true_iff in Hx'. cbn [run] in Hn52. rewrite Hx' in Hn52. lia. }
    rewrite Hlt in *.
    rewrite <- (Nat.add_0_r (length L + 2 + length C)) in Hn52. rewrite Hsk3 in Hn52.
    cbn [skipn] in Hn52. rewrite Hr3 in Hn52. assert (n5 = 1) as -> by lia.
    clear Hn51 Hn52.
    apply in_m_seq in H as (st6 & H6 & H).
    apply in_m_grp in H6 as (st6' & H6 & ->).
    apply in_m_rep in H6 as (n6 & -> & [Hn61 Hn62] & _). cbn [fst snd] in *.
    apply in_m_seq in H as (st7 & H7 & H).
    apply in_m_eol in H7 as [He ->]. cbn [fst snd] in *.
    apply in_m_eps in H. subst st. cbn [snd].
    assert (n6 = length G) as -> by lia.
    assert (span line 0 (length L) = L) as ->.
    { unfold span, line. rewrite Nat.sub_0_r. cbn [skipn].
      rewrite firstn_app, Nat.sub_diag, firstn_all. cbn [firstn]. apply app_nil_r. }
    assert (span line (length L + 2 + 0) (length L + 2 + 0 + length C) = C) as HspC.
    { unfold span. rewrite Hsk2. cbn [skipn]. unfold tl2.
      replace (length L + 2 + 0 + length C - (length L + 2 + 0)) with (length C) by lia.
      rewrite firstn_app, Nat.sub_diag, firstn_all. cbn [firstn]. apply app_nil_r. }
    rewrite Nat.add_0_r in HspC.
    replace (length L + 1 + 1) with (length L + 2) by lia. rewrite HspC.
    assert (span line (length L + 2 + length C + 1)
                 (length L + 2 + length C + 1 + length G) = G) as ->.
    { unfold span. rewrite Hsk3. unfold tl3. cbn [skipn].
      replace (length L + 2 + length C + 1 + length G - (length L + 2 + length C + 1))
        with (length G) by lia.
      apply firstn_all. }
    reflexivity. }
  assert (m re line (0, []) <> []) as Hsome.
  { apply nonempty_in. eexists. unfold re.
    apply in_m_seq. exists (0, []). split; [now apply in_m_bol|].
    apply in_m_seq. eexists. split.
    { apply in_m_grp. eexists. split; [|reflexivity].
      apply in_m_rep. exists (length L). split; [reflexivity|]. cbn [fst skipn].
      split; [|exact I]. unfold line, tl1.
      rewrite run_prefix_stop; [|exact Hnc | reflexivity].
      destruct L; [congruence | cbn [length]; lia]. }
    cbn [fst snd Nat.add].
    apply in_m_seq. eexists. split.
    { rewrite m_chars_i. apply in_singleton_if. split; [|reflexivity]. cbn [fst].
      rewrite <- (Nat.add_0_r (length L)), Hsk1. reflexivity. }
    cbn [fst snd]. change (length $",") with 1.
    apply in_m_seq. eexists. split.
    { apply in_m_rep. exists 1. split; [reflexivity|]. cbn [fst]. rewrite Hsk1.
      change (skipn 1 tl1) with ((32%N : char) :: tl2).
      change (run is_space ((32%N : char) :: tl2)) with (S (run is_space tl2)).
      split; [lia | exact I]. }
    cbn [fst snd].
    apply in_m_seq. eexists. split.
    { apply in_m_grp. eexists. split; [|reflexivity].
      rewrite m_wrongOrder_alts. apply in_flat_map. exists (toUpperCase C).
      split; [exact HC|]. apply in_singleton_if. split; [|reflexivity]. cbn [fst].
      replace (length L + 1 + 1) with (length L + 2 + 0) by lia.
      rewrite Hsk2. cbn [skipn]. apply starts_with_i_upper. }
    cbn [fst snd]. unfold toUpperCase at 1 2. rewrite !length_map.
    apply in_m_seq. eexists. split.
    { apply in_m_rep. exists 1. split; [reflexivity|]. cbn [fst].
      replace (length L + 1 + 1 + length C) with (length L + 2 + length C + 0) by lia.
      rewrite Hsk3. cbn [skipn]. rewrite Hr3. split; [lia | exact I]. }
    cbn [fst snd].
    apply in_m_seq. eexists. split.
    { apply in_m_grp. eexists. split; [|reflexivity].
      apply in_m_rep. exists (length G). split; [reflexivity|]. cbn [fst].
      replace (length L + 1 + 1 + length C + 1) with (length L + 2 + length C + 1) by lia.
      rewrite Hsk3. unfold tl3. cbn [skipn]. rewrite (run_all _ _ HdG).
      split; [|exact I]. destruct G; [congruence | cbn [length]; lia]. }
    cbn [fst snd].
    apply in_m_seq. eexists. split; [|now apply in_m_eps].
    apply in_m_eol. split; [|reflexivity]. cbn [fst]. lia. }
  unfold exec. destruct (m re line (0, [])) as [|st l] eqn:E; [congruence|].
  pose proof (Hall st (or_introl eq_refl)) as Hg.
  eexists. split; [reflexivity|]. unfold group. cbn [groups]. rewrite Hg.
  split; [reflexivity | split; reflexivity].
Qed.

Lemma head_ws_app (a b : str) : a <> [] -> head_ws (a ++ b) = head_ws a.
Proof. destruct a; [congruence | reflexivity]. Qed.

Lemma rev_nonempty (a : str) : a <> [] -> rev a <> [].
Proof.
  intros H E. apply (f_equal (@length _)) in E. rewrite length_rev in E.
  destruct a; [congruence | discriminate E].
Qed.

(* ================================================================== *)
(** ** A well-formed row *)
(* ================================================================== *)

(** A character in front of a text, the type of the element spelled
    out. *)
Local Notation "c ::: s" := (@cons char c s)
  (at level 60, right associativity, only parsing).

(** *** Shapes and where they can start *)

Lemma has_shape_app_cases (sh : list (char -> bool)) (a b : str) :
  has_shape sh (a ++ b) = true ->
  (length sh <= length a /\ has_shape sh a = true) \/
  (length a < length sh /\ has_shape (skipn (length a) sh) b = true).
Proof.
  revert a; induction sh as [|p sh IH]; intros a H.
  - left. split; [cbn; lia | now destruct a].
  - destruct a as [|y a]; [right; split; [cbn; lia | exact H]|].
    cbn [app has_shape] in H. apply andb_true_iff in H as [Hy H].
    destruct (IH a H) as [[Hl Hs] | [Hl Hs]].
    + left. split; [cbn [length]; lia|]. cbn [has_shape]. now rewrite Hy, Hs.
    + right. split; [cbn [length]; lia | exact Hs].
Qed.

(** A shape none of whose classes holds [c] cannot run over [c]. *)
Lemma has_shape_over (sh : list (char -> bool)) (a b : str) (c : char) :
  forallb (fun p => negb (p c)) sh = true ->
  length a < length sh -> has_shape sh (a ++ c :: b) = false.
Proof.
  intros Hsh Hl. destruct (has_shape sh (a ++ c :: b)) eqn:E; [|reflexivity].
  destruct (has_shape_app_cases _ _ _ E) as [[Hle _] | [_ Hs]]; [lia|].
  assert (forallb (fun p => negb (p c)) (skipn (length a) sh) = true) as Hsk.
  { clear - Hsh. revert sh Hsh. generalize (length a) as n.
    induction n as [|n IH]; intros [|p sh] H; cbn [skipn]; auto.
    cbn [forallb] in H. apply andb_true_iff in H as [_ H]. now apply IH. }
  destruct (skipn (length a) sh) as [|p sh'] eqn:Ew.
  - apply (f_equal (@length _)) in Ew. rewrite length_skipn in Ew. cbn in Ew. lia.
  - cbn [has_shape] in Hs. cbn [forallb] in Hsk.
    apply andb_true_iff in Hs as [Hs _]. apply andb_true_iff in Hsk as [Hsk _].
    rewrite Hs in Hsk. discriminate.
Qed.

Lemma first_of_shape_none (sh : list (char -> bool)) (s : str) :
  first_of_shape sh s = None -> forall j, has_shape sh (skipn j s) = false.
Proof.
  induction s as [|c s IH]; cbn [first_of_shape].
  - destruct (has_shape sh []) eqn:E; [discriminate|]. intros _ j. now rewrite skipn_nil.
  - destruct (has_shape sh (c :: s)) eqn:E; [discriminate|].
    intros H [|j]; [exact E | exact (IH H j)].
Qed.

Lemma first_of_shape_skip (sh : list (char -> bool)) (s : str) (k : nat) :
  (forall j, j < k -> has_shape sh (skipn j s) = false) ->
  first_of_shape sh s = first_of_shape sh (skipn k s).
Proof.
  revert s; induction k as [|k IH]; intros s H; [reflexivity|].
  destruct s as [|c s]; [reflexivity|].
  pose proof (H 0 ltac:(lia)) as H0. cbn [skipn] in H0.
  cbn [first_of_shape skipn]. rewrite H0.
  apply IH. intros j Hj. exact (H (S j) ltac:(lia)).
Qed.

Lemma first_of_shape_here (sh : list (char -> bool)) (d rest : str) :
  has_shape sh d = true -> length d = length sh ->
  first_of_shape sh (d ++ rest) = Some d.
Proof.
  intros Hd Hl.
  assert (has_shape sh (d ++ rest) = true) as Hs.
  { clear Hl. revert d Hd. induction sh as [|p sh IH]; intros d Hd; [reflexivity|].
    destruct d as [|c d]; [discriminate|]. cbn [app has_shape] in *.
    apply andb_true_iff in Hd as [-> Hd]. now apply IH. }
  destruct (d ++ rest) as [|c s] eqn:E; cbn [first_of_shape]; rewrite Hs; f_equal;
    rewrite <- E, <- Hl, firstn_app, Nat.sub_diag, firstn_all; apply app_nil_r.
Qed.

(** A field with no text of the shape, then a character the shape
    refuses: the shape starts nowhere up to that character. *)
Lemma no_shape_field (sh : list (char -> bool)) (a rest : str) (c : char) (k : nat) :
  forallb (fun p => negb (p c)) sh = true -> sh <> [] ->
  (forall j, has_shape sh (skipn j a) = false) ->
  (forall j, j < k -> has_shape sh (skipn j rest) = false) ->
  forall j, j < length a + 1 + k -> has_shape sh (skipn j (a ++ c :: rest)) = false.
Proof.
  intros Hc Hne Ha Hrest j Hj.
  destruct (Nat.le_gt_cases j (length a)) as [Hle | Hgt].
  - rewrite skipn_app. replace (j - length a) with 0 by lia. cbn [skipn].
    destruct (has_shape sh (skipn j a ++ c :: rest)) eqn:E; [|reflexivity].
    destruct (has_shape_app_cases _ _ _ E) as [[_ Hs] | [Hl _]].
    + now rewrite Ha in Hs.
    + now rewrite (has_shape_over sh _ rest c Hc Hl) in E.
  - replace j with (length a + S (j - length a - 1)) by lia.
    rewrite skipn_app_add. cbn [skipn]. apply Hrest. lia.
Qed.

Lemma digit_not_dash (c : char) : is_digit c = true -> dash c = false.
Proof.
  unfold is_digit, between, dash. intros H.
  apply andb_true_iff in H as [H1 H2]. apply N.leb_le in H1, H2.
  apply N.eqb_neq. lia.
Qed.

(** A text without a dash holds no date. *)
Lemma no_dash_no_date (s : str) :
  forallb (fun c => negb (dash c)) s = true ->
  forall j, has_shape dateShape (skipn j s) = false.
Proof.
  intros H j. pose proof (forallb_skipn _ j _ H) as Hj.
  destruct (skipn j s) as [|a t1]; [reflexivity|].
  destruct t1 as [|b t2].
  { change (has_shape dateShape [a]) with (is_digit a && false)%bool.
    apply andb_false_r. }
  destruct t2 as [|c t].
  { change (has_shape dateShape [a; b]) with (is_digit a && (is_digit b && false))%bool.
    now rewrite !andb_false_r. }
  cbn [forallb] in Hj. repeat (apply andb_true_iff in Hj as [? Hj]).
  change (has_shape dateShape (a :: b :: c :: t))
    with (is_digit a && (is_digit b && (dash c && has_shape (skipn 3 dateShape) t)))%bool.
  destruct (dash c); [discriminate|]. now rewrite !andb_false_r.
Qed.

Lemma epic_id_no_date (id : str) :
  is_epic_id id -> forall j, has_shape dateShape (skipn j id) = false.
Proof.
  intros (d & -> & _ & Hd). apply no_dash_no_date.
  rewrite forallb_app. apply andb_true_iff. split; [reflexivity|].
  apply forallb_forall. intros x Hx.
  now rewrite (digit_not_dash _ (proj1 (forallb_forall _ _) Hd x Hx)).
Qed.

(** A phone number [NNN-NNN-NNNN] holds no date [NN-NN-NNNN]. *)
Lemma phone_no_date (ph : str) :
  has_shape phoneShape ph = true -> length ph = 12 ->
  forall j, has_shape dateShape (skipn j ph) = false.
Proof.
  intros Hp Hl j.
  do 12 (destruct ph as [|? ph]; [discriminate Hl|]).
  destruct ph; [|discriminate Hl]. clear Hl.
  cbn [phoneShape repeat app has_shape] in Hp.
  repeat (apply andb_true_iff in Hp as [? Hp]).
  repeat match goal with
         | H : is_digit _ = true |- _ => apply digit_not_dash in H
         end.
  do 12 (destruct j as [|j];
         [cbn [skipn dateShape repeat app has_shape];
          repeat match goal with
                 | H : dash _ = false |- _ => rewrite H
                 end;
          now rewrite ?andb_false_r|]).
  cbn [skipn]. now rewrite skipn_nil.
Qed.

(** *** The identifier as a shape *)

Lemma epic_here_shape (s : str) : epic_here s = has_shape epicShape s.
Proof.
  unfold epic_here, epicShape. rewrite has_shape_app, has_shape_repeat.
  destruct s as [|a [|b s]]; reflexivity.
Qed.

Lemma no_epic_id_shape (s : str) :
  ~ has_substring is_epic_id s -> forall j, has_shape epicShape (skipn j s) = false.
Proof.
  intros H j. rewrite <- epic_here_shape.
  destruct (epic_here (skipn j s)) eqn:E; [|reflexivity].
  exfalso. apply H. apply epic_here_iff in E as (id & post & Hs & Hid).
  exists (firstn j s), id, post. split; [|assumption].
  rewrite <- Hs. symmetry. apply firstn_skipn.
Qed.

(** *** Positions *)

Lemma find_from_first (p t : str) (k n : nat) :
  starts_with p (skipn n t) = true ->
  (forall d, d < n -> starts_with p (skipn d t) = false) ->
  find_from p t k = Some (k + n).
Proof.
  intros Hs Hmin. destruct (find_from_occurs p t k n Hs) as (j & Hj & Hle).
  rewrite Hj. f_equal. apply find_from_some in Hj as (Hkj & Hsj & _).
  destruct (Nat.eq_dec (j - k) n) as [|Hne]; [lia|].
  rewrite (Hmin (j - k)) in Hsj by lia. discriminate.
Qed.

Lemma indexOf_first (s p : str) (k n : nat) :
  k <= length s ->
  starts_with p (skipn (k + n) s) = true ->
  (forall d, d < n -> starts_with p (skipn (k + d) s) = false) ->
  indexOf s p (Z.of_nat k) = Z.of_nat (k + n).
Proof.
  intros Hk Hs Hmin. unfold indexOf. rewrite clamp_of_nat, Nat.min_l by assumption.
  rewrite (find_from_first p (skipn k s) k n); [reflexivity | |].
  - now rewrite skipn_skipn_add.
  - intros d Hd. rewrite skipn_skipn_add. now apply Hmin.
Qed.

Lemma substring_span (s : str) (a b : nat) :
  a <= b -> b <= length s ->
  substring s (Z.of_nat a) (Z.of_nat b) = span s a b.
Proof.
  intros Hab Hb. unfold substring, span. rewrite !clamp_of_nat.
  rewrite (Nat.min_l a), (Nat.min_l b) by lia.
  now rewrite Nat.min_l, Nat.max_r by lia.
Qed.

Lemma substring_from_skipn (s : str) (a : nat) :
  substring_from s (Z.of_nat a) = skipn a s.
Proof.
  unfold substring_from. rewrite clamp_of_nat.
  destruct (Nat.le_gt_cases a (length s)) as [Hle | Hgt].
  - now rewrite Nat.min_l.
  - rewrite Nat.min_r by lia. now rewrite skipn_all, skipn_all2 by lia.
Qed.

Lemma find_last_short (p s : str) (i : nat) :
  length s < length p -> find_last p s i = None.
Proof.
  revert i; induction s as [|c s IH]; intros i Hl.
  - destruct p; [cbn in Hl; lia | reflexivity].
  - cbn [find_last]. rewrite IH by (cbn [length] in Hl; lia).
    assert (starts_with p (c :: s) = false) as ->; [|reflexivity].
    destruct (starts_with p (c :: s)) eqn:E; [|reflexivity].
    apply starts_with_iff in E as [post E].
    apply (f_equal (@length _)) in E. rewrite length_app in E. lia.
Qed.

(** The last occurrence of a text that stands at the end. *)
Lemma find_last_end (p pre : str) (i : nat) :
  p <> [] -> find_last p (pre ++ p) i = Some (i + length pre).
Proof.
  intros Hp. revert i; induction pre as [|c pre IH]; intros i.
  - cbn [app length]. rewrite Nat.add_0_r.
    destruct p as [|x p']; [congruence|].
    cbn [find_last]. rewrite find_last_short by (cbn [length]; lia).
    assert (starts_with (x :: p') (x :: p') = true) as ->; [|reflexivity].
    apply starts_with_iff. exists []. now rewrite app_nil_r.
  - cbn [app find_last length]. rewrite IH. f_equal. lia.
Qed.

Lemma trim_padded (s : str) :
  head_ws s = false -> head_ws (rev s) = false ->
  trim (32%N ::: s ++ (@cons char 32%N [])) = s /\ trim (s ++ (@cons char 32%N [])) = s.
Proof.
  intros Hh Hl. destruct s as [|c s]; [split; reflexivity|].
  assert (dropWhile is_space ((c :: s) ++ (@cons char 32%N [])) = (c :: s) ++ (@cons char 32%N [])) as Hd1
    by (cbn [head_ws] in Hh; cbn [app dropWhile]; now rewrite Hh).
  assert (dropWhile is_space (rev (c :: s)) = rev (c :: s)) as Hd2.
  { destruct (rev (c :: s)) as [|d t]; [reflexivity|].
    cbn [head_ws] in Hl. cbn [dropWhile]. now rewrite Hl. }
  assert (trim ((c :: s) ++ (@cons char 32%N [])) = c :: s) as Ht.
  { unfold trim. rewrite Hd1, rev_app_distr.
    change (rev (@cons char 32%N []) ++ rev (c :: s)) with (32%N ::: rev (c :: s)).
    change (dropWhile is_space (32%N ::: rev (c :: s)))
      with (dropWhile is_space (rev (c :: s))).
    rewrite Hd2. apply rev_involutive. }
  split; [|exact Ht].
  unfold trim in *.
  change (dropWhile is_space (32%N ::: (c :: s) ++ (@cons char 32%N [])))
    with (dropWhile is_space ((c :: s) ++ (@cons char 32%N []))).
  exact Ht.
Qed.

Lemma has_shape_app_r (sh : list (char -> bool)) (d rest : str) :
  has_shape sh d = true -> has_shape sh (d ++ rest) = true.
Proof.
  revert d; induction sh as [|p sh IH]; intros d Hd; [reflexivity|].
  destruct d as [|c d]; [discriminate|]. cbn [app has_shape] in *.
  apply andb_true_iff in Hd as [-> Hd]. now apply IH.
Qed.

Lemma starts_with_shape (sh : list (char -> bool)) (d s : str) :
  has_shape sh d = true -> starts_with d s = true -> has_shape sh s = true.
Proof.
  intros Hd Hs. apply starts_with_iff in Hs as [post ->]. now apply has_shape_app_r.
Qed.

Lemma starts_with_app (p rest : str) : starts_with p (p ++ rest) = true.
Proof. apply starts_with_iff. now exists rest. Qed.

Lemma starts_with_app_cases (q a b : str) :
  starts_with q (a ++ b) = true ->
  (length q <= length a /\ starts_with q a = true) \/
  (length a < length q /\ starts_with (skipn (length a) q) b = true).
Proof.
  revert a; induction q as [|x q IH]; intros a H.
  - left. split; [cbn; lia | now destruct a].
  - destruct a as [|y a]; [right; split; [cbn; lia | exact H]|].
    cbn [app starts_with] in H. apply andb_true_iff in H as [Hxy H].
    destruct (IH a H) as [[Hl Hs] | [Hl Hs]].
    + left. split; [cbn [length]; lia|]. cbn [starts_with]. now rewrite Hxy, Hs.
    + right. split; [cbn [length]; lia | exact Hs].
Qed.

Lemma digit_not_space (c : char) : is_digit c = true -> is_space c = false.
Proof.
  intros H. destruct (is_space c) eqn:E; [|reflexivity].
  now rewrite (space_not_digit _ E) in H.
Qed.

(** *** The head of a row: name, identifier, phone column *)

Section RowHead.

Variables name id pf rest : str.

Local Abbreviation h2 := (pf ++ 32%N ::: rest).
Local Abbreviation h1 := (id ++ 32%N ::: h2).
Local Abbreviation hline := (name ++ 32%N ::: h1).

Hypothesis id_shape : is_epic_id id.

Lemma rh_at_id : skipn (length name + 1) hline = h1.
Proof. rewrite skipn_app_add. reflexivity. Qed.

Lemma rh_after_id : skipn (length name + 12) hline = 32%N ::: h2.
Proof.
  replace (length name + 12) with (length name + 1 + length id)
    by (rewrite (is_epic_id_length _ id_shape); lia).
  rewrite <- skipn_skipn_add, rh_at_id.
  rewrite <- (Nat.add_0_r (length id)). apply skipn_app_add.
Qed.

Lemma rh_at_phone : skipn (length name + 13) hline = h2.
Proof.
  replace (length name + 13) with (length name + 12 + 1) by lia.
  now rewrite <- skipn_skipn_add, rh_after_id.
Qed.

Lemma rh_after_phone : skipn (length name + 13 + length pf) hline = 32%N ::: rest.
Proof.
  rewrite <- skipn_skipn_add, rh_at_phone.
  rewrite <- (Nat.add_0_r (length pf)). apply skipn_app_add.
Qed.

Lemma rh_length : length hline = length name + 13 + length pf + 1 + length rest.
Proof.
  repeat (rewrite length_app; cbn [length]).
  rewrite (is_epic_id_length _ id_shape). lia.
Qed.

(** The phone column starts with a digit: the absence marker is not
    there, and the column is found one character behind the
    identifier. *)
Lemma rh_digits_first (c : char) (t : str) :
  pf = c :: t -> is_digit c = true ->
  re_match missingRe (32%N ::: h2) = None /\
  dropWhile is_space (32%N ::: h2) = h2 /\
  indexOf hline pf (Z.of_nat (length name + 12)) = Z.of_nat (length name + 13).
Proof.
  intros Hpf Hc. pose proof (digit_not_space _ Hc) as Hsp.
  assert (dropWhile is_space (32%N ::: h2) = h2) as Hdrop.
  { change (dropWhile is_space (32%N ::: h2)) with (dropWhile is_space h2).
    rewrite Hpf. cbn [app dropWhile]. now rewrite Hsp. }
  split; [|split; [exact Hdrop|]].
  - destruct (re_match missingRe (32%N ::: h2)) as [mm|] eqn:E; [|reflexivity].
    destruct (re_match_missingRe (32%N ::: h2)) as [u Hu]; [congruence|].
    rewrite Hdrop, Hpf in Hu. cbn [app] in Hu.
    assert (c = 40%N) as -> by congruence. discriminate Hc.
  - replace (length name + 13) with (length name + 12 + 1) by lia.
    apply indexOf_first.
    + rewrite rh_length. lia.
    + replace (length name + 12 + 1) with (length name + 13) by lia.
      rewrite rh_at_phone. apply starts_with_app.
    + intros d Hd. assert (d = 0) as -> by lia. rewrite Nat.add_0_r, rh_after_id.
      rewrite Hpf. cbn [starts_with].
      assert (N.eqb c 32 = false) as ->; [|reflexivity].
      apply N.eqb_neq. intros ->. discriminate Hc.
Qed.

(** A formatted number in the phone column. *)
Lemma rh_formatted :
  has_shape phoneShape pf = true -> length pf = 12 ->
  exists pc fm,
    phoneAfterEpic (32%N ::: h2) = OK (Some pf, pc, Some fm) /\
    attendingStartOf hline (Z.of_nat (length name + 12)) (Some fm) =
    Z.of_nat (length name + 13 + length pf + 0).
Proof.
  intros Hs Hl.
  assert (exists c t, pf = c :: t /\ is_digit c = true) as (c & t & Hpf & Hc).
  { destruct pf as [|c t]; [discriminate|]. exists c, t. split; [reflexivity|].
    cbn [phoneShape repeat app has_shape] in Hs. now apply andb_true_iff in Hs as [Hc _]. }
  destruct (rh_digits_first c t Hpf Hc) as (Hmiss & Hdrop & Hidx).
  assert (firstn 12 h2 = pf) as Hfirst.
  { rewrite <- Hl, firstn_app, Nat.sub_diag, firstn_all. cbn [firstn]. apply app_nil_r. }
  unfold phoneAfterEpic. rewrite Hmiss, re_match_fmtPhoneRe. cbn zeta.
  rewrite Hdrop, (has_shape_app_r _ _ _ Hs), Hfirst.
  unfold read, group. cbn [groups lookup Nat.eqb bind ret].
  eexists _, _. split; [reflexivity|].
  unfold attendingStartOf, group. cbn [groups lookup Nat.eqb].
  assert (forall w, or_else pf w = pf) as Hor by (intros w; rewrite Hpf; reflexivity).
  rewrite Hor, Hidx.
  assert ((0 <=? Z.of_nat (length name + 13))%Z = true) as -> by (apply Z.leb_le; lia).
  unfold len. lia.
Qed.

(** Ten raw digits in the phone column. *)
Lemma rh_raw :
  length pf = 10 -> forallb is_digit pf = true ->
  exists pc fm,
    phoneAfterEpic (32%N ::: h2) = OK (Some (reformat pf), pc, Some fm) /\
    attendingStartOf hline (Z.of_nat (length name + 12)) (Some fm) =
    Z.of_nat (length name + 13 + length pf + 0).
Proof.
  intros Hl Hd.
  assert (exists c t, pf = c :: t /\ is_digit c = true) as (c & t & Hpf & Hc).
  { destruct pf as [|c t]; [discriminate|]. exists c, t. split; [reflexivity|].
    cbn [forallb] in Hd. now apply andb_true_iff in Hd as [Hc _]. }
  destruct (rh_digits_first c t Hpf Hc) as (Hmiss & Hdrop & Hidx).
  assert (has_shape (repeat is_digit 10) pf = true) as Hten.
  { rewrite has_shape_repeat, (run_all _ _ Hd), Hl. reflexivity. }
  assert (has_shape phoneShape h2 = false) as Hnot.
  { clear Hpf Hc Hmiss Hdrop Hidx Hten. revert Hl Hd. generalize pf as d. intros d Hl Hd.
    do 4 (destruct d as [|? d]; [discriminate Hl|]).
    cbn [forallb] in Hd. repeat (apply andb_true_iff in Hd as [? Hd]).
    cbn [app phoneShape repeat has_shape].
    repeat match goal with
           | H : is_digit _ = true |- _ => rewrite (digit_not_dash _ H); clear H
           end.
    now rewrite !andb_false_r. }
  assert (has_shape rawPhoneShape h2 = true) as Hraw.
  { unfold rawPhoneShape. rewrite has_shape_app, repeat_length.
    rewrite (has_shape_app_r _ _ _ Hten).
    rewrite <- Hl, <- (Nat.add_0_r (length pf)), skipn_app_add. reflexivity. }
  assert (firstn 10 h2 = pf) as Hfirst.
  { rewrite <- Hl, firstn_app, Nat.sub_diag, firstn_all. cbn [firstn]. apply app_nil_r. }
  unfold phoneAfterEpic. rewrite Hmiss, re_match_fmtPhoneRe, re_match_rawPhoneRe. cbn zeta.
  rewrite Hdrop, Hnot, Hraw, Hfirst.
  unfold read, group. cbn [groups lookup Nat.eqb bind ret].
  rewrite (slices_reformat _ Hl).
  eexists _, _. split; [reflexivity|].
  unfold attendingStartOf, group. cbn [groups lookup Nat.eqb].
  assert (forall w, or_else pf w = pf) as Hor by (intros w; rewrite Hpf; reflexivity).
  rewrite Hor, Hidx.
  assert ((0 <=? Z.of_nat (length name + 13))%Z = true) as -> by (apply Z.leb_le; lia).
  unfold len. lia.
Qed.

(** The placeholder of an absent number in the phone column. *)
Lemma rh_missing :
  pf = $"(missing)" -> head_ws rest = false ->
  exists pc fm,
    phoneAfterEpic (32%N ::: h2) = OK (None, pc, Some fm) /\
    attendingStartOf hline (Z.of_nat (length name + 12)) (Some fm) =
    Z.of_nat (length name + 13 + length pf + 1).
Proof.
  intros Hpf Hrest.
  set (input := 32%N ::: h2).
  assert (run is_space input = 1) as Hrun by (unfold input; rewrite Hpf; reflexivity).
  assert (skipn 1 input = $"(missing)" ++ 32%N ::: rest) as Hsk1
    by (unfold input; rewrite Hpf; reflexivity).
  assert (skipn 10 input = 32%N ::: rest) as Hsk10
    by (unfold input; rewrite Hpf; reflexivity).
  assert (11 <= length input) as Hlen
    by (unfold input; cbn [length]; rewrite length_app, Hpf; cbn [length];
        change (length $"(missing)") with 9; lia).
  assert (re_match missingRe input =
          Some {| index := 0; stop := 11; whole := span input 0 11; groups := [] |}) as Hm.
  { change missingRe with
      (Seq Bol (Seq (star is_space) (Seq (chars_i $"(missing)") (Seq (star is_space) Eps)))).
    rewrite re_match_anchored. unfold exec. rewrite m_leading_space.
    - rewrite Hrun, m_seq_eq, m_chars_i. cbn [fst snd]. rewrite Hsk1.
      change (starts_with_i $"(missing)" ($"(missing)" ++ 32%N ::: rest)) with true.
      cbn [flat_map]. rewrite app_nil_r.
      change (1 + length $"(missing)") with 10.
      rewrite m_seq_eq. unfold star. cbn [m fst snd]. rewrite Hsk10.
      change (run is_space (32%N ::: rest)) with (S (run is_space rest)).
      rewrite (run_head_ws _ Hrest). reflexivity.
    - intros n Hn. assert (n = 0) as -> by lia.
      rewrite m_seq_eq, m_chars_i. cbn [fst snd skipn]. unfold input. reflexivity. }
  assert (re_match rawPhoneRe input = None) as Hraw.
  { rewrite re_match_rawPhoneRe. cbn zeta.
    assert (dropWhile is_space input = $"(missing)" ++ 32%N ::: rest) as ->
      by (unfold input; rewrite Hpf; reflexivity).
    reflexivity. }
  unfold phoneAfterEpic. fold input. rewrite Hm, Hraw. cbn [bind ret].
  eexists _, _. split; [reflexivity|].
  unfold attendingStartOf, group. cbn [groups lookup whole].
  subst input.
  rewrite (indexOf_first hline (span (32%N ::: h2) 0 11) (length name + 12) 0).
  - assert ((0 <=? Z.of_nat (length name + 12 + 0))%Z = true) as ->
      by (apply Z.leb_le; lia).
    unfold len, span. rewrite length_firstn. cbn [skipn].
    assert (length pf = 9) as Hl9 by (rewrite Hpf; reflexivity). lia.
  - rewrite rh_length. lia.
  - rewrite Nat.add_0_r, rh_after_id. unfold span. cbn [skipn].
    apply starts_with_iff. exists (skipn (11 - 0) (32%N ::: h2)).
    symmetry. apply firstn_skipn.
  - intros d Hd. lia.
Qed.

End RowHead.

(** What the phone column gives, whichever of its three forms it has. *)
Lemma phone_field_found (name id pf rest : str) (ph : option str) :
  is_epic_id id -> phone_field pf ph -> head_ws rest = false ->
  exists e pc fm,
    e <= 1 /\
    phoneAfterEpic (32%N ::: pf ++ 32%N ::: rest) = OK (ph, pc, Some fm) /\
    attendingStartOf (name ++ 32%N ::: id ++ 32%N ::: pf ++ 32%N ::: rest)
      (Z.of_nat (length name + 12)) (Some fm) =
    Z.of_nat (length name + 13 + length pf + e).
Proof.
  intros Hid Hpf Hrest. destruct Hpf as [p Hs Hl | d Hl Hd |].
  - destruct (rh_formatted name id p rest Hid Hs Hl) as (pc & fm & H1 & H2).
    exists 0, pc, fm. auto.
  - destruct (rh_raw name id d rest Hid Hl Hd) as (pc & fm & H1 & H2).
    exists 0, pc, fm. auto.
  - destruct (rh_missing name id ($"(missing)") rest Hid eq_refl Hrest)
      as (pc & fm & H1 & H2).
    exists 1, pc, fm. auto.
Qed.

Lemma phone_field_no_date (pf : str) (ph : option str) :
  phone_field pf ph -> forall j, has_shape dateShape (skipn j pf) = false.
Proof.
  intros [p Hs Hl | d Hl Hd |].
  - now apply phone_no_date.
  - apply no_dash_no_date. apply forallb_forall. intros x Hx.
    now rewrite (digit_not_dash _ (proj1 (forallb_forall _ _) Hd x Hx)).
  - now apply no_dash_no_date.
Qed.

(** The phone number of a phone column is never the empty string. *)
Lemma phone_field_falsy (pf : str) (ph : option str) :
  phone_field pf ph ->
  falsy ph = match ph with Some _ => false | None => true end.
Proof.
  intros [p Hs Hl | d Hl Hd |]; [| |reflexivity].
  - destruct p; [discriminate Hl | reflexivity].
  - destruct d as [|c d]; [discriminate Hl | reflexivity].
Qed.

(** *** The whole row *)

Section WellFormedRow.

Variables name id pf att date pcp payer disp : str.

Local Abbreviation r6 := (payer ++ 32%N ::: disp).
Local Abbreviation r5 := (pcp ++ 32%N ::: r6).
Local Abbreviation r4 := (date ++ 32%N ::: r5).
Local Abbreviation r3 := (att ++ 32%N ::: r4).
Local Abbreviation r2 := (pf ++ 32%N ::: r3).
Local Abbreviation r1 := (id ++ 32%N ::: r2).
Local Abbreviation line := (name ++ 32%N ::: r1).
(** Where the date stands. *)
Local Abbreviation pd :=
  (length name + 1 + (length id + 1 + (length pf + 1 + (length att + 1 + 0)))).

Hypothesis name_id : ~ has_substring is_epic_id name.
Hypothesis name_date : first_of_shape dateShape name = None.
Hypothesis name_ends : name <> [] /\ head_ws name = false /\ head_ws (rev name) = false.
Hypothesis id_shape : is_epic_id id.
Hypothesis pf_date : forall j, has_shape dateShape (skipn j pf) = false.
Hypothesis att_date : first_of_shape dateShape att = None.
Hypothesis att_ends : head_ws att = false /\ head_ws (rev att) = false.
Hypothesis date_shape : has_shape dateShape date = true /\ length date = 10.
Hypothesis pcp_payers :
  forallb (fun q => negb (includes pcp q)) INSURANCE_PATTERNS = true.
Hypothesis pcp_ends : pcp <> [] /\ head_ws pcp = false /\ head_ws (rev pcp) = false.
Hypothesis payer_known : In payer INSURANCE_PATTERNS.
Hypothesis disp_known : In disp DISPOSITIONS.

Lemma wf_id_length : length id = 11.
Proof. exact (is_epic_id_length _ id_shape). Qed.

Lemma wf_at_id : skipn (length name + 1) line = r1.
Proof. exact (rh_at_id name id pf r3). Qed.

Lemma wf_after_id : skipn (length name + 12) line = 32%N ::: r2.
Proof. exact (rh_after_id name id pf r3 id_shape). Qed.

Lemma wf_after_phone : skipn (length name + 13 + length pf) line = 32%N ::: r3.
Proof. exact (rh_after_phone name id pf r3 id_shape). Qed.

Lemma wf_pd : pd = length name + 13 + length pf + 1 + length att + 1.
Proof. rewrite wf_id_length. lia. Qed.

Lemma wf_at_date : skipn pd line = r4.
Proof.
  rewrite wf_pd.
  replace (length name + 13 + length pf + 1 + length att + 1)
    with (length name + 13 + length pf + S (length att + 1)) by lia.
  rewrite <- skipn_skipn_add, wf_after_phone. cbn [skipn].
  apply skipn_app_add.
Qed.

Lemma wf_after_date : skipn (pd + 10) line = 32%N ::: r5.
Proof.
  rewrite <- skipn_skipn_add, wf_at_date, <- (proj2 date_shape).
  rewrite <- (Nat.add_0_r (length date)). apply skipn_app_add.
Qed.

Lemma wf_length :
  length line = pd + 10 + 1 + length pcp + 1 + length payer + 1 + length disp.
Proof.
  repeat (rewrite length_app; cbn [length]).
  rewrite (proj2 date_shape). lia.
Qed.

(** The identifier pattern finds [id], right behind the name. *)
Lemma wf_epic :
  exists mt, re_match epicIdRe line = Some mt /\ read 1 mt = OK id /\
             indexOf line id 0 = Z.of_nat (length name + 1).
Proof.
  assert (epic_here (skipn (length name + 1) line) = true) as Hhere.
  { rewrite wf_at_id. apply epic_here_iff. now exists id, (32%N ::: r2). }
  assert (forall j, j < length name + 1 -> epic_here (skipn j line) = false) as Hmin.
  { intros j Hj. rewrite epic_here_shape.
    apply (no_shape_field epicShape name r1 32%N 0);
      [reflexivity | discriminate | now apply no_epic_id_shape | intros; lia | lia]. }
  pose proof (re_match_epicIdRe line) as Hm.
  destruct (re_match epicIdRe line) as [mt|].
  - destruct Hm as (Hh & _ & Hg & Hmt).
    assert (index mt = length name + 1) as Hi.
    { destruct (Nat.lt_trichotomy (index mt) (length name + 1)) as [Hlt | [Heq | Hgt]];
        [|assumption|].
      - rewrite (Hmin _ Hlt) in Hh. discriminate.
      - rewrite (Hmt _ Hgt) in Hhere. discriminate. }
    assert (span line (length name + 1) (length name + 1 + 11) = id) as Hsp.
    { unfold span. rewrite wf_at_id.
      replace (length name + 1 + 11 - (length name + 1)) with (length id)
        by (rewrite wf_id_length; lia).
      rewrite firstn_app, Nat.sub_diag, firstn_all. cbn [firstn]. apply app_nil_r. }
    exists mt. split; [reflexivity|]. rewrite Hi in Hg. rewrite Hsp in Hg.
    split; [unfold read; now rewrite Hg|].
    pose proof (indexOf_epic line _ Hhere Hmin) as Hx. now rewrite Hsp in Hx.
  - exfalso. assert (test epicIdPattern line = true) as Ht; [|congruence].
    apply test_epicIdPattern. exists (name ++ [32%N]), id, (32%N ::: r2).
    split; [now rewrite <- app_assoc | assumption].
Qed.

(** No date stands in front of [date]. *)
Lemma wf_no_date_before (j : nat) :
  j < pd -> has_shape dateShape (skipn j line) = false.
Proof.
  apply (no_shape_field dateShape name r1 32%N);
    [reflexivity | discriminate | now apply first_of_shape_none|].
  apply (no_shape_field dateShape id r2 32%N);
    [reflexivity | discriminate | now apply epic_id_no_date|].
  apply (no_shape_field dateShape pf r3 32%N);
    [reflexivity | discriminate | exact pf_date|].
  apply (no_shape_field dateShape att r4 32%N);
    [reflexivity | discriminate | now apply first_of_shape_none|].
  intros; lia.
Qed.

(** The date pattern finds [date]. *)
Lemma wf_date :
  exists dm, re_match dateRe line = Some dm /\ read 1 dm = OK date /\
             indexOf line date 0 = Z.of_nat pd.
Proof.
  assert (first_of_shape dateShape line = Some date) as Hf.
  { rewrite (first_of_shape_skip dateShape line pd wf_no_date_before).
    rewrite wf_at_date.
    apply first_of_shape_here; [apply date_shape|]. now rewrite (proj2 date_shape). }
  assert (indexOf line date 0 = Z.of_nat pd) as Hidx.
  { apply (indexOf_first line date 0 pd); [lia | |].
    - cbn [Nat.add]. rewrite wf_at_date. apply starts_with_app.
    - intros d Hd. cbn [Nat.add].
      destruct (starts_with date (skipn d line)) eqn:E; [|reflexivity].
      rewrite <- (wf_no_date_before d Hd). symmetry.
      exact (starts_with_shape _ _ _ (proj1 date_shape) E). }
  pose proof (re_match_dateRe line) as Hm. rewrite Hf in Hm.
  destruct (re_match dateRe line) as [dm|]; [|discriminate].
  exists dm. split; [reflexivity|]. split; [unfold read; now rewrite Hm | exact Hidx].
Qed.

Lemma wf_line_end :
  line = (name ++ 32%N ::: id ++ 32%N ::: pf ++ 32%N ::: att ++ 32%N ::: date ++
          32%N ::: pcp ++ 32%N ::: payer ++ [32%N]) ++ disp.
Proof. repeat (rewrite <- app_assoc; cbn [app]). reflexivity. Qed.

Lemma wf_disp_chars :
  disp <> [] /\ head_ws (rev disp) = false /\ eqb disp $"Unknown" = false.
Proof.
  pose proof disp_known as H.
  repeat (destruct H as [<- | H]; [split; [discriminate | split; reflexivity]|]).
  destruct H.
Qed.

Lemma wf_payer_chars :
  payer <> [] /\ head_ws (rev payer) = false /\ eqb payer $"Unknown" = false.
Proof.
  pose proof payer_known as H.
  repeat (destruct H as [<- | H]; [split; [discriminate | split; reflexivity]|]).
  destruct H.
Qed.

Lemma wf_trimmed : trim line = line.
Proof.
  destruct name_ends as (Hne & Hh & _). destruct wf_disp_chars as (Hd & Hl & _).
  apply trim_ends; [now rewrite head_ws_app|].
  rewrite wf_line_end, rev_app_distr, head_ws_app; [assumption|].
  now apply rev_nonempty.
Qed.

(** The disposition is the word the row ends with. *)
Lemma wf_disposition : dispositionOf line = disp.
Proof.
  apply dispositionOf_ends; [exact disp_known|].
  rewrite wf_trimmed. unfold endsWith. rewrite wf_line_end at 1.
  rewrite rev_app_distr. apply starts_with_app.
Qed.

(** The span between the date and the disposition. *)
Lemma wf_pcpAndInsurance :
  pcpAndInsuranceOf line date disp = pcp ++ 32%N ::: payer.
Proof.
  destruct wf_date as (_ & _ & _ & Hidx).
  destruct wf_disp_chars as (Hdne & _ & Hunk).
  destruct wf_payer_chars as (Hpne & Hpl & _).
  unfold pcpAndInsuranceOf. rewrite Hidx, Hunk. cbn [negb].
  assert ((Z.of_nat pd + len date)%Z = Z.of_nat (pd + 10)) as ->
    by (unfold len; rewrite (proj2 date_shape); lia).
  rewrite substring_from_skipn, wf_after_date.
  assert (32%N ::: r5 = (32%N ::: (pcp ++ 32%N ::: payer) ++ [32%N]) ++ disp) as ->
    by (cbn [app]; repeat (rewrite <- app_assoc; cbn [app]); reflexivity).
  unfold lastIndexOf. rewrite (find_last_end disp _ 0 Hdne). cbn [Nat.add].
  rewrite substring_prefix, firstn_app, Nat.sub_diag, firstn_all. cbn [firstn].
  rewrite app_nil_r. apply trim_padded.
  - rewrite head_ws_app; apply pcp_ends.
  - rewrite rev_app_distr. cbn [rev]. rewrite <- app_assoc.
    rewrite head_ws_app; [assumption | now apply rev_nonempty].
Qed.

(** No payer of the vocabulary runs over a space into another one. *)
Lemma payer_straddle (q i : str) (o : nat) :
  In q INSURANCE_PATTERNS -> In i INSURANCE_PATTERNS -> o < length q ->
  starts_with (skipn o q) (32%N ::: i) = false.
Proof.
  intros Hq Hi Ho.
  assert (forallb (fun q' =>
            forallb (fun i' =>
              forallb (fun o' => negb (starts_with (skipn o' q') (32%N ::: i')))
                      (seq 0 (length q')))
              INSURANCE_PATTERNS)
            INSURANCE_PATTERNS = true) as Htable by (vm_compute; reflexivity).
  pose proof (proj1 (forallb_forall _ _) Htable q Hq) as H1. cbn beta in H1.
  pose proof (proj1 (forallb_forall _ _) H1 i Hi) as H2. cbn beta in H2.
  pose proof (proj1 (forallb_forall _ _) H2 o) as H3. cbn beta in H3.
  apply negb_true_iff, H3, in_seq. lia.
Qed.

Lemma find_exists {A : Type} (f : A -> bool) (l : list A) (x : A) :
  In x l -> f x = true -> exists y, find f l = Some y.
Proof.
  intros Hx Hf. destruct (find f l) as [y|] eqn:E; [now exists y|].
  now rewrite (find_none _ _ E x Hx) in Hf.
Qed.

Lemma payers_listed (q : str) : In q payersByLength <-> In q INSURANCE_PATTERNS.
Proof.
  rewrite <- sorted_payers. split; apply Permutation_in;
    [|symmetry]; apply sort_by_length_desc_perm.
Qed.

(** A payer of the vocabulary that occurs in the span occurs in
    [payer]. *)
Lemma wf_payer_inside (q : str) (j : nat) :
  In q INSURANCE_PATTERNS ->
  starts_with q (skipn j (pcp ++ 32%N ::: payer)) = true ->
  length pcp < j /\ starts_with q (skipn (j - length pcp - 1) payer) = true.
Proof.
  intros Hq Hs.
  destruct (Nat.le_gt_cases j (length pcp)) as [Hle | Hgt].
  - exfalso. rewrite skipn_app in Hs. replace (j - length pcp) with 0 in Hs by lia.
    cbn [skipn] in Hs.
    destruct (starts_with_app_cases _ _ _ Hs) as [[_ Hin] | [Hl Hover]].
    + destruct (find_from_occurs q pcp 0 j Hin) as (k & Hk & _).
      pose proof (proj1 (forallb_forall _ _) pcp_payers q Hq) as Hno. cbn beta in Hno.
      unfold includes in Hno. rewrite Hk in Hno. discriminate.
    + now rewrite (payer_straddle q payer _ Hq payer_known Hl) in Hover.
  - split; [assumption|].
    replace j with (length pcp + S (j - length pcp - 1)) in Hs by lia.
    now rewrite skipn_app_add in Hs.
Qed.

(** The splitter finds [payer] and, in front of it, [pcp]. *)
Lemma wf_split :
  splitPcpAndInsurance (pcp ++ 32%N ::: payer) = (Some pcp, payer).
Proof.
  destruct pcp_ends as (Hne & Hh & Hl).
  destruct wf_payer_chars as (Hpne & _ & _).
  set (text := pcp ++ 32%N ::: payer).
  assert (starts_with payer (skipn (length pcp + 1) text) = true) as Hat.
  { unfold text. rewrite skipn_app_add. cbn [skipn].
    rewrite <- (app_nil_r payer) at 2. apply starts_with_app. }
  assert (indexOf text payer 0 = Z.of_nat (length pcp + 1)) as Hidx.
  { apply (indexOf_first text payer 0 (length pcp + 1)); [lia | exact Hat|].
    intros d Hd. cbn [Nat.add].
    destruct (starts_with payer (skipn d text)) eqn:E; [|reflexivity].
    destruct (wf_payer_inside payer d payer_known E) as [Hlt _]. lia. }
  assert (find (fun pattern => (0 <=? indexOf text pattern 0)%Z) payersByLength = Some payer)
    as Hfind.
  { destruct (find_exists (fun pattern => (0 <=? indexOf text pattern 0)%Z)
                payersByLength payer)
      as [p Hp]; [now apply payers_listed | rewrite Hidx; apply Z.leb_le; lia|].
    rewrite Hp. f_equal.
    destruct (find_some _ _ Hp) as [Hin Hocc].
    apply payers_listed in Hin.
    rewrite indexOf_find in Hocc.
    destruct (find_from p text 0) as [j|] eqn:Ej; [|discriminate].
    apply find_from_some in Ej as (_ & Hsj & _). rewrite Nat.sub_0_r in Hsj.
    destruct (wf_payer_inside p j Hin Hsj) as [_ Hinside].
    apply starts_with_iff in Hinside as [post Hpost].
    assert (length p + length post = length payer - (j - length pcp - 1)) as Hlen
      by (rewrite <- length_app, <- Hpost; apply length_skipn).
    destruct (find_sorted_first _ _ _ _ payers_sorted Hp payer)
      as [Heq | Hle];
      [now apply payers_listed | rewrite Hidx; apply Z.leb_le; lia | now symmetry|].
    cbn beta in Hle.
    assert (0 < length payer) as Hpos by (destruct payer; [congruence | cbn; lia]).
    assert (j - length pcp - 1 = 0) as Hz by lia. rewrite Hz in Hpost. cbn [skipn] in Hpost.
    assert (post = []) as -> by (destruct post; [reflexivity | cbn [length] in Hlen; lia]).
    now rewrite app_nil_r in Hpost. }
  unfold splitPcpAndInsurance.
  assert (truthy text = true) as -> by (unfold text; destruct pcp; [congruence | reflexivity]).
  cbn [negb]. rewrite sorted_payers, Hfind. cbn zeta.
  rewrite Hidx, substring_prefix.
  assert (firstn (length pcp + 1) text = pcp ++ 32%N ::: []) as ->.
  { unfold text. rewrite firstn_app, firstn_all2 by lia.
    replace (length pcp + 1 - length pcp) with 1 by lia. reflexivity. }
  rewrite (proj2 (trim_padded pcp Hh Hl)).
  unfold or_null. now destruct pcp; [congruence|].
Qed.

Lemma wf_name : trim (substring line 0 (Z.of_nat (length name + 1))) = name.
Proof.
  rewrite substring_prefix.
  assert (firstn (length name + 1) line = name ++ 32%N ::: []) as ->.
  { rewrite firstn_app, firstn_all2 by lia.
    replace (length name + 1 - length name) with 1 by lia. reflexivity. }
  apply trim_padded; apply name_ends.
Qed.

(** What the phone column gave. *)
Variables (ph : option str) (e : nat) (pc : Q) (fm : rmatch).

Hypothesis pf_found : phoneAfterEpic (32%N ::: r2) = OK (ph, pc, Some fm).
Hypothesis pf_start :
  attendingStartOf line (Z.of_nat (length name + 12)) (Some fm) =
  Z.of_nat (length name + 13 + length pf + e).
Hypothesis pf_e : e <= 1.

(** The attending physician is the text between the phone column and
    the date. *)
Lemma wf_attending :
  trim (substring line (Z.of_nat (length name + 13 + length pf + e)) (Z.of_nat pd)) = att.
Proof.
  rewrite substring_span; [| rewrite wf_pd; lia | rewrite wf_length; lia].
  unfold span.
  replace (pd - (length name + 13 + length pf + e)) with (S (length att + 1) - e)
    by (rewrite wf_pd; lia).
  rewrite <- skipn_skipn_add, wf_after_phone.
  assert (e = 0 \/ e = 1) as [-> | ->] by lia.
  - cbn [skipn Nat.sub firstn]. rewrite firstn_app, firstn_all2 by lia.
    replace (length att + 1 - length att) with 1 by lia. cbn [firstn].
    apply trim_padded; apply att_ends.
  - cbn [skipn]. replace (S (length att + 1) - 1) with (length att + 1) by lia.
    rewrite firstn_app, firstn_all2 by lia.
    replace (length att + 1 - length att) with 1 by lia. cbn [firstn].
    apply trim_padded; apply att_ends.
Qed.

(** The middle section of the row. *)
Lemma wf_middle :
  middleSection line id date disp (Some fm) =
  (att, if includes (toLowerCase pcp) $"missing" then None else Some pcp, payer).
Proof.
  destruct wf_epic as (_ & _ & _ & Hid).
  destruct wf_date as (_ & _ & _ & Hdate).
  unfold middleSection. rewrite Hid, Hdate.
  assert ((Z.of_nat (length name + 1) + len id)%Z = Z.of_nat (length name + 12)) as ->
    by (unfold len; rewrite wf_id_length; lia).
  rewrite pf_start, wf_attending, wf_pcpAndInsurance, wf_split.
  cbn beta iota zeta.
  assert (falsy (Some pcp) = false) as ->
    by (destruct pcp_ends as [Hne _]; destruct pcp; [congruence | reflexivity]).
  reflexivity.
Qed.

(** The row extractor on a well-formed row: every field comes back;
    the confidence is 1 less 0.1 for an absent phone number and 0.1 for
    an absent primary care provider. *)
Lemma wf_row (a p : str) :
  normalizeProviderName att = OK a -> normalizeProviderName pcp = OK p ->
  exists r, parseDischargeRow line = OK r /\
            patientName r = name /\ epicId r = id /\ phoneNumber r = ph /\
            attendingPhysician r = a /\ dischargeDate r = date /\
            primaryCareProvider r =
              (if includes (toLowerCase pcp) $"missing" then None else Some p) /\
            insurance r = payer /\ disposition r = disp /\
            (confidence r ==
             penalty (includes (toLowerCase pcp) $"missing") (1 # 10)
               (penalty (falsy ph) (1 # 10) 1))%Q.
Proof.
  intros Ha Hp.
  destruct wf_epic as (mt & Hm & Hr & Hid).
  destruct wf_date as (dm & Hdm & Hdr & _).
  destruct wf_disp_chars as (Hdne & _ & _).
  destruct wf_payer_chars as (Hpne & _ & Hunk).
  destruct name_ends as (Hnne & _ & _).
  destruct pcp_ends as (Hpcp & Hpcph & Hpcpl).
  assert (p <> []) as Hpn
    by (apply (normalizeProviderName_nonempty pcp p Hpcp); [now apply trim_ends | exact Hp]).
  assert (truthy id = true) as Htid by exact (is_epic_id_truthy _ id_shape).
  assert (truthy date = true) as Htdate
    by (destruct date_shape as [_ Hl]; destruct date; [discriminate Hl | reflexivity]).
  assert (truthy disp = true) as Htdisp by (destruct disp; [congruence | reflexivity]).
  assert (truthy name = true) as Htname by (destruct name; [congruence | reflexivity]).
  assert (truthy pcp = true) as Htpcp by (destruct pcp; [congruence | reflexivity]).
  assert (truthy p = true) as Htp by (destruct p; [congruence | reflexivity]).
  assert (truthy payer = true) as Htpayer by (destruct payer; [congruence | reflexivity]).
  unfold parseDischargeRow. cbv zeta.
  rewrite Hm, Hr. cbn [bind]. rewrite Hdm, Hdr. cbn [bind].
  rewrite Htid, Hid.
  assert ((Z.of_nat (length name + 1) + len id)%Z = Z.of_nat (length name + 12)) as ->
    by (unfold len; rewrite wf_id_length; lia).
  assert ((0 <? Z.of_nat (length name + 12))%Z = true) as -> by (apply Z.ltb_lt; lia).
  rewrite substring_from_skipn, wf_after_id, pf_found. cbn [bind].
  rewrite wf_disposition, wf_name.
  assert (or_else disp $"Unknown" = disp) as -> by (unfold or_else; now rewrite Htdisp).
  assert (or_else name $"Unknown" = name) as -> by (unfold or_else; now rewrite Htname).
  cbn [andb]. rewrite wf_middle. cbn beta iota.
  rewrite Ha. cbn [bind].
  assert (or_else payer $"Unknown" = payer) as Hor by (unfold or_else; now rewrite Htpayer).
  destruct (includes (toLowerCase pcp) $"missing").
  - cbn [bind ret]. eexists. split; [reflexivity|].
    cbn [patientName epicId phoneNumber attendingPhysician dischargeDate
         primaryCareProvider insurance disposition confidence].
    rewrite Hor. repeat (split; [reflexivity|]).
    rewrite Htdisp, Htname, Htdate, Hunk. cbn [negb falsy].
    destruct (falsy ph); vm_compute; reflexivity.
  - rewrite Htpcp, Hp. cbn [bind ret]. eexists. split; [reflexivity|].
    cbn [patientName epicId phoneNumber attendingPhysician dischargeDate
         primaryCareProvider insurance disposition confidence].
    rewrite Hor. repeat (split; [reflexivity|]).
    rewrite Htdisp, Htname, Htdate, Hunk. cbn [negb falsy]. rewrite Htp.
    destruct (falsy ph); vm_compute; reflexivity.
Qed.

End WellFormedRow.



(** A field between two spaces of a single-spaced line is not empty
    and has no white space at its ends. *)
Lemma field_ends (pre x post : str) :
  single_spaced (pre ++ 32%N ::: x ++ 32%N ::: post) = true ->
  x <> [] /\ head_ws x = false /\ head_ws (rev x) = false.
Proof.
  intros H.
  destruct (single_spaced_around _ _ _ H eq_refl) as [_ Hh].
  assert (x <> []) as Hne by (intros ->; discriminate Hh).
  rewrite head_ws_app in Hh by assumption.
  split; [assumption | split; [assumption|]].
  assert (pre ++ 32%N ::: x ++ 32%N ::: post = (pre ++ 32%N ::: x) ++ 32%N ::: post) as E
    by (rewrite <- app_assoc; reflexivity).
  rewrite E in H. destruct (single_spaced_around _ _ _ H eq_refl) as [Hl _].
  rewrite rev_app_distr in Hl. cbn [rev] in Hl. rewrite <- app_assoc in Hl.
  rewrite head_ws_app in Hl; [assumption | now apply rev_nonempty].
Qed.

(** The first field of a trimmed, single-spaced line. *)
Lemma first_field_ends (x post : str) :
  trim (x ++ 32%N ::: post) = x ++ 32%N ::: post ->
  single_spaced (x ++ 32%N ::: post) = true ->
  x <> [] /\ head_ws x = false /\ head_ws (rev x) = false.
Proof.
  intros Ht Hs. destruct (trimmed_ends _ Ht) as [Hh _].
  assert (x <> []) as Hne by (intros ->; discriminate Hh).
  rewrite head_ws_app in Hh by assumption.
  split; [assumption | split; [assumption|]].
  exact (proj1 (single_spaced_around _ _ _ Hs eq_refl)).
Qed.

(** A cleaned line with an identifier has its record. *)
Lemma line_record (text : str) (res : ParseResult) (l : str) :
  parseDischargeText text = OK res -> In l (linesOf text) ->
  test epicIdPattern l = true ->
  exists r, In r (records res) /\ rawText r = l /\ parseDischargeRow l = OK r.
Proof.
  intros H Hl Ht.
  assert (In l (map rawText (records res))) as Hin
    by (rewrite (records_rawText _ _ H); apply filter_In; auto).
  apply in_map_iff in Hin as (r & Hr & Hin).
  exists r. split; [assumption | split; [assumption|]].
  rewrite <- Hr. now destruct (record_line _ _ _ H Hin) as (_ & _ & Hrow).
Qed.

(* ================================================================== *)
(** ** Line by line *)
(* ================================================================== *)

Lemma split_lines_app (a b : str) :
  split_lines (a ++ 10%N ::: b) = split_lines a ++ split_lines b.
Proof.
  induction a as [|c a IH]; [reflexivity|].
  cbn [app split_lines]. rewrite IH.
  destruct (N.eqb c 10); [reflexivity|].
  destruct (split_lines a) as [|l ls] eqn:E; [|reflexivity].
  destruct a as [|x a']; [discriminate E|]. cbn [split_lines] in E.
  destruct (N.eqb x 10); [discriminate E|].
  destruct (split_lines a'); discriminate E.
Qed.

Lemma linesOf_app (a b : str) :
  linesOf (a ++ 10%N ::: b) = linesOf a ++ linesOf b.
Proof. unfold linesOf. now rewrite split_lines_app, map_app, filter_app. Qed.

Lemma Forall2_unique {A B : Type} (f : A -> exn B) (l : list A) (bs bs' : list B) :
  Forall2 (fun a b => f a = OK b) l bs -> Forall2 (fun a b => f a = OK b) l bs' ->
  bs = bs'.
Proof.
  intros H. revert bs'. induction H as [|a b l bs Hab _ IH]; intros bs' H'.
  - now inversion H'.
  - inversion H' as [|a' b' l' bs'' Hab' Hrest]; subst.
    rewrite Hab in Hab'. apply OK_inj in Hab'. subst b'. f_equal. now apply IH.
Qed.

(* ================================================================== *)
(** ** The name normalizer, applied twice *)
(* ================================================================== *)

(** *** The first result of a greedy quantifier *)

Lemma m_plus_greedy (input : str) (p : char -> bool) (r : regex)
    (st res : mstate) :
  1 <= run p (skipn (fst st) input) ->
  hd_error (m r input (fst st + run p (skipn (fst st) input), snd st)) = Some res ->
  hd_error (m (Seq (plus p) r) input st) = Some res.
Proof.
  intros H1 H. rewrite m_seq_eq. unfold plus. cbn [m]. unfold counts.
  set (a := run p (skipn (fst st) input)) in *.
  assert ((a <? 1) = false) as -> by (apply Nat.ltb_ge; lia).
  rewrite seq_S, rev_app_distr. cbn [rev app map flat_map].
  replace (1 + (a - 1)) with a by lia.
  now apply hd_error_app.
Qed.

Lemma m_plus_greedy_grp (input : str) (p : char -> bool) (k : nat) (r : regex)
    (st res : mstate) :
  1 <= run p (skipn (fst st) input) ->
  hd_error (m r input
              (fst st + run p (skipn (fst st) input),
               (k, span input (fst st) (fst st + run p (skipn (fst st) input)))
                 :: snd st)) = Some res ->
  hd_error (m (Seq (Grp k (plus p)) r) input st) = Some res.
Proof.
  intros H1 H. rewrite m_seq_eq, m_grp_eq. unfold plus. cbn [m]. unfold counts.
  set (a := run p (skipn (fst st) input)) in *.
  assert ((a <? 1) = false) as -> by (apply Nat.ltb_ge; lia).
  rewrite seq_S, rev_app_distr. cbn [rev app map flat_map fst snd].
  replace (1 + (a - 1)) with a by lia.
  now apply hd_error_app.
Qed.

Lemma m_plus_none (input : str) (p : char -> bool) (r : regex) (st : mstate) :
  run p (skipn (fst st) input) = 0 -> m (Seq (plus p) r) input st = [].
Proof. intros H. rewrite m_seq_eq. unfold plus. cbn [m]. now rewrite H. Qed.

Lemma m_bol_zero (input : str) (r : regex) (c : caps) :
  m (Seq Bol r) input (0, c) = m r input (0, c) ++ [].
Proof. reflexivity. Qed.

(** The credential of the wrong-order pattern is the one alternative
    after which the rest of the pattern matches. *)
Lemma m_credential (input : str) (r : regex) (st res : mstate) (tok : str) :
  In tok wrongOrderTokens ->
  starts_with_i tok (skipn (fst st) input) = true ->
  (forall tok', In tok' wrongOrderTokens ->
     starts_with_i tok' (skipn (fst st) input) = true -> tok' <> tok ->
     m r input (fst st + length tok',
                (2, span input (fst st) (fst st + length tok')) :: snd st) = []) ->
  hd_error (m r input (fst st + length tok,
                       (2, span input (fst st) (fst st + length tok)) :: snd st))
    = Some res ->
  hd_error
    (m (Seq (Grp 2 (alts (chars_i $"MD")
                      [chars_i $"DO"; chars_i $"PA"; chars_i $"NP";
                       chars_i $"PA-C"; chars_i $"RN"; chars_i $"BSN"])) r)
       input st) = Some res.
Proof.
  intros Hin Hs Hothers H.
  rewrite m_seq_eq, m_grp_eq, m_wrongOrder_alts.
  revert Hin Hothers. generalize wrongOrderTokens as l.
  induction l as [|a l IH]; intros Hin Hothers; [destruct Hin|].
  cbn [flat_map]. rewrite map_app, flat_map_app.
  destruct (list_eq_dec N.eq_dec a tok) as [->|Hne].
  - rewrite Hs. cbn [map flat_map fst snd].
    apply hd_error_app. now apply hd_error_app.
  - assert (In tok l) as Hin' by (destruct Hin as [E|Hin]; [congruence | assumption]).
    assert (forall tok', In tok' l ->
              starts_with_i tok' (skipn (fst st) input) = true -> tok' <> tok ->
              m r input (fst st + length tok',
                         (2, span input (fst st) (fst st + length tok')) :: snd st) = [])
      as Hothers' by (intros tok' Ht; apply Hothers; now right).
    destruct (starts_with_i a (skipn (fst st) input)) eqn:Ea.
    + cbn [map flat_map fst snd].
      rewrite (Hothers a (or_introl eq_refl) Ea Hne). cbn [app]. now apply IH.
    + cbn [map flat_map app]. now apply IH.
Qed.

(** *** White space and credentials *)

Lemma run_prefix_head_ws (a b : str) :
  forallb is_space a = true -> head_ws b = false -> run is_space (a ++ b) = length a.
Proof.
  intros Ha Hb. induction a as [|x a IH]; cbn [app run length].
  - now apply run_head_ws.
  - cbn [forallb] in Ha. apply andb_true_iff in Ha as [-> Ha]. now rewrite IH.
Qed.

Lemma head_ws_not_space (a : str) :
  forallb (fun x => negb (is_space x)) a = true -> head_ws a = false.
Proof.
  destruct a as [|x a]; [reflexivity|]. cbn [forallb head_ws].
  intros H. apply andb_true_iff in H as [H _]. now apply negb_true_iff in H.
Qed.

Lemma head_ws_space (a : str) :
  a <> [] -> forallb is_space a = true -> head_ws a = true.
Proof.
  destruct a as [|x a]; [congruence|]. cbn [forallb head_ws].
  intros _ H. now apply andb_true_iff in H as [H _].
Qed.

Lemma map_fixed {A : Type} (f : A -> A) (l : list A) (x : A) :
  map f l = l -> In x l -> f x = x.
Proof.
  induction l as [|a l IH]; cbn [map In]; [intros _ []|].
  intros H Hx. injection H as Ha Hl.
  destruct Hx as [<-|Hx]; [exact Ha | now apply IH].
Qed.

(** No character of a credential is a white space, letter case apart. *)
Lemma wrongOrderToken_not_ws (tok : str) (c : char) :
  In tok wrongOrderTokens -> is_space c = true ->
  forallb (fun x => negb (ci x c)) tok = true.
Proof.
  intros Hin Hc. apply forallb_forall. intros x Hx.
  destruct (wrongOrderToken_chars _ Hin) as (_ & Hsp & _).
  destruct (wrongOrderToken_last _ Hin) as [Hcanon _].
  pose proof (proj1 (forallb_forall _ _) Hsp x Hx) as Hx'. cbn beta in Hx'.
  apply negb_true_iff in Hx'. apply negb_true_iff.
  unfold ci. rewrite (canon_space _ Hc), (map_fixed canon tok x Hcanon Hx).
  apply N.eqb_neq. intros E. rewrite E in Hc. congruence.
Qed.

(** The last character of a text, seen from its end. *)
Lemma last_ws_app (a b : str) : b <> [] -> head_ws (rev (a ++ b)) = head_ws (rev b).
Proof.
  intros H. rewrite rev_app_distr. apply head_ws_app. now apply rev_nonempty.
Qed.

Lemma last_ws_space (a : str) :
  a <> [] -> forallb is_space a = true -> head_ws (rev a) = true.
Proof.
  intros Hne Ha. apply head_ws_space; [now apply rev_nonempty|].
  apply forallb_forall. intros x Hx. apply in_rev in Hx.
  exact (proj1 (forallb_forall _ _) Ha x Hx).
Qed.

Lemma last_ws_credential (C : str) :
  In (toUpperCase C) wrongOrderTokens -> head_ws (rev C) = false.
Proof.
  intros H. destruct (credential_chars _ H) as [_ Hsp].
  apply head_ws_not_space. apply forallb_forall. intros x Hx. apply in_rev in Hx.
  exact (proj1 (forallb_forall _ _) Hsp x Hx).
Qed.

Lemma toUpperCase_idem (s : str) : toUpperCase (toUpperCase s) = toUpperCase s.
Proof.
  unfold toUpperCase. rewrite map_map. apply map_ext. exact canon_idem.
Qed.

(** What starts with a word, letter case apart, is that word in some
    letter case and a rest. *)
Lemma starts_with_i_split (w s : str) :
  starts_with_i w s = true ->
  exists c rest, s = c ++ rest /\ length c = length w /\
                 toUpperCase c = toUpperCase w.
Proof.
  intros H. exists (firstn (length w) s), (skipn (length w) s).
  split; [symmetry; apply firstn_skipn|].
  split; [|exact (starts_with_i_canon _ _ H)].
  apply firstn_length_le.
  clear -H. revert s H. induction w as [|a w IH]; intros s H; [cbn; lia|].
  destruct s as [|b s]; [discriminate|]. cbn [starts_with_i] in H.
  apply andb_true_iff in H as [_ H]. cbn [length]. apply IH in H. lia.
Qed.

(** Two texts without a comma in front of a comma. *)
Lemma first_comma (a b x y : str) :
  forallb (fun c => negb (N.eqb c 44)) a = true ->
  forallb (fun c => negb (N.eqb c 44)) b = true ->
  a ++ 44%N ::: x = b ++ 44%N ::: y -> a = b /\ x = y.
Proof.
  revert b. induction a as [|c a IH]; intros [|d b] Ha Hb E; cbn [app] in E.
  - inversion E. auto.
  - inversion E as [[E1 E2]]. subst d. cbn [forallb] in Hb.
    rewrite N.eqb_refl in Hb. discriminate.
  - inversion E as [[E1 E2]]. subst c. cbn [forallb] in Ha.
    rewrite N.eqb_refl in Ha. discriminate.
  - inversion E as [[E1 E2]]. subst d. cbn [forallb] in Ha, Hb.
    apply andb_true_iff in Ha as [_ Ha]. apply andb_true_iff in Hb as [_ Hb].
    destruct (IH b Ha Hb E2) as [-> ->]. auto.
Qed.

(** *** The wrong-order pattern and the wrong-order shape *)

(** On a text of the wrong-order shape the pattern captures the surname,
    the credential and the given name. *)
Lemma re_match_wrong_order (t L C G : str) :
  wrong_order t L C G ->
  exists mt, re_match wrongOrderRe t = Some mt /\
             group 1 mt = Some L /\ group 2 mt = Some C /\ group 3 mt = Some G.
Proof.
  intros (w1 & w2 & -> & HL & Hcomma & Hw1 & Hs1 & HC & Hw2 & Hs2 & HG & HhG & HdG).
  destruct (credential_chars _ HC) as [HCne HCsp].
  set (tl3 := w2 ++ G).
  set (tl2 := C ++ tl3).
  set (tl1 := 44%N ::: w1 ++ tl2).
  change (L ++ $"," ++ w1 ++ tl2) with (L ++ tl1).
  set (line := L ++ tl1).
  assert (forall k, skipn (length L + k) line = skipn k tl1) as Hsk1
    by (intros k; apply skipn_app_add).
  assert (forall k, skipn (length L + 1 + length w1 + k) line = skipn k tl2) as Hsk2.
  { intros k. rewrite <- !Nat.add_assoc, Hsk1. cbn [Nat.add]. unfold tl1.
    cbn [skipn]. apply skipn_app_add. }
  assert (forall k, skipn (length L + 1 + length w1 + length C + k) line = skipn k tl3)
    as Hsk3.
  { intros k. rewrite <- Nat.add_assoc, Hsk2. apply skipn_app_add. }
  assert (forall k, skipn (length L + 1 + length w1 + length C + length w2 + k) line
                    = skipn k G) as Hsk4.
  { intros k. rewrite <- Nat.add_assoc, Hsk3. apply skipn_app_add. }
  assert (head_ws tl2 = false) as Hh2.
  { unfold tl2. rewrite head_ws_app by assumption. now apply head_ws_not_space. }
  assert (head_ws tl3 = true) as Hh3.
  { unfold tl3. rewrite head_ws_app by assumption. now apply head_ws_space. }
  assert (run is_space (w1 ++ tl2) = length w1) as Hr1
    by now apply run_prefix_head_ws.
  assert (run is_space tl3 = length w2) as Hr3
    by now apply run_prefix_head_ws.
  assert (1 <= length L) as HlL by (destruct L; [congruence | cbn [length]; lia]).
  assert (1 <= length w1) as Hlw1 by (destruct w1; [congruence | cbn [length]; lia]).
  assert (1 <= length w2) as Hlw2 by (destruct w2; [congruence | cbn [length]; lia]).
  assert (forallb (fun c => negb (ci 44%N c)) L = true) as Hnc.
  { apply forallb_forall. intros x Hx. rewrite ci_comma.
    exact (proj1 (forallb_forall _ _) Hcomma x Hx). }
  assert (run (fun c => negb (ci 44%N c)) line = length L) as Hr0
    by (unfold line, tl1; apply run_prefix_stop; [exact Hnc | reflexivity]).
  change wrongOrderRe with
    (Seq Bol
       (Seq (Grp 1 (plus (fun c => negb (ci 44%N c))))
          (Seq (chars_i $",")
             (Seq (plus is_space)
                (Seq (Grp 2 (alts (chars_i $"MD")
                               [chars_i $"DO"; chars_i $"PA"; chars_i $"NP";
                                chars_i $"PA-C"; chars_i $"RN"; chars_i $"BSN"]))
                   (Seq (plus is_space)
                      (Seq (Grp 3 (plus dot)) (Seq Eol Eps)))))))).
  rewrite re_match_anchored.
  set (R3 := Seq (Grp 3 (plus dot)) (Seq Eol Eps)).
  set (p2 := length L + 1 + length w1).
  assert (skipn p2 line = tl2) as Hp2
    by (unfold p2; rewrite <- (Nat.add_0_r (_ + length w1)), Hsk2; reflexivity).
  assert (skipn (p2 + length C) line = tl3) as Hp3
    by (unfold p2; rewrite <- (Nat.add_0_r (_ + length C)), Hsk3; reflexivity).
  assert (skipn (p2 + length C + length w2) line = G) as Hp4
    by (unfold p2; rewrite <- (Nat.add_0_r (_ + length w2)), Hsk4; reflexivity).
  (* the given name *)
  assert (forall c,
            hd_error (m (Seq (plus is_space) R3) line (p2 + length C, c)) =
            Some (length line, (3, G) :: c)) as E3.
  { intros c. apply m_plus_greedy; cbn [fst snd]; rewrite Hp3, Hr3; [lia|].
    unfold R3. rewrite m_rest_of_line; cbn [fst snd]; rewrite Hp4;
      [reflexivity | assumption | assumption]. }
  (* the credential *)
  assert (forall c,
            hd_error
              (m (Seq (Grp 2 (alts (chars_i $"MD")
                                [chars_i $"DO"; chars_i $"PA"; chars_i $"NP";
                                 chars_i $"PA-C"; chars_i $"RN"; chars_i $"BSN"]))
                    (Seq (plus is_space) R3)) line (p2, c)) =
            Some (length line, (3, G) :: (2, C) :: c)) as E2.
  { intros c.
    apply (m_credential line _ (p2, c) _ (toUpperCase C)); cbn [fst snd];
      [assumption | rewrite Hp2; apply starts_with_i_upper | |].
    - intros tok' Hin' Hs' Hne. apply m_plus_none. cbn [fst].
      unfold p2. rewrite Hsk2. fold p2. rewrite Hp2 in Hs'. unfold tl2 in Hs' |- *.
      destruct (starts_with_i_app _ _ _ Hs') as [[Hle HsC] | [Hlt Hover]].
      + destruct (Nat.eq_dec (length tok') (length C)) as [Heq|Hneq].
        * exfalso. apply Hne.
          pose proof (starts_with_i_canon _ _ HsC) as Hcan.
          rewrite Heq, firstn_all in Hcan.
          destruct (wrongOrderToken_last _ Hin') as [Hfix _].
          unfold toUpperCase. now rewrite Hcan.
        * destruct (skipn_inside C tl3 (length tok') ltac:(lia)) as (x & t & Hx & -> & _).
          pose proof (proj1 (forallb_forall _ _) HCsp x Hx) as Hx'. cbn beta in Hx'.
          apply negb_true_iff in Hx'. cbn [run]. now rewrite Hx'.
      + exfalso. unfold tl3 in Hs'. destruct w2 as [|x w2]; [congruence|].
        cbn [forallb] in Hs2. apply andb_true_iff in Hs2 as [Hx _].
        cbn [app] in Hs'.
        rewrite (starts_with_i_over tok' C (w2 ++ G) x
                   (wrongOrderToken_not_ws _ _ Hin' Hx) Hlt) in Hs'.
        discriminate.
    - unfold toUpperCase. rewrite length_map.
      assert (span line p2 (p2 + length C) = C) as ->.
      { unfold span. rewrite Hp2. unfold tl2.
        replace (p2 + length C - p2) with (length C) by lia.
        rewrite firstn_app, Nat.sub_diag, firstn_all. cbn [firstn]. apply app_nil_r. }
      apply E3. }
  (* the white space, the comma and the surname *)
  assert (forall c,
            hd_error
              (m (Seq (plus is_space)
                    (Seq (Grp 2 (alts (chars_i $"MD")
                                   [chars_i $"DO"; chars_i $"PA"; chars_i $"NP";
                                    chars_i $"PA-C"; chars_i $"RN"; chars_i $"BSN"]))
                       (Seq (plus is_space) R3))) line (length L + 1, c)) =
            Some (length line, (3, G) :: (2, C) :: c)) as E1.
  { intros c.
    assert (skipn (length L + 1) line = w1 ++ tl2) as Hp1
      by (rewrite Hsk1; reflexivity).
    apply m_plus_greedy; cbn [fst snd]; rewrite Hp1, Hr1; [lia | apply E2]. }
  assert (hd_error (m (Seq Bol
       (Seq (Grp 1 (plus (fun c => negb (ci 44%N c))))
          (Seq (chars_i $",")
             (Seq (plus is_space)
                (Seq (Grp 2 (alts (chars_i $"MD")
                               [chars_i $"DO"; chars_i $"PA"; chars_i $"NP";
                                chars_i $"PA-C"; chars_i $"RN"; chars_i $"BSN"]))
                   (Seq (plus is_space) R3)))))) line (0, [])) =
          Some (length line, [(3, G); (2, C); (1, L)])) as E0.
  { rewrite m_bol_zero. apply hd_error_app.
    apply m_plus_greedy_grp; cbn [fst snd skipn Nat.add]; rewrite Hr0; [lia|].
    assert (span line 0 (length L) = L) as ->.
    { unfold span, line. rewrite Nat.sub_0_r. cbn [skipn].
      rewrite firstn_app, Nat.sub_diag, firstn_all. cbn [firstn]. apply app_nil_r. }
    rewrite m_seq_eq, m_chars_i. cbn [fst snd].
    rewrite <- (Nat.add_0_r (length L)) at 1. rewrite Hsk1. cbn [skipn].
    assert (starts_with_i $"," tl1 = true) as -> by reflexivity.
    cbn [flat_map]. apply hd_error_app. change (length $",") with 1. apply E1. }
  unfold exec.
  destruct (m _ line (0, [])) as [|st l]; [discriminate|].
  cbn [hd_error] in E0. inversion E0; subst st.
  eexists. split; [reflexivity|]. unfold group. cbn [groups lookup Nat.eqb]. auto.
Qed.

Lemma skipn_app_len (a b : str) : skipn (length a) (a ++ b) = b.
Proof. rewrite <- (Nat.add_0_r (length a)). apply skipn_app_add. Qed.

Lemma last_ws_cons (c : char) (b : str) :
  b <> [] -> head_ws (rev (c :: b)) = head_ws (rev b).
Proof. intros H. exact (last_ws_app [c] b H). Qed.

Local Ltac skip_to H :=
  rewrite <- ?Nat.add_assoc in H;
  repeat first [ rewrite skipn_app_add in H
               | rewrite skipn_app_len in H
               | progress cbn [Nat.add skipn] in H ].

(** A trimmed text the wrong-order pattern matches is of the wrong-order
    shape. *)
Lemma wrong_order_of_match (t : str) :
  trim t = t -> test wrongOrderRe t = true -> exists L C G, wrong_order t L C G.
Proof.
  intros Ht H. destruct (trimmed_ends _ Ht) as [_ Hlast]. clear Ht.
  unfold test in H.
  destruct (re_match wrongOrderRe t) as [mt|] eqn:E; [clear H | discriminate].
  revert E.
  change wrongOrderRe with
    (Seq Bol
       (Seq (Grp 1 (plus (fun c => negb (ci 44%N c))))
          (Seq (chars_i $",")
             (Seq (plus is_space)
                (Seq (Grp 2 (alts (chars_i $"MD")
                               [chars_i $"DO"; chars_i $"PA"; chars_i $"NP";
                                chars_i $"PA-C"; chars_i $"RN"; chars_i $"BSN"]))
                   (Seq (plus is_space)
                      (Seq (Grp 3 (plus dot)) (Seq Eol Eps)))))))).
  rewrite re_match_anchored. intros H.
  apply exec_some in H as (_ & _ & H).
  destruct mt as [ix sp wh gs]. cbn [stop groups] in *.
  (* the surname *)
  apply in_m_seq in H as (st0 & H0 & H). apply in_m_bol in H0 as [_ ->].
  apply in_m_seq in H as (st1 & H1 & H).
  apply in_m_grp in H1 as (st1' & H1 & ->).
  apply in_m_rep in H1 as (n & -> & [Hn1 Hn2] & _). cbn [fst snd Nat.add skipn] in *.
  apply run_ge in Hn2 as (L & post0 & -> & HlL & HL). subst n.
  (* the comma *)
  apply in_m_seq in H as (st2 & H2 & H).
  rewrite m_chars_i in H2. apply in_singleton_if in H2 as [Hc ->]. cbn [fst snd] in *.
  skip_to Hc. destruct post0 as [|x post1]; [discriminate|].
  change ($",") with [44%N] in Hc. cbn [starts_with_i] in Hc.
  rewrite andb_true_r, ci_comma in Hc. apply N.eqb_eq in Hc. subst x.
  change (length $",") with 1 in H.
  (* white space *)
  apply in_m_seq in H as (st3 & H3 & H).
  apply in_m_rep in H3 as (n3 & -> & [Hn31 Hn32] & _). cbn [fst snd] in *.
  skip_to Hn32.
  apply run_ge in Hn32 as (w1 & post2 & -> & Hlw1 & Hs1). subst n3.
  (* the credential *)
  apply in_m_seq in H as (st4 & H4 & H).
  apply in_m_grp in H4 as (st4' & H4 & ->).
  rewrite m_wrongOrder_alts in H4.
  apply in_flat_map in H4 as (tok & Htok & H4).
  apply in_singleton_if in H4 as [Hs ->]. cbn [fst snd] in *.
  skip_to Hs.
  apply starts_with_i_split in Hs as (C & post3 & -> & HlC & HuC).
  rewrite <- HlC in H.
  assert (toUpperCase C = tok) as HC.
  { rewrite HuC. unfold toUpperCase. now destruct (wrongOrderToken_last _ Htok). }
  (* white space *)
  apply in_m_seq in H as (st5 & H5 & H).
  apply in_m_rep in H5 as (n5 & -> & [Hn51 Hn52] & _). cbn [fst snd] in *.
  skip_to Hn52.
  apply run_ge in Hn52 as (w2 & post4 & -> & Hlw2 & Hs2). subst n5.
  (* the given name *)
  apply in_m_seq in H as (st6 & H6 & H).
  apply in_m_grp in H6 as (st6' & H6 & ->).
  apply in_m_rep in H6 as (n6 & -> & [Hn61 Hn62] & _). cbn [fst snd] in *.
  skip_to Hn62.
  apply run_ge in Hn62 as (d3 & post5 & -> & Hld3 & Hd3). subst n6.
  apply in_m_seq in H as (st7 & H7 & H).
  apply in_m_eol in H7 as [He _]. cbn [fst snd] in He. clear H.
  assert (post5 = []) as ->.
  { rewrite length_app in He. cbn [length] in He. rewrite !length_app in He.
    destruct post5; [reflexivity | cbn [length] in He; lia]. }
  rewrite app_nil_r in Hlast.
  assert (d3 <> []) as Hd3ne by (intros ->; cbn [length] in Hn61; lia).
  assert (head_ws (rev d3) = false) as Hl3.
  { rewrite last_ws_app, last_ws_cons, !last_ws_app in Hlast;
      try assumption; try discriminate.
    - intros E. apply app_eq_nil in E as [_ E]. now apply Hd3ne.
    - intros E. apply app_eq_nil in E as [_ E]. apply app_eq_nil in E as [_ E].
      now apply Hd3ne.
    - intros E. apply app_eq_nil in E as [_ E]. apply app_eq_nil in E as [_ E].
      apply app_eq_nil in E as [_ E]. now apply Hd3ne. }
  destruct (dropWhile_suffix is_space d3) as (pre & Ed & Hpre).
  exists L, C, (dropWhile is_space d3). exists w1, (w2 ++ pre).
  split.
  { change ($",") with [44%N]. cbn [app]. rewrite <- app_assoc, <- Ed, app_nil_r.
    reflexivity. }
  split; [intros ->; cbn [length] in Hn1; lia|].
  split.
  { apply forallb_forall. intros x Hx. rewrite <- ci_comma.
    exact (proj1 (forallb_forall _ _) HL x Hx). }
  split; [intros ->; cbn [length] in Hn31; lia|].
  split; [assumption|].
  split; [rewrite HC; assumption|].
  split; [intros E; apply app_eq_nil in E as [-> _]; cbn [length] in Hn51; lia|].
  split; [rewrite forallb_app, Hs2, Hpre; reflexivity|].
  split.
  { intros E. rewrite E, app_nil_r in Ed. subst pre.
    now rewrite (last_ws_space _ Hd3ne Hpre) in Hl3. }
  split.
  { destruct (dropWhile_cases is_space d3) as [-> | (c & r & -> & Hc)];
      [reflexivity | exact Hc]. }
  rewrite Ed, forallb_app in Hd3. now apply andb_true_iff in Hd3 as [_ Hd3].
Qed.

(** *** The two passes *)

Lemma wrongOrderToken_dots (tok : str) :
  In tok wrongOrderTokens -> forallb dot tok = true.
Proof.
  intros H. repeat (destruct H as [<- | H]; [reflexivity|]). destruct H.
Qed.

(** On a name of the wrong-order shape the normalizer puts the
    credential, in upper case, behind the given name. *)
Lemma normalizeProviderName_wrong_order (s L C G : str) :
  wrong_order (trim s) L C G ->
  normalizeProviderName s = OK (L ++ $", " ++ G ++ $" " ++ toUpperCase C).
Proof.
  intros H. destruct (re_match_wrong_order _ _ _ _ H) as (mt & Hm & H1 & H2 & H3).
  unfold normalizeProviderName.
  destruct s as [|c s'].
  - exfalso. destruct H as (w1 & w2 & E & HL & _).
    change (trim []) with (@nil char) in E. destruct L; [congruence | discriminate E].
  - cbn [truthy negb]. rewrite Hm. unfold read. rewrite H1, H2, H3. reflexivity.
Qed.

Section SecondPass.

Variables L C G : str.
Hypothesis HL : L <> [].
Hypothesis HhL : head_ws L = false.
Hypothesis Hcomma : forallb (fun c => negb (N.eqb c 44)) L = true.
Hypothesis HC : In (toUpperCase C) wrongOrderTokens.
Hypothesis HG : G <> [].
Hypothesis HhG : head_ws G = false.
Hypothesis HdG : forallb dot G = true.

(** What the first pass leaves behind the comma, and what it returns. *)
Local Abbreviation given := (G ++ $" " ++ toUpperCase C).
Local Abbreviation once := (L ++ $", " ++ G ++ $" " ++ toUpperCase C).

Lemma given_head : head_ws given = false.
Proof. now rewrite head_ws_app. Qed.

Lemma given_last : head_ws (rev given) = false.
Proof.
  change given with (G ++ 32%N ::: toUpperCase C).
  destruct (wrongOrderToken_chars _ HC) as (Hne & _).
  rewrite last_ws_app, last_ws_cons by (assumption || discriminate).
  apply last_ws_credential. now rewrite toUpperCase_idem.
Qed.

Lemma given_dots : forallb dot given = true.
Proof.
  change given with (G ++ 32%N ::: toUpperCase C).
  rewrite forallb_app, HdG. cbn [forallb andb].
  change (dot 32%N) with true. cbn [andb]. now apply wrongOrderToken_dots.
Qed.

Lemma once_trimmed : trim once = once.
Proof.
  apply trim_ends; [now rewrite head_ws_app|].
  change once with (L ++ 44%N ::: 32%N ::: given).
  assert (given <> []) as Hne by (destruct G; [congruence | discriminate]).
  rewrite last_ws_app, !last_ws_cons by (assumption || discriminate).
  exact given_last.
Qed.

(** No credential at the start of what follows the comma: the second
    pass changes nothing. *)
Lemma second_pass_none :
  credentialLed given = None -> normalizeProviderName once = OK once.
Proof.
  intros Hnone. apply normalizeProviderName_fixed; [exact once_trimmed|].
  destruct (test wrongOrderRe once) eqn:E; [exfalso | reflexivity].
  destruct (wrong_order_of_match _ once_trimmed E)
    as (L' & C' & G' & w1 & w2 & Eo & HL' & Hc' & Hw1 & Hs1 & HC' & Hw2 & Hs2 & _).
  change (L ++ 44%N ::: 32%N ::: given = L' ++ 44%N ::: w1 ++ C' ++ w2 ++ G') in Eo.
  destruct (first_comma _ _ _ _ Hcomma Hc' Eo) as [_ Ex].
  destruct w1 as [|y w1]; [congruence|]. cbn [app] in Ex. injection Ex as _ Ex.
  change (G ++ 32%N ::: toUpperCase C) with given in Ex.
  destruct w1 as [|z w1].
  - cbn [app] in Ex. unfold credentialLed in Hnone.
    pose proof (find_none _ _ Hnone (toUpperCase C') HC') as Hf. cbn beta in Hf.
    rewrite Ex, starts_with_i_upper in Hf. unfold toUpperCase in Hf.
    rewrite length_map, skipn_app_len, head_ws_app in Hf by assumption.
    now rewrite (head_ws_space _ Hw2 Hs2) in Hf.
  - pose proof given_head as Hh. rewrite Ex in Hh. cbn [app head_ws] in Hh.
    cbn [forallb] in Hs1. apply andb_true_iff in Hs1 as [_ Hs1].
    apply andb_true_iff in Hs1 as [Hz _]. congruence.
Qed.

(** A credential at the start of what follows the comma: the second
    pass moves it behind the rest. *)
Lemma second_pass_some (tok : str) :
  credentialLed given = Some tok ->
  normalizeProviderName once =
  OK (L ++ $", " ++ dropWhile is_space (skipn (length tok) given) ++ $" " ++ tok).
Proof.
  intros Hsome. unfold credentialLed in Hsome.
  apply find_some in Hsome as [Hin Hf]. apply andb_true_iff in Hf as [Hs Hws].
  destruct (dropWhile_suffix is_space (skipn (length tok) given)) as (w & Ew & Hw).
  set (r := dropWhile is_space (skipn (length tok) given)) in *.
  set (c := firstn (length tok) given).
  assert (given = c ++ w ++ r) as Ex
    by (rewrite <- Ew; symmetry; apply firstn_skipn).
  assert (toUpperCase c = tok) as Hc.
  { unfold toUpperCase, c. rewrite (starts_with_i_canon _ _ Hs).
    now destruct (wrongOrderToken_last _ Hin). }
  assert (head_ws r = false) as Hhr.
  { unfold r. destruct (dropWhile_cases is_space (skipn (length tok) given))
      as [-> | (x & t & -> & Hx)]; [reflexivity | exact Hx]. }
  assert (w <> []) as Hwne.
  { intros ->. cbn [app] in Ew. rewrite Ew in Hws. congruence. }
  assert (r <> []) as Hrne.
  { intros Er. pose proof given_last as Hl. rewrite Ex, Er, app_nil_r in Hl.
    rewrite last_ws_app in Hl by assumption.
    now rewrite (last_ws_space _ Hwne Hw) in Hl. }
  assert (forallb dot r = true) as Hdr.
  { pose proof (forallb_skipn dot (length tok) _ given_dots) as H.
    rewrite Ew, forallb_app in H. now apply andb_true_iff in H as [_ H]. }
  assert (wrong_order (trim once) L c r) as Hshape.
  { rewrite once_trimmed. exists ($" "), w.
    split; [rewrite Ex; reflexivity|].
    split; [assumption|]. split; [assumption|].
    split; [discriminate|]. split; [reflexivity|].
    split; [rewrite Hc; assumption|].
    repeat (split; [assumption|]). assumption. }
  rewrite (normalizeProviderName_wrong_order _ _ _ _ Hshape), Hc. reflexivity.
Qed.

End SecondPass.

(** Of a text of the wrong-order shape that is trimmed, the surname
    starts with no white space. *)
Lemma wrong_order_head (t L C G : str) :
  trim t = t -> wrong_order t L C G -> head_ws L = false.
Proof.
  intros Ht (w1 & w2 & E & HL & _). destruct (trimmed_ends _ Ht) as [Hh _].
  rewrite E in Hh. now rewrite head_ws_app in Hh.
Qed.

(* ================================================================== *)
(** ** The name normalizer, applied twice: the claim *)
(* ================================================================== *)

(** C8, amended. What a second pass of the name normalizer does, by the
    trimmed input [trim s] of the first. (1) When the wrong-order
    pattern does not match it, the first pass returns [trim s] and the
    second pass returns the same. (2) When the pattern matches it,
    [trim s] reads [L, C G]: a surname [L] that is not empty and holds
    no comma, a comma, white space, a credential [C] (MD, DO, PA, NP,
    PA-C, RN, BSN in any letter case), white space, and a given name
    [G] that is not empty, starts with no white space and holds no line
    terminator. (3) On such an input the first pass returns
    [L, G C'], where [C'] is [C] in upper case. If no credential
    followed by a white space stands at the start of [G C'], the
    second pass returns the same, and the normalizer is idempotent
    there. If the credential [tok] does, the second pass returns
    [L, R tok], where [R] is what follows [tok] and the white space
    behind it in [G C']; that is the result of the first pass exactly
    when [R tok] is [G C'] again. *)
Theorem C8_normalizer_twice :
  (forall s,
     test wrongOrderRe (trim s) = false ->
     normalizeProviderName s = OK (trim s) /\
     normalizeProviderName (trim s) = OK (trim s)) /\
  (forall s,
     test wrongOrderRe (trim s) = true ->
     exists L C G, wrong_order (trim s) L C G) /\
  (forall s L C G,
     wrong_order (trim s) L C G ->
     let x := G ++ $" " ++ toUpperCase C in
     let once := L ++ $", " ++ x in
     normalizeProviderName s = OK once /\
     (credentialLed x = None -> normalizeProviderName once = OK once) /\
     (forall tok,
        credentialLed x = Some tok ->
        let twice :=
          L ++ $", " ++ dropWhile is_space (skipn (length tok) x) ++ $" " ++ tok in
        normalizeProviderName once = OK twice /\
        (twice = once <->
         dropWhile is_space (skipn (length tok) x) ++ $" " ++ tok = x))).
Proof.
  split; [|split].
  - intros s Hn. split.
    + unfold normalizeProviderName.
      destruct s as [|c s']; [reflexivity|]. cbn [truthy negb].
      now rewrite (test_false _ _ Hn).
    + apply normalizeProviderName_fixed; [apply trim_idem | assumption].
  - intros s Hm. exact (wrong_order_of_match _ (trim_idem s) Hm).
  - intros s L C G Hshape x once.
    pose proof (wrong_order_head _ _ _ _ (trim_idem s) Hshape) as HhL.
    pose proof (normalizeProviderName_wrong_order _ _ _ _ Hshape) as H1.
    destruct Hshape as (w1 & w2 & _ & HL & Hcomma & _ & _ & HC & _ & _ & HG & HhG & HdG).
    split; [exact H1|]. split.
    + exact (second_pass_none L C G HL HhL Hcomma HC HG HhG HdG).
    + intros tok Htok twice. split.
      * exact (second_pass_some L C G HL HhL Hcomma HC HG HhG HdG tok Htok).
      * unfold twice, once. split.
        -- intros E. apply app_inv_head in E. now apply app_inv_head in E.
        -- intros E. now rewrite E.
Qed.

Lemma C8_normalizer_twice_witness :
  (normalizeProviderName $"Sloan, Mark MD" = OK $"Sloan, Mark MD" /\
   normalizeProviderName $"Sloan, Mark MD" = OK $"Sloan, Mark MD") /\
  (exists L C G, wrong_order $"A, MD  MD" L C G) /\
  (normalizeProviderName $" Sloan,  md   Mark " = OK $"Sloan, Mark MD" /\
   normalizeProviderName $"Sloan, Mark MD" = OK $"Sloan, Mark MD") /\
  (normalizeProviderName $"A, MD PA B" = OK $"A, PA B MD" /\
   normalizeProviderName $"A, PA B MD" = OK $"A, B MD PA") /\
  (normalizeProviderName $"A, MD MD" = OK $"A, MD MD" /\
   normalizeProviderName $"A, MD MD" = OK $"A, MD MD").
Proof.
  destruct C8_normalizer_twice as (Hno & Hyes & Hshape).
  split; [exact (Hno ($"Sloan, Mark MD") eq_refl)|].
  split; [exact (Hyes ($"A, MD  MD") eq_refl)|].
  split; [|split].
  - assert (wrong_order (trim $" Sloan,  md   Mark ") ($"Sloan") ($"md") ($"Mark"))
      as Hw.
    { exists ($"  "), ($"   "). vm_compute.
      repeat split; try discriminate. auto 10. }
    destruct (Hshape _ _ _ _ Hw) as (H1 & H2 & _).
    split; [exact H1 | exact (H2 eq_refl)].
  - assert (wrong_order (trim $"A, MD PA B") ($"A") ($"MD") ($"PA B")) as Hw.
    { exists ($" "), ($" "). vm_compute.
      repeat split; try discriminate. auto 10. }
    destruct (Hshape _ _ _ _ Hw) as (H1 & _ & H3).
    split; [exact H1 | exact (proj1 (H3 ($"PA") eq_refl))].
  - assert (wrong_order (trim $"A, MD MD") ($"A") ($"MD") ($"MD")) as Hw.
    { exists ($" "), ($" "). vm_compute.
      repeat split; try discriminate. auto 10. }
    destruct (Hshape _ _ _ _ Hw) as (H1 & _ & H3).
    split; [exact H1 | exact (proj1 (H3 ($"MD") eq_refl))].
Defined.

(* ================================================================== *)
(** ** Further properties, stated *)
(* ================================================================== *)

(** X2. Phone format: every phone number of a record of
    [parseDischargeText] is twelve characters of the form
    [NNN-NNN-NNNN]. *)
Theorem X2_phone_format (text : str) (res : ParseResult) (r : ParsedDischarge) (p : str) :
  parseDischargeText text = OK res -> In r (records res) ->
  phoneNumber r = Some p ->
  has_shape phoneShape p = true /\ length p = 12.
Proof.
  intros H Hin Hp. destruct (record_line _ _ _ H Hin) as (_ & Ht & Hrow).
  destruct (row_phone _ _ Hrow Ht) as (_ & Hph).
  rewrite Hph in Hp. exact (phoneSpec_shape _ _ Hp).
Qed.

Lemma X2_phone_format_witness :
  exists res r p,
    parseDischargeText $"Bacon, Chris P.EP0012376544047271234Manning, Steward Wallace PA07-04-2023Sloan, MD Mark Self PaySNF"
      = OK res /\
    In r (records res) /\ phoneNumber r = Some p /\
    has_shape phoneShape p = true /\ length p = 12.
Proof.
  destruct (parseDischargeText $"Bacon, Chris P.EP0012376544047271234Manning, Steward Wallace PA07-04-2023Sloan, MD Mark Self PaySNF")
    as [res|] eqn:E; [|vm_compute in E; discriminate].
  destruct (records res) as [|r rs] eqn:Er;
    [vm_compute in E; inversion E; subst res; discriminate Er|].
  destruct (phoneNumber r) as [p|] eqn:Ep;
    [|vm_compute in E; inversion E; subst res; inversion Er; subst r; discriminate Ep].
  exists res, r, p.
  assert (In r (records res)) as Hin by (rewrite Er; now left).
  split; [reflexivity | split; [assumption | split; [assumption|]]].
  exact (X2_phone_format _ res r p E Hin Ep).
Defined.

(** X3. Name span: the leftmost identifier cuts the line of a record
    in three, the text in front of it holds no identifier, and the
    patient name is that text trimmed, or ["Unknown"] when nothing is
    left; the name is never empty and has no white space at its
    ends. *)
Theorem X3_name_span (text : str) (res : ParseResult) (r : ParsedDischarge) :
  parseDischargeText text = OK res -> In r (records res) ->
  rawText r = nameSpanOf (rawText r) ++ epicId r ++ afterEpicOf (rawText r) /\
  ~ has_substring is_epic_id (nameSpanOf (rawText r)) /\
  patientName r = or_else (trim (nameSpanOf (rawText r))) $"Unknown" /\
  patientName r <> [] /\ trim (patientName r) = patientName r.
Proof.
  intros H Hin. destruct (record_line _ _ _ H Hin) as (_ & Ht & Hrow).
  destruct (row_fields _ _ Hrow Ht) as (mt & Hm & Hid & Hname & _ & _).
  destruct (line_parts _ Ht) as (mt' & Hm' & _ & Hline & _ & Hlen & Hmin).
  rewrite Hm in Hm'. inversion Hm'; subst mt'. clear Hm'.
  split; [now rewrite Hid|].
  split.
  { intros (pre & id & post & Hn & Hepic).
    assert (length pre < index mt) as Hlt.
    { rewrite <- Hlen, Hn, !length_app.
      rewrite (is_epic_id_length _ Hepic). lia. }
    specialize (Hmin _ Hlt).
    assert (epic_here (skipn (length pre) (rawText r)) = true) as Hc.
    { apply epic_here_iff.
      exists id, (post ++ span (rawText r) (index mt) (index mt + 11) ++ afterEpicOf (rawText r)).
      split; [|assumption].
      rewrite Hline at 1. rewrite Hn, <- !app_assoc.
      rewrite skipn_app, skipn_all, Nat.sub_diag. reflexivity. }
    congruence. }
  split; [assumption|].
  rewrite Hname. unfold or_else.
  destruct (trim (nameSpanOf (rawText r))) as [|c t] eqn:E; cbn [truthy].
  - split; [discriminate | reflexivity].
  - split; [discriminate|]. rewrite <- E. apply trim_idem.
Qed.

Lemma X3_name_span_witness :
  exists res r,
    parseDischargeText $"Smith, Robert EP987654321 404-555-1234 Yang, Cristina DO 01-15-2025 (missing) Aetna Health SNF"
      = OK res /\
    In r (records res) /\ patientName r = $"Smith, Robert".
Proof.
  destruct (parseDischargeText $"Smith, Robert EP987654321 404-555-1234 Yang, Cristina DO 01-15-2025 (missing) Aetna Health SNF")
    as [res|] eqn:E; [|vm_compute in E; discriminate].
  destruct (records res) as [|r rs] eqn:Er;
    [vm_compute in E; inversion E; subst res; discriminate Er|].
  exists res, r.
  assert (In r (records res)) as Hin by (rewrite Er; now left).
  split; [reflexivity | split; [assumption|]].
  destruct (X3_name_span _ res r E Hin) as (_ & _ & -> & _).
  assert (rawText r =
    $"Smith, Robert EP987654321 404-555-1234 Yang, Cristina DO 01-15-2025 (missing) Aetna Health SNF")
    as -> by (vm_compute in E; inversion E; subst res; inversion Er; reflexivity).
  vm_compute. reflexivity.
Defined.

(** X4. Date extraction: the date of a record is the leftmost text of
    the form [NN-NN-NNNN] of its whole line, and the empty string when
    the line has none; a date that is not empty is ten characters of
    that form. *)
Theorem X4_date (text : str) (res : ParseResult) (r : ParsedDischarge) :
  parseDischargeText text = OK res -> In r (records res) ->
  dischargeDate r =
    match first_of_shape dateShape (rawText r) with
    | Some d => d
    | None => []
    end /\
  (dischargeDate r = [] \/
   has_shape dateShape (dischargeDate r) = true /\ length (dischargeDate r) = 10).
Proof.
  intros H Hin. destruct (record_line _ _ _ H Hin) as (_ & Ht & Hrow).
  destruct (row_fields _ _ Hrow Ht) as (mt & _ & _ & _ & _ & Hdate).
  assert (dischargeDate r =
          match first_of_shape dateShape (rawText r) with
          | Some d => d
          | None => []
          end) as Hd.
  { rewrite Hdate, <- re_match_dateRe. now destruct (re_match dateRe (rawText r)). }
  split; [assumption|]. rewrite Hd.
  destruct (first_of_shape dateShape (rawText r)) as [d|] eqn:E; [|now left].
  right. now destruct (first_of_shape_some _ _ _ E) as (H1 & H2 & _).
Qed.

Lemma X4_date_witness :
  exists res r,
    parseDischargeText $"Doe, JohnEP12345678901-01-2024Home" = OK res /\
    In r (records res) /\ dischargeDate r = $"01-01-2024".
Proof.
  destruct (parseDischargeText $"Doe, JohnEP12345678901-01-2024Home")
    as [res|] eqn:E; [|vm_compute in E; discriminate].
  destruct (records res) as [|r rs] eqn:Er;
    [vm_compute in E; inversion E; subst res; discriminate Er|].
  exists res, r.
  assert (In r (records res)) as Hin by (rewrite Er; now left).
  split; [reflexivity | split; [assumption|]].
  destruct (X4_date _ res r E Hin) as (-> & _).
  assert (rawText r = $"Doe, JohnEP12345678901-01-2024Home")
    as -> by (vm_compute in E; inversion E; subst res; inversion Er; reflexivity).
  vm_compute. reflexivity.
Defined.

(** X5. Disposition by suffix: a record whose line ends with a known
    disposition has that disposition, whatever the order of the list,
    and its disposition is ["Unknown"] exactly when the line ends with
    none of them. *)
Theorem X5_disposition_suffix (text : str) (res : ParseResult) (r : ParsedDischarge) :
  parseDischargeText text = OK res -> In r (records res) ->
  (forall d, In d DISPOSITIONS -> endsWith (rawText r) d = true -> disposition r = d) /\
  (disposition r = $"Unknown" <->
   forall d, In d DISPOSITIONS -> endsWith (rawText r) d = false).
Proof.
  intros H Hin. destruct (record_line _ _ _ H Hin) as (Hl & Ht & Hrow).
  destruct (row_fields _ _ Hrow Ht) as (mt & _ & _ & _ & Hdisp & _).
  destruct (linesOf_trimmed _ _ Hl) as [_ Htrim].
  assert (forall d, In d DISPOSITIONS -> truthy d = true /\ d <> $"Unknown") as Hv.
  { intros d Hd.
    repeat (destruct Hd as [<- | Hd]; [split; [reflexivity | discriminate]|]).
    destruct Hd. }
  split.
  - intros d Hd He. rewrite Hdisp, (dispositionOf_ends _ d Hd); [|now rewrite Htrim].
    unfold or_else. now rewrite (proj1 (Hv d Hd)).
  - rewrite Hdisp. unfold dispositionOf. rewrite Htrim.
    destruct (find (fun disp => endsWith (rawText r) disp) DISPOSITIONS) as [d|] eqn:E.
    + apply find_some in E as [Hd He]. unfold or_else. rewrite (proj1 (Hv d Hd)).
      split; [intros Hu; now destruct (proj2 (Hv d Hd))|].
      intros Hall. rewrite (Hall d Hd) in He. discriminate.
    + split; [intros _ d Hd; exact (find_none _ _ E d Hd) | reflexivity].
Qed.

Lemma X5_disposition_suffix_witness :
  exists res r,
    parseDischargeText $"Test, PatientEP00000000101-01-2024Hospice" = OK res /\
    In r (records res) /\ In $"Hospice" DISPOSITIONS /\
    endsWith (rawText r) $"Hospice" = true /\ disposition r = $"Hospice".
Proof.
  destruct (parseDischargeText $"Test, PatientEP00000000101-01-2024Hospice")
    as [res|] eqn:E; [|vm_compute in E; discriminate].
  destruct (records res) as [|r rs] eqn:Er;
    [vm_compute in E; inversion E; subst res; discriminate Er|].
  exists res, r.
  assert (In r (records res)) as Hin by (rewrite Er; now left).
  assert (In $"Hospice" DISPOSITIONS) as Hd by (do 5 right; now left).
  assert (endsWith (rawText r) $"Hospice" = true) as He
    by (vm_compute in E; inversion E; subst res; inversion Er; reflexivity).
  split; [reflexivity | split; [assumption | split; [assumption | split; [assumption|]]]].
  exact (proj1 (X5_disposition_suffix _ res r E Hin) _ Hd He).
Defined.

(** X6. Longest payer: when an entry of the payer vocabulary occurs in
    the span given to [splitPcpAndInsurance], the payer returned is an
    entry of the vocabulary that occurs in the span, and no entry that
    occurs in it is longer. *)
Theorem X6_longest_payer (text q : str) :
  In q INSURANCE_PATTERNS -> includes text q = true ->
  In (snd (splitPcpAndInsurance text)) INSURANCE_PATTERNS /\
  includes text (snd (splitPcpAndInsurance text)) = true /\
  length q <= length (snd (splitPcpAndInsurance text)).
Proof.
  intros Hq Hinc. unfold splitPcpAndInsurance.
  destruct text as [|c t].
  { exfalso. revert Hinc. clear - Hq.
    repeat (destruct Hq as [<- | Hq]; [discriminate|]). destruct Hq. }
  cbn [truthy negb]. rewrite sorted_payers.
  rewrite (find_pointwise _ (includes (c :: t)) _ (indexOf_includes (c :: t))).
  assert (In q payersByLength) as Hq'.
  { rewrite <- sorted_payers.
    eapply Permutation_in; [symmetry; apply sort_by_length_desc_perm | exact Hq]. }
  destruct (find (includes (c :: t)) payersByLength) as [p|] eqn:E.
  - cbn [snd]. pose proof (find_some _ _ E) as [Hp Hpi].
    split; [|split; [assumption|]].
    + rewrite <- sorted_payers in Hp.
      eapply Permutation_in; [apply sort_by_length_desc_perm | exact Hp].
    + destruct (find_sorted_first _ _ _ _ payers_sorted E q Hq' Hinc) as [-> | Hl];
        [apply Nat.le_refl | exact Hl].
  - rewrite (find_none _ _ E q Hq') in Hinc. discriminate.
Qed.

Lemma X6_longest_payer_witness :
  In $"Aetna" INSURANCE_PATTERNS /\
  includes $"Webber, Richard MDAetna Health" $"Aetna" = true /\
  snd (splitPcpAndInsurance $"Webber, Richard MDAetna Health") = $"Aetna Health" /\
  length $"Aetna" <= length (snd (splitPcpAndInsurance $"Webber, Richard MDAetna Health")).
Proof.
  assert (In $"Aetna" INSURANCE_PATTERNS) as Hq by (do 2 right; now left).
  assert (includes $"Webber, Richard MDAetna Health" $"Aetna" = true) as Hi
    by reflexivity.
  split; [assumption | split; [assumption | split; [reflexivity|]]].
  exact (proj2 (proj2 (X6_longest_payer _ _ Hq Hi))).
Defined.

(** X7. Providers: for every record of [parseDischargeText] the
    attending physician has no white space at its ends, and the primary
    care provider is absent or a text that is not empty and has no
    white space at its ends; it is never the empty string. *)
Theorem X7_providers (text : str) (res : ParseResult) (r : ParsedDischarge) :
  parseDischargeText text = OK res -> In r (records res) ->
  trim (attendingPhysician r) = attendingPhysician r /\
  primaryCareProvider r <> Some [] /\
  forall p, primaryCareProvider r = Some p -> trim p = p.
Proof.
  intros H Hin. destruct (record_line _ _ _ H Hin) as (_ & _ & Hrow).
  destruct (row_providers _ _ Hrow) as [Ha Hp].
  split; [assumption | split].
  - intros E. now destruct (Hp [] E).
  - intros p E. now destruct (Hp p E).
Qed.

Lemma X7_providers_witness :
  exists res r,
    parseDischargeText $"Johnson, Sarah EP123456789 555-867-5309 Sloan, MD Mark 01-15-2025 Grey, Meredith MD BCBS Home"
      = OK res /\
    In r (records res) /\
    trim (attendingPhysician r) = attendingPhysician r /\
    primaryCareProvider r <> Some [].
Proof.
  destruct (parseDischargeText $"Johnson, Sarah EP123456789 555-867-5309 Sloan, MD Mark 01-15-2025 Grey, Meredith MD BCBS Home")
    as [res|] eqn:E; [|vm_compute in E; discriminate].
  destruct (records res) as [|r rs] eqn:Er;
    [vm_compute in E; inversion E; subst res; discriminate Er|].
  exists res, r.
  assert (In r (records res)) as Hin by (rewrite Er; now left).
  split; [reflexivity | split; [assumption|]].
  destruct (X7_providers _ res r E Hin) as (Ha & Hp & _). now split.
Defined.

(** X8. Confidence of a dated record: for every record of
    [parseDischargeText] whose date is not empty, the payer is the one
    [splitPcpAndInsurance] finds in the trimmed span between the date
    and the disposition, and the confidence is exactly 1 less 0.1 for
    an unrecognized disposition, 0.2 for a missing name, 0.1 for an
    absent phone, 0.1 for an absent primary care provider and 0.1 for
    the payer ["Unknown"]. *)
Theorem X8_dated_confidence (text : str) (res : ParseResult) (r : ParsedDischarge) :
  parseDischargeText text = OK res -> In r (records res) ->
  dischargeDate r <> [] ->
  insurance r =
    snd (splitPcpAndInsurance
           (pcpAndInsuranceOf (rawText r) (dischargeDate r) (disposition r))) /\
  (confidence r == scheduleOf r)%Q.
Proof.
  intros H Hin Hd. destruct (record_line _ _ _ H Hin) as (_ & Ht & Hrow).
  exact (row_dated _ _ Hrow Ht Hd).
Qed.

Lemma X8_dated_confidence_witness :
  exists res r,
    parseDischargeText $"Test, PatientEP00000000101-01-2024SomePlace" = OK res /\
    In r (records res) /\ dischargeDate r <> [] /\
    (confidence r == scheduleOf r)%Q.
Proof.
  destruct (parseDischargeText $"Test, PatientEP00000000101-01-2024SomePlace")
    as [res|] eqn:E; [|vm_compute in E; discriminate].
  destruct (records res) as [|r rs] eqn:Er;
    [vm_compute in E; inversion E; subst res; discriminate Er|].
  exists res, r.
  assert (In r (records res)) as Hin by (rewrite Er; now left).
  assert (dischargeDate r <> []) as Hd
    by (vm_compute in E; inversion E; subst res; inversion Er; discriminate).
  split; [reflexivity | split; [assumption | split; [assumption|]]].
  exact (proj2 (X8_dated_confidence _ res r E Hin Hd)).
Defined.

(** X9. Line cleaning: the text kept in every record of
    [parseDischargeText] is not empty, has no white space at its ends,
    holds no line feed and no [|] delimiter, and nowhere two white
    space characters side by side. *)
Theorem X9_clean_record_text (text : str) (res : ParseResult) (r : ParsedDischarge) :
  parseDischargeText text = OK res -> In r (records res) ->
  rawText r <> [] /\ trim (rawText r) = rawText r /\
  forallb plain (rawText r) = true /\ single_spaced (rawText r) = true.
Proof.
  intros H Hin. destruct (record_line _ _ _ H Hin) as (Hl & _ & _).
  unfold linesOf in Hl. apply filter_In in Hl as [Hl Hne].
  apply in_map_iff in Hl as (raw & Hraw & Hsplit).
  rewrite <- Hraw in Hne |- *.
  split; [intros E; rewrite E in Hne; discriminate|].
  split; [unfold cleanLine; apply trim_idem|].
  split; [|apply cleanLine_single_spaced].
  apply cleanLine_plain.
  pose proof (split_lines_plain text) as Hall. rewrite Forall_forall in Hall.
  exact (Hall _ Hsplit).
Qed.

Lemma X9_clean_record_text_witness :
  exists res r,
    parseDischargeText $"Johnson, Sarah  |  EP123456789 |555-867-5309|  Sloan, Mark MD   01-15-2025 | BCBS |Home  "
      = OK res /\
    In r (records res) /\
    forallb plain (rawText r) = true /\ single_spaced (rawText r) = true.
Proof.
  destruct (parseDischargeText $"Johnson, Sarah  |  EP123456789 |555-867-5309|  Sloan, Mark MD   01-15-2025 | BCBS |Home  ")
    as [res|] eqn:E; [|vm_compute in E; discriminate].
  destruct (records res) as [|r rs] eqn:Er;
    [vm_compute in E; inversion E; subst res; discriminate Er|].
  exists res, r.
  assert (In r (records res)) as Hin by (rewrite Er; now left).
  split; [reflexivity | split; [assumption|]].
  exact (proj2 (proj2 (X9_clean_record_text _ res r E Hin))).
Defined.

(** X10. Round trip through the kept text: parsing the text kept in a
    record of [parseDischargeText] succeeds and yields that record and
    no other. *)
Theorem X10_reparse (text : str) (res : ParseResult) (r : ParsedDischarge) :
  parseDischargeText text = OK res -> In r (records res) ->
  exists res', parseDischargeText (rawText r) = OK res' /\ records res' = [r].
Proof.
  intros H Hin. destruct (record_line _ _ _ H Hin) as (Hl & Ht & Hrow).
  destruct (linesOf_clean _ _ Hl) as (Hne & Htr & Hp & Hs).
  unfold parseDischargeText.
  rewrite (linesOf_fixed _ Hne Htr Hp Hs).
  destruct (headerOf_total [rawText r]) as [h ->].
  cbn [bind filter]. rewrite Ht. cbn [mapM]. rewrite Hrow. cbn [bind ret].
  eexists. split; reflexivity.
Qed.

Lemma X10_reparse_witness :
  exists res r res',
    parseDischargeText $"Sacred Heart Hospital Discharges for 01-15-2025
Johnson, Sarah | EP123456789 | 555-867-5309 | Sloan, Mark MD | 01-15-2025 | Grey, Meredith MD | BCBS | Home"
      = OK res /\
    In r (records res) /\
    parseDischargeText (rawText r) = OK res' /\ records res' = [r].
Proof.
  destruct (parseDischargeText $"Sacred Heart Hospital Discharges for 01-15-2025
Johnson, Sarah | EP123456789 | 555-867-5309 | Sloan, Mark MD | 01-15-2025 | Grey, Meredith MD | BCBS | Home")
    as [res|] eqn:E; [|vm_compute in E; discriminate].
  destruct (records res) as [|r rs] eqn:Er;
    [vm_compute in E; inversion E; subst res; discriminate Er|].
  assert (In r (records res)) as Hin by (rewrite Er; now left).
  destruct (X10_reparse _ res r E Hin) as (res' & H1 & H2).
  exists res, r, res'.
  split; [reflexivity | split; [assumption | split; assumption]].
Defined.

(** X11. Header: when the first cleaned line that mentions both
    [hospital] and [discharges] is written [F Discharges for D], where
    [F] does not hold the word [Discharges] in any letter case and
    neither [F] nor [D] holds a line terminator, the result of
    [parseDischargeText] has the hospital name [F] and the report date
    [D]. *)
Theorem X11_header (text : str) (res : ParseResult) (F D : str) :
  parseDischargeText text = OK res ->
  find isHeaderLine (linesOf text) = Some (F ++ $" Discharges for " ++ D) ->
  occurs_i $"Discharges" F = false ->
  forallb dot F = true -> forallb dot D = true ->
  hospitalName res = F /\ reportDate res = D.
Proof.
  unfold parseDischargeText. intros H Hfind Ho HdF HdD.
  rewrite (headerOf_found _ _ _ Hfind Ho HdF HdD) in H. cbn [bind] in H.
  apply bind_ok in H as (rs & _ & H).
  apply OK_inj in H. subst res. split; reflexivity.
Qed.

Lemma X11_header_witness :
  exists res,
    parseDischargeText $"  Sacred Heart Hospital   Discharges for 01-15-2025
Johnson, Sarah | EP123456789 | 555-867-5309 | Sloan, Mark MD | 01-15-2025 | Grey, Meredith MD | BCBS | Home"
      = OK res /\
    hospitalName res = $"Sacred Heart Hospital" /\ reportDate res = $"01-15-2025".
Proof.
  destruct (parseDischargeText $"  Sacred Heart Hospital   Discharges for 01-15-2025
Johnson, Sarah | EP123456789 | 555-867-5309 | Sloan, Mark MD | 01-15-2025 | Grey, Meredith MD | BCBS | Home")
    as [res|] eqn:E; [|vm_compute in E; discriminate].
  exists res. split; [reflexivity|].
  apply (X11_header _ res ($"Sacred Heart Hospital") ($"01-15-2025") E);
    vm_compute; reflexivity.
Defined.

(** X12. Credential placement: on a name written [L, C G], where the
    surname [L] is not empty, holds no comma and has no white space at
    its ends, [C] is one of the credentials MD, DO, PA, NP, PA-C, RN,
    BSN in any letter case, and the given name [G] is not empty, holds
    no line terminator and has no white space at its ends,
    [normalizeProviderName] returns [L, G C] with the credential in
    upper case. *)
Theorem X12_credential_moved (L C G : str) :
  L <> [] -> trim L = L -> forallb (fun c => negb (N.eqb c 44)) L = true ->
  In (toUpperCase C) wrongOrderTokens ->
  G <> [] -> trim G = G -> forallb dot G = true ->
  normalizeProviderName (L ++ $", " ++ C ++ $" " ++ G) =
  OK (L ++ $", " ++ G ++ $" " ++ toUpperCase C).
Proof.
  intros HL HtL Hcomma HC HG HtG HdG.
  destruct (trimmed_ends _ HtL) as [HhL _].
  destruct (trimmed_ends _ HtG) as [HhG HlG].
  destruct (re_match_wrongOrder L C G HL Hcomma HC HG HhG HdG)
    as (mt & Hm & H1 & H2 & H3).
  assert (trim (L ++ $", " ++ C ++ $" " ++ G) = L ++ $", " ++ C ++ $" " ++ G) as Ht.
  { apply trim_ends; [now rewrite head_ws_app|].
    rewrite !app_assoc, rev_app_distr.
    rewrite head_ws_app by now apply rev_nonempty. exact HlG. }
  unfold normalizeProviderName.
  assert (truthy (L ++ $", " ++ C ++ $" " ++ G) = true) as ->
    by (destruct L; [congruence | reflexivity]).
  cbn [negb]. rewrite Ht, Hm. unfold read. rewrite H1, H2, H3. reflexivity.
Qed.

Lemma X12_credential_moved_witness :
  normalizeProviderName $"Sloan, md Mark" = OK $"Sloan, Mark MD".
Proof.
  apply (X12_credential_moved ($"Sloan") ($"md") ($"Mark"));
    solve [discriminate | vm_compute; reflexivity | vm_compute; auto 10].
Defined.

(** X13. A well-formed row: let a cleaned line of the input read
    [name id pf att date pcp payer disp], the eight columns one space
    apart, where [id] is an identifier, the phone column [pf] is a
    number written [NNN-NNN-NNNN], ten raw digits or the placeholder
    [(missing)], [date] is written [NN-NN-NNNN], [payer] is an entry of
    the payer vocabulary and [disp] one of the dispositions; where
    [name] holds no identifier, neither [name] nor [att] holds a date,
    and [pcp] holds no entry of the payer vocabulary. Then
    [parseDischargeText] has a record of that line with exactly these
    fields: the phone number the column stands for (raw digits
    formatted, none for the placeholder), the two provider names as
    [normalizeProviderName] returns them, no primary care provider when
    [pcp] mentions [missing] in any letter case; the confidence is 1
    less 0.1 for an absent phone number and 0.1 for an absent primary
    care provider. *)
Theorem X13_row_round_trip (text : str) (res : ParseResult)
    (name id pf att date pcp payer disp a p : str) (ph : option str) :
  parseDischargeText text = OK res ->
  In (name ++ $" " ++ id ++ $" " ++ pf ++ $" " ++ att ++ $" " ++ date ++ $" " ++
      pcp ++ $" " ++ payer ++ $" " ++ disp) (linesOf text) ->
  ~ has_substring is_epic_id name -> first_of_shape dateShape name = None ->
  is_epic_id id ->
  phone_field pf ph ->
  first_of_shape dateShape att = None -> normalizeProviderName att = OK a ->
  has_shape dateShape date = true -> length date = 10 ->
  forallb (fun q => negb (includes pcp q)) INSURANCE_PATTERNS = true ->
  normalizeProviderName pcp = OK p ->
  In payer INSURANCE_PATTERNS -> In disp DISPOSITIONS ->
  exists r,
    In r (records res) /\
    rawText r = name ++ $" " ++ id ++ $" " ++ pf ++ $" " ++ att ++ $" " ++ date ++
                $" " ++ pcp ++ $" " ++ payer ++ $" " ++ disp /\
    patientName r = name /\ epicId r = id /\ phoneNumber r = ph /\
    attendingPhysician r = a /\ dischargeDate r = date /\
    primaryCareProvider r =
      (if includes (toLowerCase pcp) $"missing" then None else Some p) /\
    insurance r = payer /\ disposition r = disp /\
    (confidence r ==
     penalty (includes (toLowerCase pcp) $"missing") (1 # 10)
       (penalty (match ph with Some _ => false | None => true end) (1 # 10) 1))%Q.
Proof.
  intros H Hl Hnid Hnd Hid Hpf Had Ha Hd Hdl Hpp Hp Hpay Hdisp.
  set (line := name ++ $" " ++ id ++ $" " ++ pf ++ $" " ++ att ++ $" " ++ date ++
               $" " ++ pcp ++ $" " ++ payer ++ $" " ++ disp) in *.
  destruct (linesOf_clean _ _ Hl) as (_ & Htr & _ & Hss).
  assert (name <> [] /\ head_ws name = false /\ head_ws (rev name) = false) as Hname
    by exact (first_field_ends name _ Htr Hss).
  assert (att <> [] /\ head_ws att = false /\ head_ws (rev att) = false) as Hatt.
  { apply (field_ends (name ++ $" " ++ id ++ $" " ++ pf) att
             (date ++ $" " ++ pcp ++ $" " ++ payer ++ $" " ++ disp)).
    match goal with |- single_spaced ?t = true => replace t with line; [exact Hss|] end.
    unfold line. repeat (rewrite <- app_assoc; cbn [app]). reflexivity. }
  assert (pcp <> [] /\ head_ws pcp = false /\ head_ws (rev pcp) = false) as Hpcp.
  { apply (field_ends (name ++ $" " ++ id ++ $" " ++ pf ++ $" " ++ att ++ $" " ++ date)
             pcp (payer ++ $" " ++ disp)).
    match goal with |- single_spaced ?t = true => replace t with line; [exact Hss|] end.
    unfold line. repeat (rewrite <- app_assoc; cbn [app]). reflexivity. }
  destruct (phone_field_found name id pf
              (att ++ $" " ++ date ++ $" " ++ pcp ++ $" " ++ payer ++ $" " ++ disp)
              ph Hid Hpf) as (e & pc & fm & He & Hfound & Hstart);
    [rewrite head_ws_app; [apply Hatt | apply Hatt]|].
  destruct (wf_row name id pf att date pcp payer disp Hnid Hnd Hname Hid
              (phone_field_no_date _ _ Hpf) Had (proj2 Hatt) (conj Hd Hdl) Hpp Hpcp
              Hpay Hdisp ph e pc fm Hfound Hstart He a p Ha Hp)
    as (r0 & Hrow & Hfields).
  rewrite (phone_field_falsy _ _ Hpf) in Hfields.
  assert (test epicIdPattern line = true) as Ht.
  { apply test_epicIdPattern. exists (name ++ $" "), id, ($" " ++ pf ++ $" " ++ att ++
      $" " ++ date ++ $" " ++ pcp ++ $" " ++ payer ++ $" " ++ disp).
    split; [unfold line; now rewrite <- app_assoc | assumption]. }
  destruct (line_record _ _ _ H Hl Ht) as (r & Hin & Hraw & Hr).
  assert (r = r0) as -> by (apply OK_inj; rewrite <- Hr; exact Hrow).
  exists r0. split; [assumption | split; assumption].
Qed.

Lemma X13_row_round_trip_witness :
  exists res r,
    parseDischargeText $"Sacred Heart Hospital Discharges for 01-15-2025
Johnson, Sarah EP123456789 555-867-5309 Sloan, MD Mark 01-15-2025 Grey, Meredith MD BCBS Home
Smith, Robert EP987654321 404-555-1234 Yang, Cristina DO 01-15-2025 (missing) Aetna Health SNF
Doe, Jane EP111222333 (missing) Bailey, Miranda MD 01-15-2025 Webber, Richard MD Self Pay AMA"
      = OK res /\
    In r (records res) /\
    patientName r = $"Smith, Robert" /\ epicId r = $"EP987654321" /\
    phoneNumber r = Some $"404-555-1234" /\
    attendingPhysician r = $"Yang, Cristina DO" /\ dischargeDate r = $"01-15-2025" /\
    primaryCareProvider r = None /\ insurance r = $"Aetna Health" /\
    disposition r = $"SNF" /\ (confidence r == 9 # 10)%Q.
Proof.
  destruct (parseDischargeText $"Sacred Heart Hospital Discharges for 01-15-2025
Johnson, Sarah EP123456789 555-867-5309 Sloan, MD Mark 01-15-2025 Grey, Meredith MD BCBS Home
Smith, Robert EP987654321 404-555-1234 Yang, Cristina DO 01-15-2025 (missing) Aetna Health SNF
Doe, Jane EP111222333 (missing) Bailey, Miranda MD 01-15-2025 Webber, Richard MD Self Pay AMA")
    as [res|] eqn:E; [|vm_compute in E; discriminate].
  destruct (X13_row_round_trip _ res
              ($"Smith, Robert") ($"EP987654321") ($"404-555-1234")
              ($"Yang, Cristina DO") ($"01-15-2025") ($"(missing)")
              ($"Aetna Health") ($"SNF")
              ($"Yang, Cristina DO") ($"(missing)") (Some $"404-555-1234") E)
    as (r & Hin & _ & Hfields).
  - vm_compute. right. right. left. reflexivity.
  - intros Hs. apply test_epicIdPattern in Hs. vm_compute in Hs. discriminate Hs.
  - vm_compute. reflexivity.
  - exists ($"987654321"). split; [reflexivity | split; reflexivity].
  - apply phone_formatted; vm_compute; reflexivity.
  - vm_compute. reflexivity.
  - vm_compute. reflexivity.
  - vm_compute. reflexivity.
  - reflexivity.
  - vm_compute. reflexivity.
  - vm_compute. reflexivity.
  - vm_compute. auto 10.
  - vm_compute. auto 10.
  - exists res, r. split; [reflexivity | split; [assumption|]].
    exact Hfields.
Defined.

(** X14. Line by line: the records of two texts joined by a line feed
    (code unit 10) are the records of the first followed by the records
    of the second. *)
Theorem X14_line_by_line (a b : str) (res resa resb : ParseResult) :
  parseDischargeText (a ++ [10%N] ++ b) = OK res ->
  parseDischargeText a = OK resa -> parseDischargeText b = OK resb ->
  records res = records resa ++ records resb.
Proof.
  intros H Ha Hb.
  apply parseDischargeText_records in H, Ha, Hb.
  change (a ++ [10%N] ++ b) with (a ++ @cons char 10%N b) in H.
  rewrite linesOf_app, filter_app in H.
  exact (Forall2_unique _ _ _ _ H (Forall2_app Ha Hb)).
Qed.

Lemma X14_line_by_line_witness :
  exists res resa resb,
    parseDischargeText ($"Doe, Jane EP000000001 Home" ++ [10%N] ++ $"Roe, Rick EP000000002 SNF") = OK res /\
    parseDischargeText $"Doe, Jane EP000000001 Home" = OK resa /\
    parseDischargeText $"Roe, Rick EP000000002 SNF" = OK resb /\
    records res = records resa ++ records resb.
Proof.
  destruct (parseDischargeText ($"Doe, Jane EP000000001 Home" ++ [10%N] ++ $"Roe, Rick EP000000002 SNF")) as [res|] eqn:E; [|vm_compute in E; discriminate].
  destruct (parseDischargeText $"Doe, Jane EP000000001 Home") as [resa|] eqn:Ea;
    [|vm_compute in Ea; discriminate].
  destruct (parseDischargeText $"Roe, Rick EP000000002 SNF") as [resb|] eqn:Eb;
    [|vm_compute in Eb; discriminate].
  exists res, resa, resb.
  split; [reflexivity | split; [reflexivity | split; [reflexivity|]]].
  exact (X14_line_by_line _ _ res resa resb E Ea Eb).
Defined.
